(** * mcp-mssql: the DatabaseService layer, embedded and verified

    A shallow embedding of [config.js], [errors.ts] and the
    [DatabaseService] class of the MSSQL MCP server, together with the
    properties its specification states about them.

    JavaScript strings are modelled as Rocq strings of code units below
    256 (Latin-1); numbers that the configuration parses with [parseInt]
    are integers of [Z]; [Math.random] and the back-off delay computed
    from it are exact rationals of [Q]. *)

From Stdlib Require Import String Ascii List ZArith QArith Qminmax Lia Lqa Bool.
From Stdlib Require Import Sorting.Sorted Sorting.Permutation.
From Stdlib Require DecimalString.
From stdpp Require Import base option gmap strings.
Import ListNotations.

Local Open Scope string_scope.
Local Open Scope Z_scope.

(** ** JavaScript string primitives *)

Module Js.

(** Code units that [String.prototype.trim] and the regular-expression
    class [\s] treat as white space, among the code units below 256:
    TAB, LF, VT, FF, CR, SPACE and NBSP. *)
Definition isWhiteSpace (c : ascii) : bool :=
  let n := nat_of_ascii c in
  ((9 <=? n)%nat && (n <=? 13)%nat) || (n =? 32)%nat || (n =? 160)%nat.

Fixpoint trimStart (s : string) : string :=
  match s with
  | EmptyString => EmptyString
  | String c r => if isWhiteSpace c then trimStart r else s
  end.

(** [trimEnd] keeps a character when it is not white space or when
    something is left after it. *)
Fixpoint trimEnd (s : string) : string :=
  match s with
  | EmptyString => EmptyString
  | String c r =>
      match trimEnd r with
      | EmptyString => if isWhiteSpace c then EmptyString else String c EmptyString
      | r' => String c r'
      end
  end.

Definition trim (s : string) : string := trimEnd (trimStart s).

(** [toLowerCase] on one code unit: A-Z, and the Latin-1 capitals
    U+00C0..U+00DE except the multiplication sign U+00D7. *)
Definition lowerChar (c : ascii) : ascii :=
  let n := nat_of_ascii c in
  if ((65 <=? n)%nat && (n <=? 90)%nat)
     || ((192 <=? n)%nat && (n <=? 222)%nat && negb (n =? 215)%nat)
  then ascii_of_nat (n + 32) else c.

Fixpoint toLowerCase (s : string) : string :=
  match s with
  | EmptyString => EmptyString
  | String c r => String (lowerChar c) (toLowerCase r)
  end.

Fixpoint startsWith (s p : string) {struct p} : bool :=
  match p, s with
  | EmptyString, _ => true
  | String _ _, EmptyString => false
  | String a p', String b s' => if Ascii.eqb a b then startsWith s' p' else false
  end.

(** [s.includes(sub)]: [sub] occurs at some position of [s]. *)
Fixpoint includes (s sub : string) : bool :=
  startsWith s sub ||
  match s with
  | EmptyString => false
  | String _ r => includes r sub
  end.

(** [s.split(sep)] for a one-character separator: never the empty
    list; the empty string splits into one empty piece. *)
Fixpoint split (sep : ascii) (s : string) : list string :=
  match s with
  | EmptyString => [EmptyString]
  | String c r =>
      if Ascii.eqb c sep then EmptyString :: split sep r
      else match split sep r with
           | [] => [String c EmptyString]
           | p :: ps => String c p :: ps
           end
  end.

(** Truthiness of a string: every string but the empty one. *)
Definition truthy (s : string) : bool :=
  match s with EmptyString => false | _ => true end.

(** [a || b] on strings. *)
Definition orElse (a b : string) : string := if truthy a then a else b.

(** [s.replace(c, '')] with a string pattern: the first occurrence only. *)
Fixpoint removeFirst (c : ascii) (s : string) : string :=
  match s with
  | EmptyString => EmptyString
  | String a r => if Ascii.eqb a c then r else String a (removeFirst c r)
  end.

(** [s.replace(/c/g, '')]: every occurrence. *)
Fixpoint removeAll (c : ascii) (s : string) : string :=
  match s with
  | EmptyString => EmptyString
  | String a r => if Ascii.eqb a c then removeAll c r else String a (removeAll c r)
  end.

(** [s.substring(0, n)]. *)
Fixpoint take (n : nat) (s : string) : string :=
  match n, s with
  | O, _ => EmptyString
  | _, EmptyString => EmptyString
  | S n', String c r => String c (take n' r)
  end.

(** [`${n}`] for an integer. *)
Definition showZ (z : Z) : string :=
  DecimalString.NilZero.string_of_int (Z.to_int z).

(** [xs.join(sep)]. *)
Fixpoint join (sep : string) (xs : list string) : string :=
  match xs with
  | [] => EmptyString
  | [x] => x
  | x :: rest => x ++ sep ++ join sep rest
  end.

End Js.

(** ** config.js: the database whitelist *)

Module Config.

(** [(process.env.SQL_ALLOWED_DATABASES || "").split(",").filter(Boolean)];
    the environment variable is [None] when unset. *)
Definition allowedDatabases (env : option string) : list string :=
  List.filter Js.truthy (Js.split "," (Js.orElse (default EmptyString env) EmptyString)).

End Config.

(** ** Regular expressions, as far as the service uses them

    The service tests identifiers with anchored patterns built from
    character classes, concatenation, option and [+].  They are embedded
    as a syntax tree and matched by derivatives. *)

Module Regex.

Inductive regex : Type :=
| Empty                                 (* matches nothing *)
| Eps                                   (* matches the empty string *)
| Class (p : ascii -> bool)             (* one character of a class *)
| Seq (r1 r2 : regex)
| Alt (r1 r2 : regex)
| Star (r : regex).

Definition Plus (r : regex) : regex := Seq r (Star r).
Definition Opt (r : regex) : regex := Alt r Eps.
Definition Lit (c : ascii) : regex := Class (Ascii.eqb c).

Fixpoint nullable (r : regex) : bool :=
  match r with
  | Empty => false
  | Eps => true
  | Class _ => false
  | Seq a b => nullable a && nullable b
  | Alt a b => nullable a || nullable b
  | Star _ => true
  end.

Fixpoint deriv (c : ascii) (r : regex) : regex :=
  match r with
  | Empty => Empty
  | Eps => Empty
  | Class p => if p c then Eps else Empty
  | Seq a b =>
      if nullable a then Alt (Seq (deriv c a) b) (deriv c b)
      else Seq (deriv c a) b
  | Alt a b => Alt (deriv c a) (deriv c b)
  | Star a => Seq (deriv c a) (Star a)
  end.

(** [/^r$/.test(s)]: the whole string matches [r]. *)
Fixpoint test (r : regex) (s : string) : bool :=
  match s with
  | EmptyString => nullable r
  | String c s' => test (deriv c r) s'
  end.

(** Some class of [r] accepts [c]. *)
Fixpoint mentions (r : regex) (c : ascii) : bool :=
  match r with
  | Empty | Eps => false
  | Class p => p c
  | Seq a b | Alt a b => mentions a c || mentions b c
  | Star a => mentions a c
  end.

(** A syntactic sufficient condition for matching nothing. *)
Fixpoint dead (r : regex) : bool :=
  match r with
  | Empty => true
  | Eps | Class _ | Star _ => false
  | Seq a b => dead a || dead b
  | Alt a b => dead a && dead b
  end.

Fixpoint allChars (p : ascii -> bool) (s : string) : bool :=
  match s with
  | EmptyString => true
  | String c r => p c && allChars p r
  end.

(** The character classes of the source. *)
Definition isAlnumUnderscore (c : ascii) : bool :=   (* [a-zA-Z0-9_] *)
  let n := nat_of_ascii c in
  ((97 <=? n) && (n <=? 122) || (65 <=? n) && (n <=? 90)
   || (48 <=? n) && (n <=? 57) || (n =? 95))%nat.

Definition isDbNameChar (c : ascii) : bool :=        (* [a-zA-Z0-9_\-\s\[\]] *)
  let n := nat_of_ascii c in
  (isAlnumUnderscore c || (n =? 45) || Js.isWhiteSpace c || (n =? 91) || (n =? 93))%nat.

(** [/^[a-zA-Z0-9_\-\s\[\]]+$/] *)
Definition dbNamePattern : regex := Plus (Class isDbNameChar).

(** [/^([a-zA-Z0-9_]+\.)?[a-zA-Z0-9_]+$/] *)
Definition procedurePattern : regex :=
  Seq (Opt (Seq (Plus (Class isAlnumUnderscore)) (Lit "."))) (Plus (Class isAlnumUnderscore)).

End Regex.

(** ** errors.ts *)

Inductive ErrorType : Type :=
| UNKNOWN_ERROR
| CONNECTION_ERROR
| CONNECTION_TIMEOUT
| QUERY_ERROR
| STORED_PROCEDURE_ERROR
| SCHEMA_ERROR
| VALIDATION_ERROR
| PERMISSION_ERROR
| DATABASE_ERROR
| SQL_PARSER_ERROR.

(** The values the service stores in an error's detail map. *)
Inductive DetailValue : Type :=
| DStr (s : string)
| DNum (n : Z)
| DStrList (l : list string)
| DParam (name type : string)           (* a stored-procedure parameter *)
| DObject.                              (* some other object, kept opaque *)

Abbreviation ErrorDetails := (gmap string DetailValue).

(** An [Error] instance: either a plain one (the driver's, the
    parser's), with its [message], its [code] if any and its [stack], or
    a [MssqlMcpError]. *)
#[warnings="-register-all"]
Inductive JsError : Type :=
| PlainError (message : string) (code : option string) (stack : string)
| MssqlMcpError (message : string) (errorType : ErrorType)
                (originalError : option JsError) (details : option ErrorDetails).

(** What a [catch] clause can receive. *)
Inductive Thrown : Type :=
| TError (e : JsError)
| TString (s : string)
| TObject (message : option string).    (* an object that is not an Error *)

Definition errMessage (e : JsError) : string :=
  match e with PlainError m _ _ | MssqlMcpError m _ _ _ => m end.

Definition errCode (e : JsError) : option string :=
  match e with PlainError _ c _ => c | MssqlMcpError _ _ _ _ => None end.

Definition errStack (e : JsError) : string :=
  match e with PlainError _ _ s => s | MssqlMcpError _ _ _ _ => EmptyString end.

Definition errType (e : JsError) : option ErrorType :=
  match e with PlainError _ _ _ => None | MssqlMcpError _ t _ _ => Some t end.

Definition errDetails (e : JsError) : option ErrorDetails :=
  match e with PlainError _ _ _ => None | MssqlMcpError _ _ _ d => d end.

Definition errOriginal (e : JsError) : option JsError :=
  match e with PlainError _ _ _ => None | MssqlMcpError _ _ o _ => o end.

Definition isMcp (t : Thrown) : bool :=
  match t with TError (MssqlMcpError _ _ _ _) => true | _ => false end.

(** [{...a, ...b}]: the keys of [b] win. *)
Definition spread (a b : ErrorDetails) : ErrorDetails := b ∪ a.

(** [String(x)] of a caught value. *)
Definition thrownToString (t : Thrown) : string :=
  match t with
  | TError e => "Error: " ++ errMessage e
  | TString s => s
  | TObject _ => "[object Object]"
  end.

(** [MssqlMcpError.fromError]. *)
Definition fromError (error : Thrown) (defaultErrorType : ErrorType)
    (additionalDetails : option ErrorDetails) : JsError :=
  match error with
  | TError (MssqlMcpError m t o d) =>
      match additionalDetails with
      | Some extra => MssqlMcpError m t o (Some (spread (default ∅ d) extra))
      | None => MssqlMcpError m t o d
      end
  | _ =>
      let message :=
        match error with
        | TError e => errMessage e
        | TString s => s
        | TObject (Some m) => m
        | TObject None => "An unknown error occurred"
        end in
      let stackPart : ErrorDetails :=
        match error with
        | TError e => if Js.truthy (errStack e) then {[ "stack" := DStr (errStack e) ]} else ∅
        | _ => ∅
        end in
      let valuePart : ErrorDetails :=
        match error with
        | TError _ => ∅
        | TString s => {[ "originalValue" := DStr s ]}
        | TObject _ => {[ "originalValue" := DObject ]}
        end in
      MssqlMcpError message defaultErrorType
        (match error with TError e => Some e | _ => None end)
        (Some (spread (spread stackPart valuePart) (default ∅ additionalDetails)))
  end.

(** ** The driver's parameter types and the type-name table *)

Inductive SqlType : Type :=
| BigInt | Binary | Bit | Char | Date | DateTime | DateTime2 | DateTimeOffset
| Decimal | Float | Geography | Geometry | Image | Int | Money | NChar | NText
| Numeric | NVarChar | Real | SmallDateTime | SmallInt | SmallMoney | Text
| Time | TinyInt | TVP | UniqueIdentifier | VarBinary | VarChar | Variant | Xml.

Definition sqlDataTypeEntries : list (string * SqlType) :=
  [ ("bigint", BigInt); ("binary", Binary); ("bit", Bit); ("char", Char);
    ("date", Date); ("datetime", DateTime); ("datetime2", DateTime2);
    ("datetimeoffset", DateTimeOffset); ("decimal", Decimal); ("float", Float);
    ("geography", Geography); ("geometry", Geometry); ("image", Image);
    ("int", Int); ("money", Money); ("nchar", NChar); ("ntext", NText);
    ("numeric", Numeric); ("nvarchar", NVarChar); ("real", Real);
    ("smalldatetime", SmallDateTime); ("smallint", SmallInt);
    ("smallmoney", SmallMoney); ("text", Text); ("time", Time);
    ("tinyint", TinyInt); ("tvp", TVP); ("uniqueidentifier", UniqueIdentifier);
    ("varbinary", VarBinary); ("varchar", VarChar); ("variant", Variant);
    ("xml", Xml);
    ("string", NVarChar); ("number", Int); ("boolean", Bit) ].

(** [new Map(entries)]: entries are inserted in order, a later one
    replacing an earlier one with the same key. *)
Definition sqlDataTypeMap : gmap string SqlType :=
  fold_left (fun m kv => <[ fst kv := snd kv ]> m) sqlDataTypeEntries ∅.

Definition normalizedTypeName (typeName : string) : string :=
  Js.trim (Js.toLowerCase typeName).

Definition mapStringToSqlType (typeName : string) : SqlType :=
  match sqlDataTypeMap !! normalizedTypeName typeName with
  | None => NVarChar
  | Some sqlTypeFactory => sqlTypeFactory
  end.

(** ** The service's configuration, its collaborators and its state *)

(** [SqlConfig], the fields the service reads. *)
Record SqlConfig : Type := {
  server : string;
  port : Z;
  user : string;
  password : option string;
  database : string;
  requestTimeout : option Z;
  connectionTimeout : option Z;
  maxRetries : Z;
  initialRetryDelay : Z;
  maxRetryDelay : Z;
  schemaCacheTTL : Z;
  allowedDatabases : option (list string);
}.

(** A connection pool of the driver: its identity and its [connected]
    property. *)
Record Pool : Type := { poolId : nat; connected : bool }.

(** What the driver, the parser or any other collaborator can raise: any
    value but a [MssqlMcpError], which only this code base constructs. *)
Inductive Raised : Type :=
| RaisedError (message : string) (code : option string) (stack : string)
| RaisedString (s : string)
| RaisedObject (message : option string).

Definition thrownOf (r : Raised) : Thrown :=
  match r with
  | RaisedError m c s => TError (PlainError m c s)
  | RaisedString s => TString s
  | RaisedObject m => TObject m
  end.

(** Values of a result row. *)
Inductive SqlValue : Type :=
| VNull | VNum (n : Z) | VStr (s : string) | VBool (b : bool) | VOther.

(** A row object: its properties in enumeration order. *)
Abbreviation Row := (list (string * SqlValue)).

Record ColumnMeta : Type := { colIndex : Z; colName : string }.

(** [IRecordSet]: the rows, and the [columns] metadata when present (its
    values in enumeration order). *)
Record Recordset : Type := {
  rows : list Row;
  columns : option (list ColumnMeta);
}.

Record DriverResult : Type := {
  recordset : option Recordset;
  output : list (string * SqlValue);
  returnValue : SqlValue;
  rowsAffected : list Z;
}.

(** A row of the metadata query of [getSchema]. *)
Record SchemaQueryRow : Type := {
  TABLE_SCHEMA : string;
  TABLE_NAME : string;
  COLUMN_NAME : string;
  DATA_TYPE : string;
  CHARACTER_MAXIMUM_LENGTH : option Z;
  NUMERIC_PRECISION : option Z;
  NUMERIC_SCALE : option Z;
  IS_NULLABLE : string;
  IS_PRIMARY_KEY : Z;
  ORDINAL_POSITION : Z;
}.

(** A bound input parameter of a request. *)
Record BoundInput : Type := {
  inputName : string;
  inputType : SqlType;
  inputValue : option SqlValue;
}.

Inductive Request : Type :=
| ReqQuery (sql : string)
| ReqBatch (inputs : list BoundInput) (sql : string)
| ReqExecute (inputs : list BoundInput) (procedure : string).

Inductive RequestOutcome : Type :=
| Done (result : DriverResult)
| Failed (r : Raised).

Inductive MetadataOutcome : Type :=
| MetadataRows (recordset : list SchemaQueryRow)
| MetadataFailed (r : Raised).

Inductive ConnectOutcome : Type :=
| Connected (connected : bool)    (* resolves; the pool's [connected] afterwards *)
| ConnectFailed (r : Raised)
| ConnectTimedOut.                (* the timer of [connectWithTimeout] won the race *)

(** A statement of the parser's syntax tree: its [type] property. *)
Record Statement : Type := { stmtType : string }.

Inductive ParseOutcome : Type :=
| ParsedOne (ast : Statement)
| ParsedMany (ast : list Statement)
| ParseFailed (r : Raised).

(** Calls that leave the process, in the order they were made. *)
Inductive Event : Type :=
| EvConnect (pool : nat)
| EvClose (pool : nat)
| EvProbe (pool : nat)                   (* the liveness probe of initPool *)
| EvRequest (pool : nat) (r : Request)
| EvMetadataQuery (pool : nat)
| EvSleep (ms : Q).

(** The collaborators: the configuration, the SQL parser, the driver,
    [Math.random] and [Date.now].  The driver's answer may depend on how
    many calls left the process before; the n-th reading of the random
    source and of the clock are given as sequences. *)
Record Env : Type := {
  sqlConfig : SqlConfig;
  astify : string -> ParseOutcome;
  connectOutcome : nat -> ConnectOutcome;
  requestOutcome : nat -> Request -> RequestOutcome;
  metadataOutcome : nat -> MetadataOutcome;
  random : nat -> Q;
  clock : nat -> Z;
}.

(** A promise as a task that awaits it sees it. *)
Inductive Promise : Type :=
| Resolved (p : Pool)
| Rejected (t : Thrown)
| Pending.

Record AbortController : Type := { signal : nat; aborted : bool }.

Record TableColumn : Type := {
  columnName : string;
  columnType : string;
  nullable : bool;
  primary : bool;
}.

Record TableSchema : Type := {
  schema : string;
  name : string;
  fullName : string;
  tableColumns : list TableColumn;
}.

Record CacheEntry : Type := { timestamp : Z; data : list TableSchema }.

(** The fields of a [DatabaseService], with the history of calls and the
    counters of the readings made so far. *)
Record World : Type := {
  pool : option Pool;
  connectionPromise : option Promise;
  isConnecting : bool;
  abortController : option AbortController;
  schemaCache : gmap string CacheEntry;
  connectionRetries : Z;
  trace : list Event;
  nextId : nat;
  randomReads : nat;
  clockReads : nat;
}.

(** ** A monad for a task that runs to its end alone

    A call either returns, throws, waits for ever on a promise that no
    other task is there to settle, or exceeds the bound put on its
    recursion. *)

Inductive Outcome (A : Type) : Type :=
| Returned (a : A)
| Threw (t : Thrown)
| Stuck
| OutOfFuel.
Arguments Returned {A} a.
Arguments Threw {A} t.
Arguments Stuck {A}.
Arguments OutOfFuel {A}.

Definition M (A : Type) : Type := World -> Outcome A * World.

Definition ret {A} (a : A) : M A := fun w => (Returned a, w).
Definition throw {A} (t : Thrown) : M A := fun w => (Threw t, w).
Definition throwError {A} (e : JsError) : M A := throw (TError e).

Definition bind {A B} (m : M A) (k : A -> M B) : M B :=
  fun w =>
    match m w with
    | (Returned a, w') => k a w'
    | (Threw t, w') => (Threw t, w')
    | (Stuck, w') => (Stuck, w')
    | (OutOfFuel, w') => (OutOfFuel, w')
    end.

(** [try { body } catch (error) { handler }] *)
Definition tryCatch {A} (body : M A) (handler : Thrown -> M A) : M A :=
  fun w =>
    match body w with
    | (Threw t, w') => handler t w'
    | r => r
    end.

Definition get : M World := fun w => (Returned w, w).
Definition modify (f : World -> World) : M unit := fun w => (Returned tt, f w).
Definition when (b : bool) (m : M unit) : M unit := if b then m else ret tt.

Declare Scope task_scope.
Delimit Scope task_scope with task.
Notation "x <- c1 ;; c2" := (bind c1 (fun x => c2))
  (at level 100, c1 at next level, right associativity) : task_scope.
Notation "c1 ;; c2" := (bind c1 (fun _ => c2))
  (at level 100, right associativity) : task_scope.
Local Open Scope task_scope.

Definition emit (e : Event) : M unit :=
  modify (fun w => {| pool := pool w; connectionPromise := connectionPromise w;
                      isConnecting := isConnecting w; abortController := abortController w;
                      schemaCache := schemaCache w; connectionRetries := connectionRetries w;
                      trace := trace w ++ [e]; nextId := nextId w;
                      randomReads := randomReads w; clockReads := clockReads w |}).

Definition setPool (p : option Pool) : M unit :=
  modify (fun w => {| pool := p; connectionPromise := connectionPromise w;
                      isConnecting := isConnecting w; abortController := abortController w;
                      schemaCache := schemaCache w; connectionRetries := connectionRetries w;
                      trace := trace w; nextId := nextId w;
                      randomReads := randomReads w; clockReads := clockReads w |}).

Definition setConnectionPromise (p : option Promise) : M unit :=
  modify (fun w => {| pool := pool w; connectionPromise := p;
                      isConnecting := isConnecting w; abortController := abortController w;
                      schemaCache := schemaCache w; connectionRetries := connectionRetries w;
                      trace := trace w; nextId := nextId w;
                      randomReads := randomReads w; clockReads := clockReads w |}).

Definition setIsConnecting (b : bool) : M unit :=
  modify (fun w => {| pool := pool w; connectionPromise := connectionPromise w;
                      isConnecting := b; abortController := abortController w;
                      schemaCache := schemaCache w; connectionRetries := connectionRetries w;
                      trace := trace w; nextId := nextId w;
                      randomReads := randomReads w; clockReads := clockReads w |}).

Definition setAbortController (c : option AbortController) : M unit :=
  modify (fun w => {| pool := pool w; connectionPromise := connectionPromise w;
                      isConnecting := isConnecting w; abortController := c;
                      schemaCache := schemaCache w; connectionRetries := connectionRetries w;
                      trace := trace w; nextId := nextId w;
                      randomReads := randomReads w; clockReads := clockReads w |}).

Definition setSchemaCache (c : gmap string CacheEntry) : M unit :=
  modify (fun w => {| pool := pool w; connectionPromise := connectionPromise w;
                      isConnecting := isConnecting w; abortController := abortController w;
                      schemaCache := c; connectionRetries := connectionRetries w;
                      trace := trace w; nextId := nextId w;
                      randomReads := randomReads w; clockReads := clockReads w |}).

Definition setConnectionRetries (n : Z) : M unit :=
  modify (fun w => {| pool := pool w; connectionPromise := connectionPromise w;
                      isConnecting := isConnecting w; abortController := abortController w;
                      schemaCache := schemaCache w; connectionRetries := n;
                      trace := trace w; nextId := nextId w;
                      randomReads := randomReads w; clockReads := clockReads w |}).

(** A fresh identity for a pool or an abort signal. *)
Definition freshId : M nat :=
  fun w => (Returned (nextId w),
            {| pool := pool w; connectionPromise := connectionPromise w;
               isConnecting := isConnecting w; abortController := abortController w;
               schemaCache := schemaCache w; connectionRetries := connectionRetries w;
               trace := trace w; nextId := S (nextId w);
               randomReads := randomReads w; clockReads := clockReads w |}).

(** [await p] for a promise held in a field. *)
Definition await (p : Promise) : M Pool :=
  match p with
  | Resolved pl => ret pl
  | Rejected t => throw t
  | Pending => fun w => (Stuck, w)
  end.

Definition readRandom (env : Env) : M Q :=
  fun w => (Returned (random env (randomReads w)),
            {| pool := pool w; connectionPromise := connectionPromise w;
               isConnecting := isConnecting w; abortController := abortController w;
               schemaCache := schemaCache w; connectionRetries := connectionRetries w;
               trace := trace w; nextId := nextId w;
               randomReads := S (randomReads w); clockReads := clockReads w |}).

Definition dateNow (env : Env) : M Z :=
  fun w => (Returned (clock env (clockReads w)),
            {| pool := pool w; connectionPromise := connectionPromise w;
               isConnecting := isConnecting w; abortController := abortController w;
               schemaCache := schemaCache w; connectionRetries := connectionRetries w;
               trace := trace w; nextId := nextId w;
               randomReads := randomReads w; clockReads := S (clockReads w) |}).

(** [await new Promise(resolve => setTimeout(resolve, ms))] *)
Definition sleep (ms : Q) : M unit := emit (EvSleep ms).

(** [await p.request()...]: the driver answers, the call is recorded. *)
Definition request (env : Env) (p : Pool) (r : Request) : M DriverResult :=
  w <- get ;;
  emit (EvRequest (poolId p) r) ;;
  match requestOutcome env (length (trace w)) r with
  | Done result => ret result
  | Failed e => throw (thrownOf e)
  end.

(** [p.close()]; its failure is only ever logged. *)
Definition closeInstance (p : nat) : M unit := emit (EvClose p).

Definition poolConnected (p : option Pool) : bool :=
  match p with Some pl => connected pl | None => false end.

Definition samePool (a : option Pool) (b : Pool) : bool :=
  match a with Some pl => Nat.eqb (poolId pl) (poolId b) | None => false end.

Definition liveController (c : option AbortController) : bool :=
  match c with Some ctl => negb (aborted ctl) | None => false end.

(** [x || y] on an optional number: [undefined], [0] and [NaN] are falsy. *)
Definition numOr (x : option Z) (y : Z) : Z :=
  match x with Some n => if Z.eqb n 0 then y else n | None => y end.

Definition passwordMissing (cfg : SqlConfig) : bool :=
  match password cfg with Some p => negb (Js.truthy p) | None => true end.

(** ** Results and their shaping *)

Inductive QueryResult : Type :=
| QueryResultSuccess (columns : list string) (rows : list (list SqlValue)) (recordCount : nat)
| QueryResultMessage (message : string).

Inductive StoredProcedureResult : Type :=
| StoredProcedureResultSuccess
    (columns : list string) (rows : list (list SqlValue)) (recordCount : nat)
    (outputParameters : list (string * SqlValue)) (returnValue : SqlValue)
    (rowsAffected : list Z)
| StoredProcedureResultMessage
    (message : string) (outputParameters : list (string * SqlValue))
    (returnValue : SqlValue) (rowsAffected : list Z).

(** [colArray.sort((a, b) => a.index - b.index)]: a stable sort on the
    column index, written as an insertion sort. *)
Fixpoint insertByIndex (c : ColumnMeta) (l : list ColumnMeta) : list ColumnMeta :=
  match l with
  | [] => [c]
  | d :: r => if colIndex c <=? colIndex d then c :: l else d :: insertByIndex c r
  end.

Definition sortByIndex (l : list ColumnMeta) : list ColumnMeta :=
  fold_right insertByIndex [] l.

(** The result of [executeQuery] from the driver's result. *)
Definition shapeQueryResult (result : DriverResult) : QueryResult :=
  match recordset result with
  | Some rs =>
      match rows rs with
      | first :: _ =>
          QueryResultSuccess (map fst first) (map (map snd) (rows rs)) (length (rows rs))
      | [] =>
          let columnNames :=
            match columns rs with
            | Some cols => map colName (sortByIndex cols)
            | None => []
            end in
          QueryResultSuccess columnNames [] 0
      end
  | None => QueryResultSuccess [] [] 0
  end.

(** The result of [executeStoredProcedure] from the driver's result. *)
Definition shapeProcedureResult (result : DriverResult) : StoredProcedureResult :=
  match recordset result with
  | Some {| rows := first :: rest |} =>
      StoredProcedureResultSuccess (map fst first) (map (map snd) (first :: rest))
        (length (first :: rest)) (output result) (returnValue result) (rowsAffected result)
  | _ =>
      StoredProcedureResultMessage
        "Stored procedure executed successfully, but returned no records"
        (output result) (returnValue result) (rowsAffected result)
  end.

(** The table list of [getSchema] from the rows of the metadata query. *)
Definition renderColumnType (row : SchemaQueryRow) : string :=
  match CHARACTER_MAXIMUM_LENGTH row with
  | Some len =>
      if negb (len =? 0) then DATA_TYPE row ++ "(" ++ Js.showZ len ++ ")"
      else match NUMERIC_PRECISION row, NUMERIC_SCALE row with
           | Some p, Some sc => DATA_TYPE row ++ "(" ++ Js.showZ p ++ "," ++ Js.showZ sc ++ ")"
           | _, _ => DATA_TYPE row
           end
  | None =>
      match NUMERIC_PRECISION row, NUMERIC_SCALE row with
      | Some p, Some sc => DATA_TYPE row ++ "(" ++ Js.showZ p ++ "," ++ Js.showZ sc ++ ")"
      | _, _ => DATA_TYPE row
      end
  end.

Definition columnOfRow (row : SchemaQueryRow) : TableColumn :=
  {| columnName := COLUMN_NAME row;
     columnType := renderColumnType row;
     nullable := String.eqb (IS_NULLABLE row) "YES";
     primary := IS_PRIMARY_KEY row =? 1 |}.

(** [tablesMap.get(tableName)!.columns.push(col)] on the map's entries in
    insertion order. *)
Fixpoint pushColumn (tableName : string) (col : TableColumn) (tables : list TableSchema)
  : list TableSchema :=
  match tables with
  | [] => []
  | t :: rest =>
      if String.eqb (fullName t) tableName
      then {| schema := schema t; name := name t; fullName := fullName t;
              tableColumns := (tableColumns t ++ [col])%list |} :: rest
      else t :: pushColumn tableName col rest
  end.

Definition addSchemaRow (tables : list TableSchema) (row : SchemaQueryRow) : list TableSchema :=
  let tableName := TABLE_SCHEMA row ++ "." ++ TABLE_NAME row in
  let tables' :=
    if existsb (fun t => String.eqb (fullName t) tableName) tables then tables
    else (tables ++ [ {| schema := TABLE_SCHEMA row; name := TABLE_NAME row;
                         fullName := tableName; tableColumns := [] |} ])%list in
  pushColumn tableName (columnOfRow row) tables'.

Definition assembleTables (recordset : list SchemaQueryRow) : list TableSchema :=
  fold_left addSchemaRow recordset [].

(** ** Validation predicates of the operations *)

(** [a.includes(x)] on an array of strings. *)
Definition arrayIncludes (a : list string) (x : string) : bool :=
  existsb (String.eqb x) a.

(** The whitelist test the three operations share. *)
Definition whitelistRejects (cfg : SqlConfig) (target : string) : bool :=
  match allowedDatabases cfg with
  | Some allowed => (0 <? length allowed)%nat && negb (arrayIncludes allowed target)
  | None => false
  end.

(** [rawDatabaseArg || this.sqlConfig.database] *)
Definition targetDatabaseOf (cfg : SqlConfig) (rawDatabaseArg : option string) : string :=
  Js.orElse (default EmptyString rawDatabaseArg) (database cfg).

(** ['USE [' + dbName.replace(/\]/g, '').replace(/\[/g, '') + ']'] *)
Definition useStatement (dbName : string) : string :=
  "USE [" ++ Js.removeAll "[" (Js.removeAll "]" dbName) ++ "]".

(** The message of a database name that fails the pattern, in
    [executeQuery] and [executeStoredProcedure]. *)
Definition invalidDatabaseName : string := "DatabaseService: Invalid database name format: ".

(** The same message in [getSchema]. *)
Definition invalidSchemaDatabaseName : string :=
  "DatabaseService: Invalid database name format for schema: ".

(** [!s || s.trim() === ''] *)
Definition blank (s : string) : bool :=
  negb (Js.truthy s) || String.eqb (Js.trim s) EmptyString.

Definition blockedSubstrings : list string :=
  [ "exec "; "execute "; "sp_"; "xp_"; "reconfigure"; "waitfor delay" ].

(** The test on [lowercaseQuery] in [executeQuery]. *)
Definition potentiallyUnsafe (query : string) : bool :=
  let lowercaseQuery := Js.toLowerCase query in
  Js.includes lowercaseQuery "exec " ||
  Js.includes lowercaseQuery "execute " ||
  Js.includes lowercaseQuery "sp_" ||
  Js.includes lowercaseQuery "xp_" ||
  Js.includes lowercaseQuery "reconfigure" ||
  Js.includes lowercaseQuery "waitfor delay".

(** [Array.isArray(ast) ? ast : [ast]] *)
Definition statementsOf (ast : ParseOutcome) : list Statement :=
  match ast with
  | ParsedOne q => [q]
  | ParsedMany qs => qs
  | ParseFailed _ => []
  end.

(** The first statement whose [type] is not ['select'], if any. *)
Definition firstNonSelect (queries : list Statement) : option Statement :=
  find (fun q => negb (String.eqb (stmtType q) "select")) queries.

(** [query.length > 100 ? query.substring(0, 100) + '...' : query] *)
Definition truncateQuery (query : string) : string :=
  if (100 <? String.length query)%nat then Js.take 100 query ++ "..." else query.

(** [error.message.toLowerCase()] is connection-indicative. *)
Definition connectionIndicative (errorMessage : string) (code : option string) : bool :=
  Js.includes errorMessage "connect" ||
  Js.includes errorMessage "failed to connect" ||
  bool_decide (code = Some "ESOCKET").

(** A parameter of [executeStoredProcedure]; [value] is optional. *)
Record ProcParameter : Type := {
  paramName : string;
  paramType : string;
  paramValue : option SqlValue;
}.

Section Service.

Variable env : Env.
Let cfg : SqlConfig := sqlConfig env.

(** *** closePool *)
Definition closePool : M unit :=
  w <- get ;;
  when (bool_decide (is_Some (abortController w)))
       (setAbortController None) ;;
  match pool w with
  | Some p =>
      closeInstance (poolId p) ;;
      setPool None ;;
      setConnectionPromise None
  | None => ret tt
  end.

(** *** initPool

    One connection attempt.  The task runs alone, so the signal of the
    controller it has just created is not aborted where the source
    tests [signal.aborted], and the attempt's promise is settled when
    [initPool]'s caller resumes. *)

(** The error a failed [connectWithTimeout] throws: the driver's error
    made a connection error, or the timeout error when the timer won
    the race. *)
Definition connectFailure (failure : ConnectOutcome) : JsError :=
  match failure with
  | ConnectFailed r =>
      fromError (thrownOf r) CONNECTION_ERROR
        (Some {[ "customMessage" := DStr "DatabaseService: Failed to connect to SQL Server." ]})
  | _ =>
      MssqlMcpError
        ("DatabaseService: Connection attempt timed out after "
           ++ Js.showZ (numOr (connectionTimeout cfg) 30000) ++ "ms")
        CONNECTION_TIMEOUT None None
  end.

(** The body of [connectWithTimeout] and of the attempt around it,
    after [poolInstance] was constructed with identity [inst] and
    signal [sig]. *)
Definition connectAttempt (inst sig : nat) : M Pool :=
  w <- get ;;
  emit (EvConnect inst) ;;
  match connectOutcome env (length (trace w)) with
  | Connected c =>
      let connectedPool := {| poolId := inst; connected := c |} in
      setPool (Some connectedPool) ;;
      setConnectionRetries 0 ;;
      setConnectionPromise (Some (Resolved connectedPool)) ;;
      ret connectedPool
  | failure =>
      (* catch of connectWithTimeout *)
      closeInstance inst ;;
      (* catch of the attempt *)
      closeInstance inst ;;
      w1 <- get ;;
      (if bool_decide (is_Some (pool w1)) then closePool
       else setConnectionPromise None) ;;
      w2 <- get ;;
      when (match abortController w2 with
            | Some ctl => Nat.eqb (signal ctl) sig
            | None => false
            end)
           (setAbortController None) ;;
      throwError (connectFailure failure)
  end.

(** [await this.pool.request().query('SELECT 1 AS test_connection')] *)
Definition probe (p : Pool) : M unit :=
  w <- get ;;
  emit (EvProbe (poolId p)) ;;
  match requestOutcome env (length (trace w)) (ReqQuery "SELECT 1 AS test_connection") with
  | Done _ => ret tt
  | Failed e => throw (thrownOf e)
  end.

(** [initPool] past its first test: probe a pool that looks alive,
    else check the password and start an attempt.  A previous
    controller that was not aborted is aborted and replaced. *)
Definition initPoolAttempt : M Pool :=
  w <- get ;;
  reused <-
    (match pool w with
     | Some p =>
         if connected p then
           tryCatch
             (probe p ;; ret (Some p))
             (fun _ => closePool ;; ret None)
         else ret None
     | None => ret None
     end) ;;
  match reused with
  | Some p => ret p
  | None =>
      if passwordMissing cfg then
        throwError (MssqlMcpError "SQL Server password not provided." VALIDATION_ERROR None
                      (Some {[ "missingVariable" := DStr "SQL_PASSWORD" ]}))
      else
        sig <- freshId ;;
        setAbortController (Some {| signal := sig; aborted := false |}) ;;
        inst <- freshId ;;
        connectAttempt inst sig
  end.

Definition initPool : M Pool :=
  w <- get ;;
  match connectionPromise w with
  | Some p =>
      if liveController (abortController w) then await p else initPoolAttempt
  | None => initPoolAttempt
  end.

(** *** getPool *)

(** [Math.min(initialRetryDelay * Math.pow(2, currentAttempt) + jitter, maxRetryDelay)]
    where [jitter] is [Math.random() * 1000]. *)
Definition retryDelay (currentAttempt : nat) (rnd : Q) : Q :=
  Qmin (inject_Z (initialRetryDelay cfg * 2 ^ Z.of_nat currentAttempt) + rnd * 1000)
       (inject_Z (maxRetryDelay cfg)).

(** [initialRetryDelay / 2 || 500] *)
Definition briefWait : Q :=
  if Z.eqb (initialRetryDelay cfg) 0 then 500 else inject_Z (initialRetryDelay cfg) / 2.

(** The error of the last attempt, once the attempts are used up. *)
Definition retriesExhausted (mssqlError : JsError) : JsError :=
  MssqlMcpError
    ("DatabaseService: Failed to connect to database after "
       ++ Js.showZ (maxRetries cfg) ++ " attempts. Last error: " ++ errMessage mssqlError)
    CONNECTION_ERROR
    (errOriginal mssqlError)
    (Some (spread {[ "attempts" := DNum (maxRetries cfg) ]}
                  (default ∅ (errDetails mssqlError)))).

(** The part of [getPool] that waits on an attempt another call has
    started: [Some p] when the call returns [p] from there, [None]
    when it falls through. *)
Definition awaitOngoing : M (option Pool) :=
  w <- get ;;
  match connectionPromise w with
  | Some promise =>
      if isConnecting w then
        tryCatch
          (poolFromPromise <- await promise ;;
           w' <- get ;;
           if poolConnected (pool w') && samePool (pool w') poolFromPromise
           then ret (pool w')
           else ret None)
          (fun _ => setIsConnecting false ;; ret None)
      else ret None
  | None => ret None
  end.

(** The body of [getPool]; [again] stands for the recursive call
    [this.getPool]. *)
Definition getPoolBody (again : nat -> M Pool) (currentAttempt : nat) : M Pool :=
  let notConnected : M Pool :=
    throwError (fromError
      (TString "DatabaseService: Pool not connected after initPool resolved without error.")
      CONNECTION_ERROR None) in
  let establish : M Pool :=
    watched <- awaitOngoing ;;
    match watched with
    | Some p => ret p
    | None =>
        w <- get ;;
        if isConnecting w then
          sleep briefWait ;;
          again currentAttempt
        else
          setIsConnecting true ;;
          tryCatch
            (initPool ;;
             w' <- get ;;
             match pool w' with
             | Some p =>
                 if connected p then
                   setIsConnecting false ;;
                   setConnectionRetries 0 ;;
                   ret p
                 else notConnected
             | None => notConnected
             end)
            (fun error =>
               setIsConnecting false ;;
               let mssqlError := fromError error CONNECTION_ERROR None in
               if Z.of_nat currentAttempt <? maxRetries cfg - 1 then
                 rnd <- readRandom env ;;
                 sleep (retryDelay currentAttempt rnd) ;;
                 again (S currentAttempt)
               else throwError (retriesExhausted mssqlError))
    end in
  w <- get ;;
  match pool w with
  | Some p => if connected p then ret p else establish
  | None => establish
  end.

(** [fuel] bounds the depth of the recursion. *)
Fixpoint getPool (fuel : nat) (currentAttempt : nat) : M Pool :=
  match fuel with
  | O => fun w => (OutOfFuel, w)
  | S fuel' => getPoolBody (getPool fuel') currentAttempt
  end.

(** *** The parts the three operations share *)

Definition allowedList : list string := default [] (allowedDatabases cfg).

(** [reconnectError instanceof Error ? reconnectError : new Error(String(reconnectError))] *)
Definition asError (t : Thrown) : JsError :=
  match t with
  | TError e => e
  | other => PlainError (thrownToString other) None EmptyString
  end.

(** [reconnectError instanceof Error ? reconnectError.message : String(reconnectError)] *)
Definition messageOf (t : Thrown) : string :=
  match t with
  | TError e => errMessage e
  | other => thrownToString other
  end.

(** The self-heal of a [catch] clause: close the pool, then one call of
    [getPool]; when that call throws, [failure] builds the error
    thrown in its place. *)
Definition reestablishPool (fuel : nat) (failure : Thrown -> JsError) : M unit :=
  closePool ;;
  tryCatch (getPool fuel 0 ;; ret tt)
           (fun reconnectError => throwError (failure reconnectError)).

(** The context switch before a statement on another database than
    the configured one. *)
Definition switchDatabase (currentPool : Pool) (inputs : list BoundInput)
    (invalidMessage : string) (dbName : string) : M unit :=
  if negb (String.eqb dbName (database cfg)) then
    if negb (Regex.test Regex.dbNamePattern dbName) then
      throwError (MssqlMcpError (invalidMessage ++ dbName) VALIDATION_ERROR None
                    (Some {[ "database" := DStr dbName ]}))
    else
      request env currentPool (ReqBatch inputs (useStatement dbName)) ;; ret tt
  else ret tt.

(** *** executeQuery *)

Definition queryReconnectFailure (query : string) (rawDatabaseArg : option string)
    (originalErrorMessage : string) (reconnectError : Thrown) : JsError :=
  MssqlMcpError
    ("Operation 'executeQuery' for database '" ++ targetDatabaseOf cfg rawDatabaseArg
       ++ "' failed due to an initial connection error, and the subsequent attempt to re-establish the connection also failed.")
    CONNECTION_ERROR
    (Some (asError reconnectError))
    (Some {[ "database" := DStr (targetDatabaseOf cfg rawDatabaseArg);
             "operation" := DStr "executeQuery";
             "query" := DStr (truncateQuery query);
             "originalErrorMsg" := DStr originalErrorMessage;
             "details" := DStr ("Reconnect attempt failed after initial failure of executeQuery. Original error: "
                                  ++ originalErrorMessage ++ ". Reconnect error: "
                                  ++ messageOf reconnectError) ]}).

(** The [catch] clause of [executeQuery]. *)
Definition executeQueryCatch (fuel : nat) (query : string) (rawDatabaseArg : option string)
    (error : Thrown) : M QueryResult :=
  let truncated : option ErrorDetails := Some {[ "query" := DStr (truncateQuery query) ]} in
  match error with
  | TError (MssqlMcpError _ _ _ _) => throw error
  | TError (PlainError message code _) =>
      let errorMessage := Js.toLowerCase message in
      let rethrowAs (errorType : ErrorType) : M QueryResult :=
        throwError (fromError error errorType truncated) in
      if Js.includes errorMessage "invalid sql syntax" then rethrowAs SQL_PARSER_ERROR
      else if Js.includes errorMessage "permission" then rethrowAs PERMISSION_ERROR
      else if Js.includes errorMessage "constraint" then rethrowAs VALIDATION_ERROR
      else if Js.includes errorMessage "timeout" then rethrowAs CONNECTION_TIMEOUT
      else if Js.includes errorMessage "only select queries are allowed" then rethrowAs VALIDATION_ERROR
      else if Js.includes errorMessage "invalid database name format" then rethrowAs VALIDATION_ERROR
      else if Js.includes errorMessage "query cannot be empty" then rethrowAs VALIDATION_ERROR
      else if Js.includes errorMessage "potentially unsafe query detected" then rethrowAs VALIDATION_ERROR
      else if connectionIndicative errorMessage code then
        reestablishPool fuel (queryReconnectFailure query rawDatabaseArg message) ;;
        rethrowAs CONNECTION_ERROR
      else rethrowAs QUERY_ERROR
  | _ => throwError (fromError error UNKNOWN_ERROR truncated)
  end.

(** The SQL restriction of [executeQuery], between the context switch
    and the call of the driver: [None] when the text may run. *)
Definition validateQuery (query : string) : option JsError :=
  if blank query then
    Some (MssqlMcpError "DatabaseService: Query cannot be empty" VALIDATION_ERROR None
            (Some {[ "query" := DStr query ]}))
  else
    match astify env query with
    | ParseFailed parseError =>
        Some (MssqlMcpError
                ("DatabaseService: Invalid SQL syntax: " ++ messageOf (thrownOf parseError))
                SQL_PARSER_ERROR
                (match thrownOf parseError with TError e => Some e | _ => None end)
                (Some {[ "query" := DStr query ]}))
    | ast =>
        match firstNonSelect (statementsOf ast) with
        | Some q =>
            Some (MssqlMcpError
                    "DatabaseService: Only SELECT queries are allowed. DELETE, INSERT, UPDATE, and other DML/DDL operations are not permitted."
                    VALIDATION_ERROR None
                    (Some {[ "query" := DStr query; "queryType" := DStr (stmtType q) ]}))
        | None =>
            if potentiallyUnsafe query then
              Some (MssqlMcpError
                      "DatabaseService: Potentially unsafe query detected. Stored procedures, system procedures, and waitfor delay are not allowed in direct queries. Use the execute_StoredProcedure tool for stored procedures."
                      VALIDATION_ERROR None
                      (Some {[ "query" := DStr query ]}))
            else None
        end
    end.

(** The [try] block of [executeQuery]. *)
Definition executeQueryTry (currentPool : Pool) (query targetDatabase : string)
  : M QueryResult :=
  switchDatabase currentPool [] invalidDatabaseName targetDatabase ;;
  match validateQuery query with
  | Some rejection => throwError rejection
  | None =>
      result <- request env currentPool (ReqQuery query) ;;
      ret (shapeQueryResult result)
  end.

Definition executeQuery (fuel : nat) (query : string) (rawDatabaseArg : option string)
  : M QueryResult :=
  let targetDatabase := targetDatabaseOf cfg rawDatabaseArg in
  if whitelistRejects cfg targetDatabase then
    throwError (MssqlMcpError
                  ("Access to database '" ++ targetDatabase ++ "' is not allowed. Allowed databases: "
                     ++ Js.join ", " allowedList)
                  PERMISSION_ERROR None
                  (Some {[ "database" := DStr targetDatabase; "allowed" := DStrList allowedList ]}))
  else
    currentPool <- getPool fuel 0 ;;
    tryCatch (executeQueryTry currentPool query targetDatabase)
             (executeQueryCatch fuel query rawDatabaseArg).

(** *** executeStoredProcedure *)

(** The loop over the parameters: each needs a name and a type; the
    input is bound under the name without its leading [@]. *)
Fixpoint bindParameters (parameters : list ProcParameter) : JsError + list BoundInput :=
  match parameters with
  | [] => inr []
  | param :: rest =>
      if negb (Js.truthy (paramName param)) || negb (Js.truthy (paramType param)) then
        inl (MssqlMcpError "DatabaseService: Each parameter must have a name and type"
               VALIDATION_ERROR None
               (Some {[ "parameter" := DParam (paramName param) (paramType param) ]}))
      else
        let name := if Js.startsWith (paramName param) "@" then paramName param
                    else "@" ++ paramName param in
        let sqlTypeFactory := mapStringToSqlType (paramType param) in
        match bindParameters rest with
        | inl e => inl e
        | inr inputs =>
            inr ({| inputName := Js.removeFirst "@" name;
                    inputType := sqlTypeFactory;
                    inputValue := paramValue param |} :: inputs)
        end
  end.

(** The checks of the procedure name: [None] when the name may run. *)
Definition validateProcedure (procedure : string) : option JsError :=
  if blank procedure then
    Some (MssqlMcpError "DatabaseService: Procedure name cannot be empty" VALIDATION_ERROR None
            (Some {[ "procedure" := DStr procedure ]}))
  else if negb (Regex.test Regex.procedurePattern procedure) then
    Some (MssqlMcpError "DatabaseService: Invalid procedure name format. Use [schema].[procedure_name]"
            VALIDATION_ERROR None (Some {[ "procedure" := DStr procedure ]}))
  else None.

Definition procedureReconnectFailure (procedure : string) (rawDatabaseArg : option string)
    (originalErrorMessage : string) (reconnectError : Thrown) : JsError :=
  MssqlMcpError
    ("Operation 'executeStoredProcedure' for database '" ++ targetDatabaseOf cfg rawDatabaseArg
       ++ "' (procedure: " ++ procedure
       ++ ") failed due to an initial connection error, and the subsequent attempt to re-establish the connection also failed.")
    CONNECTION_ERROR
    (Some (asError reconnectError))
    (Some {[ "database" := DStr (targetDatabaseOf cfg rawDatabaseArg);
             "operation" := DStr "executeStoredProcedure";
             "procedure" := DStr procedure;
             "originalErrorMsg" := DStr originalErrorMessage;
             "details" := DStr ("Reconnect attempt failed after initial failure of executeStoredProcedure. Original error: "
                                  ++ originalErrorMessage ++ ". Reconnect error: "
                                  ++ messageOf reconnectError) ]}).

(** The [catch] clause of [executeStoredProcedure]. *)
Definition executeStoredProcedureCatch (fuel : nat) (procedure : string)
    (rawDatabaseArg : option string) (error : Thrown) : M StoredProcedureResult :=
  let extra : option ErrorDetails := Some {[ "procedure" := DStr procedure ]} in
  match error with
  | TError (MssqlMcpError _ _ _ _) => throw error
  | TError (PlainError message code _) =>
      let errorMessage := Js.toLowerCase message in
      let rethrowAs (errorType : ErrorType) : M StoredProcedureResult :=
        throwError (fromError error errorType extra) in
      if Js.includes errorMessage "syntax error" then rethrowAs SQL_PARSER_ERROR
      else if Js.includes errorMessage "permission" then rethrowAs PERMISSION_ERROR
      else if Js.includes errorMessage "constraint" then rethrowAs VALIDATION_ERROR
      else if Js.includes errorMessage "timeout" then rethrowAs CONNECTION_TIMEOUT
      else if Js.includes errorMessage "invalid database name format" then rethrowAs VALIDATION_ERROR
      else if Js.includes errorMessage "procedure name cannot be empty" then rethrowAs VALIDATION_ERROR
      else if Js.includes errorMessage "invalid procedure name format" then rethrowAs VALIDATION_ERROR
      else if Js.includes errorMessage "each parameter must have a name and type" then rethrowAs VALIDATION_ERROR
      else if connectionIndicative errorMessage code then
        reestablishPool fuel (procedureReconnectFailure procedure rawDatabaseArg message) ;;
        rethrowAs CONNECTION_ERROR
      else rethrowAs STORED_PROCEDURE_ERROR
  | _ => throwError (fromError error UNKNOWN_ERROR extra)
  end.

(** [.input('db_name_param', sql.NVarChar, dbName)] on the request of
    the context switch. *)
Definition dbNameParam (dbName : string) : list BoundInput :=
  [ {| inputName := "db_name_param"; inputType := NVarChar; inputValue := Some (VStr dbName) |} ].

(** The [try] block of [executeStoredProcedure]. *)
Definition executeStoredProcedureTry (currentPool : Pool) (procedure : string)
    (parameters : list ProcParameter) (targetDatabase : string)
  : M StoredProcedureResult :=
  switchDatabase currentPool (dbNameParam targetDatabase) invalidDatabaseName targetDatabase ;;
  match validateProcedure procedure with
  | Some rejection => throwError rejection
  | None =>
      match bindParameters parameters with
      | inl rejection => throwError rejection
      | inr inputs =>
          result <- request env currentPool (ReqExecute inputs procedure) ;;
          ret (shapeProcedureResult result)
      end
  end.

Definition executeStoredProcedure (fuel : nat) (procedure : string)
    (parameters : list ProcParameter) (rawDatabaseArg : option string)
  : M StoredProcedureResult :=
  let targetDatabase := targetDatabaseOf cfg rawDatabaseArg in
  if whitelistRejects cfg targetDatabase then
    throwError (MssqlMcpError
                  ("Access to database '" ++ targetDatabase
                     ++ "' is not allowed for stored procedure execution. Allowed databases: "
                     ++ Js.join ", " allowedList)
                  PERMISSION_ERROR None
                  (Some {[ "database" := DStr targetDatabase; "allowed" := DStrList allowedList;
                           "procedure" := DStr procedure ]}))
  else
    currentPool <- getPool fuel 0 ;;
    tryCatch (executeStoredProcedureTry currentPool procedure parameters targetDatabase)
             (executeStoredProcedureCatch fuel procedure rawDatabaseArg).

(** *** getSchema *)

Definition schemaReconnectFailure (dbIdentifier : string)
    (originalErrorMessage : string) (reconnectError : Thrown) : JsError :=
  MssqlMcpError
    ("Operation 'getSchema' for database '" ++ dbIdentifier
       ++ "' failed due to an initial connection error, and the subsequent attempt to re-establish the connection also failed.")
    CONNECTION_ERROR
    (Some (asError reconnectError))
    (Some {[ "database" := DStr dbIdentifier;
             "operation" := DStr "getSchema";
             "originalErrorMsg" := DStr originalErrorMessage;
             "details" := DStr ("Reconnect attempt failed after initial failure of getSchema. Original error: "
                                  ++ originalErrorMessage ++ ". Reconnect error: "
                                  ++ messageOf reconnectError) ]}).

(** The [catch] clause of [getSchema]. *)
Definition getSchemaCatch (fuel : nat) (dbIdentifier : string) (error : Thrown)
  : M (list TableSchema) :=
  let extra : option ErrorDetails := Some {[ "database" := DStr dbIdentifier ]} in
  match error with
  | TError (MssqlMcpError _ _ _ _) => throw error
  | TError (PlainError message code _) =>
      let errorMessage := Js.toLowerCase message in
      let rethrowAs (errorType : ErrorType) : M (list TableSchema) :=
        throwError (fromError error errorType extra) in
      if Js.includes errorMessage "invalid database name format" then rethrowAs VALIDATION_ERROR
      else if connectionIndicative errorMessage code then
        reestablishPool fuel (schemaReconnectFailure dbIdentifier message) ;;
        rethrowAs CONNECTION_ERROR
      else rethrowAs SCHEMA_ERROR
  | _ => throwError (fromError error UNKNOWN_ERROR extra)
  end.

(** The metadata query of [getSchema] on the pool. *)
Definition metadataQuery (p : Pool) : M (list SchemaQueryRow) :=
  w <- get ;;
  emit (EvMetadataQuery (poolId p)) ;;
  match metadataOutcome env (length (trace w)) with
  | MetadataRows recordset => ret recordset
  | MetadataFailed e => throw (thrownOf e)
  end.

(** The [try] block of [getSchema]. *)
Definition getSchemaTry (currentPool : Pool) (dbIdentifier : string) : M (list TableSchema) :=
  switchDatabase currentPool [] invalidSchemaDatabaseName dbIdentifier ;;
  recordset <- metadataQuery currentPool ;;
  let tables := assembleTables recordset in
  now <- dateNow env ;;
  w <- get ;;
  setSchemaCache (<[ dbIdentifier := {| timestamp := now; data := tables |} ]> (schemaCache w)) ;;
  ret tables.

(** [getSchema] past the cache: fetch, store, return. *)
Definition fetchSchema (fuel : nat) (dbIdentifier : string) : M (list TableSchema) :=
  currentPool <- getPool fuel 0 ;;
  tryCatch (getSchemaTry currentPool dbIdentifier) (getSchemaCatch fuel dbIdentifier).

Definition getSchema (fuel : nat) (dbIdentifier : string) : M (list TableSchema) :=
  if whitelistRejects cfg dbIdentifier then
    throwError (MssqlMcpError
                  ("Access to schema for database '" ++ dbIdentifier
                     ++ "' is not allowed. Allowed databases: " ++ Js.join ", " allowedList)
                  PERMISSION_ERROR None
                  (Some {[ "database" := DStr dbIdentifier; "allowed" := DStrList allowedList ]}))
  else
    w <- get ;;
    match schemaCache w !! dbIdentifier with
    | Some cachedSchema =>
        now <- dateNow env ;;
        if now - timestamp cachedSchema <? schemaCacheTTL cfg
        then ret (data cachedSchema)
        else fetchSchema fuel dbIdentifier
    | None => fetchSchema fuel dbIdentifier
    end.

End Service.

(** ** Concurrent calls of the pool manager

    Calls of [getPool] and of [closePool] made by several requests run
    interleaved: a call runs alone from one [await] to the next, and
    any other call, or the driver, may run in between.  The model below
    has the fields the pool manager shares, the connection attempts of
    [initPool] (each with its pool instance, its abort signal and its
    promise) and the calls with the [await] they are suspended at.  A
    schedule is a list of labels; [step] runs one of them. *)

Module SingleFlight.

(** Where the attempt started by [initPool] is suspended, or how its
    promise is settled. *)
Inductive Phase : Type :=
| Racing                            (* await Promise.race([connect, timeout]) *)
| CatchClosing                      (* catch: await poolInstance.close() *)
| InClosePool                       (* catch: in closePool, await this.pool.close() *)
| AfterClosePool                    (* catch: closePool has returned *)
| FinallyAwaiting (other : nat)     (* finally: await this.connectionPromise.catch(..) *)
| Resolved                          (* the promise is resolved with the attempt's pool *)
| Rejected.

(** An attempt: its phase, whether its signal is aborted, the
    [connected] property of its pool instance, and whether [close] was
    called on that instance. *)
Record Attempt : Type := {
  phase : Phase;
  aborted : bool;
  connected : bool;
  closed : bool;
}.

(** What a caller's [await this.initPool()] waits for. *)
Inductive InitResult : Type :=
| InitPromise (attempt : nat)       (* the promise of an attempt *)
| InitValue                         (* the probed pool, returned at once *)
| InitThrown.                       (* the password is missing *)

(** A call and the point it is suspended at. *)
Inductive Task : Type :=
| Entering (currentAttempt : nat)                 (* getPool(currentAttempt) is called *)
| AwaitShared (currentAttempt : nat) (promise : nat)   (* await this.connectionPromise *)
| BriefWait (currentAttempt : nat)                (* the short timer, then getPool again *)
| Probing (currentAttempt : nat)                  (* initPool: await the probe query *)
| ProbeClosePool (currentAttempt : nat)           (* initPool: in closePool, await close *)
| ProbeAfterClosePool (currentAttempt : nat)      (* initPool: closePool has returned *)
| AwaitInitPool (currentAttempt : nat) (result : InitResult)   (* await this.initPool() *)
| BackingOff (currentAttempt : nat)               (* the back-off timer, then getPool again *)
| CloseEntering                                   (* closePool() is called *)
| CloseAwaiting                                   (* closePool: await this.pool.close() *)
| Finished (ok : bool).

Record Config : Type := {
  pool : option nat;                (* the attempt whose instance [this.pool] is *)
  connectionPromise : option nat;   (* the attempt whose promise the field holds *)
  isConnecting : bool;
  abortController : option nat;     (* the attempt whose controller the field holds *)
  attempts : list Attempt;
  tasks : list Task;
  connectCalls : nat;               (* calls of [connect] so far *)
}.

Definition initial : Config :=
  {| pool := None; connectionPromise := None; isConnecting := false;
     abortController := None; attempts := []; tasks := []; connectCalls := 0 |}.

Definition setPool (p : option nat) (c : Config) : Config :=
  {| pool := p; connectionPromise := connectionPromise c; isConnecting := isConnecting c;
     abortController := abortController c; attempts := attempts c; tasks := tasks c;
     connectCalls := connectCalls c |}.

Definition setConnectionPromise (p : option nat) (c : Config) : Config :=
  {| pool := pool c; connectionPromise := p; isConnecting := isConnecting c;
     abortController := abortController c; attempts := attempts c; tasks := tasks c;
     connectCalls := connectCalls c |}.

Definition setIsConnecting (b : bool) (c : Config) : Config :=
  {| pool := pool c; connectionPromise := connectionPromise c; isConnecting := b;
     abortController := abortController c; attempts := attempts c; tasks := tasks c;
     connectCalls := connectCalls c |}.

Definition setAbortController (a : option nat) (c : Config) : Config :=
  {| pool := pool c; connectionPromise := connectionPromise c; isConnecting := isConnecting c;
     abortController := a; attempts := attempts c; tasks := tasks c;
     connectCalls := connectCalls c |}.

Definition setAttempts (l : list Attempt) (c : Config) : Config :=
  {| pool := pool c; connectionPromise := connectionPromise c; isConnecting := isConnecting c;
     abortController := abortController c; attempts := l; tasks := tasks c;
     connectCalls := connectCalls c |}.

Definition setTasks (l : list Task) (c : Config) : Config :=
  {| pool := pool c; connectionPromise := connectionPromise c; isConnecting := isConnecting c;
     abortController := abortController c; attempts := attempts c; tasks := l;
     connectCalls := connectCalls c |}.

Definition countConnect (c : Config) : Config :=
  {| pool := pool c; connectionPromise := connectionPromise c; isConnecting := isConnecting c;
     abortController := abortController c; attempts := attempts c; tasks := tasks c;
     connectCalls := S (connectCalls c) |}.

Definition setPhase (x : nat) (ph : Phase) (c : Config) : Config :=
  setAttempts (alter (fun a => {| phase := ph; aborted := aborted a; connected := connected a;
                                  closed := closed a |})
                     x (attempts c)) c.

Definition setConnected (x : nat) (b : bool) (c : Config) : Config :=
  setAttempts (alter (fun a => {| phase := phase a; aborted := aborted a; connected := b;
                                  closed := closed a |})
                     x (attempts c)) c.

(** [controller.abort()] on the controller of attempt [x]. *)
Definition abort (x : nat) (c : Config) : Config :=
  setAttempts (alter (fun a => {| phase := phase a; aborted := true; connected := connected a;
                                  closed := closed a |})
                     x (attempts c)) c.

(** [close()] on the pool instance of attempt [x]. *)
Definition close (x : nat) (c : Config) : Config :=
  setAttempts (alter (fun a => {| phase := phase a; aborted := aborted a;
                                  connected := connected a; closed := true |})
                     x (attempts c)) c.

Definition isAborted (c : Config) (x : nat) : bool :=
  match attempts c !! x with Some a => aborted a | None => false end.

Definition phaseOf (c : Config) (x : nat) : option Phase :=
  phase <$> attempts c !! x.

(** [this.abortController && !this.abortController.signal.aborted] *)
Definition liveController (c : Config) : bool :=
  match abortController c with Some x => negb (isAborted c x) | None => false end.

(** [this.pool && this.pool.connected] *)
Definition poolConnected (c : Config) : bool :=
  match pool c with
  | Some x => match attempts c !! x with Some a => connected a | None => false end
  | None => false
  end.

(** [closePool] up to its [await]: the controller is aborted and
    forgotten, and [close] is called on the pool held, if any; the
    boolean tells whether the call now awaits [this.pool.close()]. *)
Definition closePoolBegin (c : Config) : Config * bool :=
  let c1 := match abortController c with
            | Some x => setAbortController None (abort x c)
            | None => c
            end in
  match pool c1 with
  | Some y => (close y c1, true)
  | None => (c1, false)
  end.

(** [closePool] after its [await]: the [finally] clause. *)
Definition closePoolEnd (c : Config) : Config :=
  setConnectionPromise None (setPool None c).

Section Calls.

Variable maxRetries : nat.
Variable havePassword : bool.

(** [initPool] from the new controller on: a previous controller that
    is not aborted is aborted, the attempt is created, [connect] is
    called and the attempt's promise is stored. *)
Definition createAttempt (c : Config) : nat * Config :=
  let c1 := match abortController c with
            | Some y => if negb (isAborted c y) then abort y c else c
            | None => c
            end in
  let x := length (attempts c1) in
  (x, countConnect
        (setConnectionPromise (Some x)
           (setAttempts (attempts c1 ++ [ {| phase := Racing; aborted := false;
                                             connected := false; closed := false |} ])
              (setAbortController (Some x) c1)))).

(** [initPool] from the password test on. *)
Definition initPoolCreate (a : nat) (c : Config) : Task * Config :=
  if havePassword then
    let (x, c') := createAttempt c in (AwaitInitPool a (InitPromise x), c')
  else (AwaitInitPool a InitThrown, c).

(** [initPool] up to its first [await]. *)
Definition initPoolBegin (a : nat) (c : Config) : Task * Config :=
  let fresh := if poolConnected c then (Probing a, c) else initPoolCreate a c in
  match connectionPromise c with
  | Some y => if liveController c then (AwaitInitPool a (InitPromise y), c) else fresh
  | None => fresh
  end.

(** [getPool] from [if (this.isConnecting)] on. *)
Definition claim (a : nat) (c : Config) : Task * Config :=
  if isConnecting c then (BriefWait a, c)
  else initPoolBegin a (setIsConnecting true c).

(** [getPool] up to its first [await]. *)
Definition enter (a : nat) (c : Config) : Task * Config :=
  if poolConnected c then (Finished true, c)
  else match connectionPromise c with
       | Some y => if isConnecting c then (AwaitShared a y, c) else claim a c
       | None => claim a c
       end.

(** The [catch] clause of [getPool]. *)
Definition ownerCatch (a : nat) (c : Config) : Task * Config :=
  if (S a <? maxRetries)%nat then (BackingOff a, setIsConnecting false c)
  else (Finished false, setIsConnecting false c).

(** [getPool] after [await this.initPool()] resolved. *)
Definition ownerSuccess (a : nat) (c : Config) : Task * Config :=
  if poolConnected c then (Finished true, setIsConnecting false c)
  else ownerCatch a c.

(** One more run of call [t], from the [await] it is suspended at to
    the next; [None] when what it awaits is not settled.  [probeOk] is
    the outcome of the probe query, for a call that awaits it. *)
Definition runTask (t : Task) (probeOk : bool) (c : Config) : option (Task * Config) :=
  match t with
  | Entering a => Some (enter a c)
  | AwaitShared a y =>
      match phaseOf c y with
      | Some Resolved =>
          if poolConnected c && bool_decide (pool c = Some y) then Some (Finished true, c)
          else Some (claim a c)
      | Some Rejected => Some (claim a (setIsConnecting false c))
      | _ => None
      end
  | BriefWait a => Some (enter a c)
  | Probing a =>
      if probeOk then Some (AwaitInitPool a InitValue, c)
      else let (c1, awaits) := closePoolBegin c in
           Some (if awaits then ProbeClosePool a else ProbeAfterClosePool a, c1)
  | ProbeClosePool a => Some (ProbeAfterClosePool a, closePoolEnd c)
  | ProbeAfterClosePool a => Some (initPoolCreate a c)
  | AwaitInitPool a (InitPromise y) =>
      match phaseOf c y with
      | Some Resolved => Some (ownerSuccess a c)
      | Some Rejected => Some (ownerCatch a c)
      | _ => None
      end
  | AwaitInitPool a InitValue => Some (ownerSuccess a c)
  | AwaitInitPool a InitThrown => Some (ownerCatch a c)
  | BackingOff a => Some (enter (S a) c)
  | CloseEntering =>
      let (c1, awaits) := closePoolBegin c in
      Some (if awaits then CloseAwaiting else Finished true, c1)
  | CloseAwaiting => Some (Finished true, closePoolEnd c)
  | Finished _ => None
  end.

(** The end of the attempt's [catch] clause and its [finally] clause. *)
Definition attemptRethrow (x : nat) (c : Config) : Config :=
  let c1 := if bool_decide (abortController c = Some x)
            then setAbortController None (abort x c) else c in
  match connectionPromise c1 with
  | Some y =>
      if bool_decide (pool c1 = Some x) then setPhase x Rejected c1
      else setPhase x (FinallyAwaiting y) c1
  | None => setPhase x Rejected c1
  end.

(** One more run of attempt [x]; [ok] is the outcome of [connect], for
    an attempt that awaits it.  An abort rejects the race, and a
    [connect] that succeeds under an aborted signal closes the pool it
    got and throws: either way the attempt goes on in its [catch]
    clauses, which call [close] on its pool instance, as after a failed
    [connect]. *)
Definition runAttempt (x : nat) (ok : bool) (c : Config) : option Config :=
  match attempts c !! x with
  | None => None
  | Some att =>
      match phase att with
      | Racing =>
          if ok && negb (aborted att)
          then Some (setPhase x Resolved (setConnected x true (setPool (Some x) c)))
          else Some (setPhase x CatchClosing (close x c))
      | CatchClosing =>
          if bool_decide (is_Some (pool c))
          then Some (setPhase x InClosePool (fst (closePoolBegin c)))
          else Some (attemptRethrow x (setConnectionPromise None c))
      | InClosePool => Some (setPhase x AfterClosePool (closePoolEnd c))
      | AfterClosePool => Some (attemptRethrow x c)
      | FinallyAwaiting y =>
          match phaseOf c y with
          | Some Resolved =>
              Some (setPhase x Rejected
                      (if bool_decide (pool c = Some y) then c
                       else setConnectionPromise None c))
          | Some Rejected =>
              Some (setPhase x Rejected
                      (if bool_decide (pool c = None) then c
                       else setConnectionPromise None c))
          | _ => None
          end
      | Resolved | Rejected => None
      end
  end.

Inductive Label : Type :=
| CallGetPool                       (* a request calls getPool() *)
| CallClosePool                     (* a catch clause, a handler or shutdown calls closePool() *)
| RunTask (i : nat) (probeOk : bool)
| RunAttempt (x : nat) (ok : bool)
| Drop (x : nat).                   (* the instance of [x] loses its connection *)

Definition step (l : Label) (c : Config) : option Config :=
  match l with
  | CallGetPool => Some (setTasks (tasks c ++ [Entering 0]) c)
  | CallClosePool => Some (setTasks (tasks c ++ [CloseEntering]) c)
  | RunTask i probeOk =>
      t ← tasks c !! i;
      '(t', c') ← runTask t probeOk c;
      Some (setTasks (<[ i := t' ]> (tasks c')) c')
  | RunAttempt x ok => runAttempt x ok c
  | Drop x => Some (setConnected x false c)
  end.

Fixpoint run (labels : list Label) (c : Config) : option Config :=
  match labels with
  | [] => Some c
  | l :: rest => c' ← step l c; run rest c'
  end.

End Calls.

End SingleFlight.

(** ** A concrete deployment, for examples

    A configuration with a whitelist, a stand-in for the SQL parser that
    looks at the first keyword only, a server that accepts connections
    and answers every statement with an empty row set of two columns,
    and a service whose pool is connected. *)

Definition demoConfig : SqlConfig :=
  {| server := "localhost"; port := 1433; user := "sa"; password := Some "secret";
     database := "master"; requestTimeout := Some 15000; connectionTimeout := Some 15000;
     maxRetries := 3; initialRetryDelay := 1000; maxRetryDelay := 10000;
     schemaCacheTTL := 300000; allowedDatabases := Some ["master"; "Db1"; "Db2"] |}.

Definition demoAstify (query : string) : ParseOutcome :=
  let q := Js.toLowerCase (Js.trim query) in
  if Js.startsWith q "select" || Js.startsWith q "with" then ParsedOne {| stmtType := "select" |}
  else if Js.startsWith q "drop" then ParsedOne {| stmtType := "drop" |}
  else if Js.startsWith q "insert" then ParsedOne {| stmtType := "insert" |}
  else ParseFailed (RaisedError "Expected a statement" None "SyntaxError").

Definition demoResult : DriverResult :=
  {| recordset := Some {| rows := [];
                          columns := Some [ {| colIndex := 1; colName := "Name" |};
                                            {| colIndex := 0; colName := "Id" |} ] |};
     output := []; returnValue := VNum 0; rowsAffected := [0] |}.

Definition demoSchemaRows : list SchemaQueryRow :=
  [ {| TABLE_SCHEMA := "dbo"; TABLE_NAME := "Users"; COLUMN_NAME := "Id"; DATA_TYPE := "int";
       CHARACTER_MAXIMUM_LENGTH := None; NUMERIC_PRECISION := Some 10; NUMERIC_SCALE := Some 0;
       IS_NULLABLE := "NO"; IS_PRIMARY_KEY := 1; ORDINAL_POSITION := 1 |};
    {| TABLE_SCHEMA := "dbo"; TABLE_NAME := "Users"; COLUMN_NAME := "Name"; DATA_TYPE := "nvarchar";
       CHARACTER_MAXIMUM_LENGTH := Some 50; NUMERIC_PRECISION := None; NUMERIC_SCALE := None;
       IS_NULLABLE := "YES"; IS_PRIMARY_KEY := 0; ORDINAL_POSITION := 2 |} ].

Definition demoEnv : Env :=
  {| sqlConfig := demoConfig;
     astify := demoAstify;
     connectOutcome := fun _ => Connected true;
     requestOutcome := fun _ _ => Done demoResult;
     metadataOutcome := fun _ => MetadataRows demoSchemaRows;
     random := fun _ => 1 # 2;
     clock := fun n => 1000 * Z.of_nat n |}.

Definition demoPool : Pool := {| poolId := 0; connected := true |}.

(** A service on its first call: no pool, nothing in flight. *)
Definition freshWorld : World :=
  {| pool := None; connectionPromise := None; isConnecting := false;
     abortController := None; schemaCache := ∅; connectionRetries := 0;
     trace := []; nextId := 0; randomReads := 0; clockReads := 0 |}.

(** A service whose pool is connected. *)
Definition liveWorld : World :=
  {| pool := Some demoPool; connectionPromise := Some (Resolved demoPool);
     isConnecting := false; abortController := Some {| signal := 1; aborted := false |};
     schemaCache := ∅; connectionRetries := 0;
     trace := [EvConnect 0]; nextId := 2; randomReads := 0; clockReads := 0 |}.

(** The same deployment when the server drops the connection: every
    statement fails with a socket error; [flakyEnv] accepts new
    connections, [downEnv] refuses them. *)
Definition socketError : Raised :=
  RaisedError "Connection lost - socket hang up" (Some "ESOCKET") "ConnectionError: at Socket".

Definition flakyEnv : Env :=
  {| sqlConfig := demoConfig;
     astify := demoAstify;
     connectOutcome := fun _ => Connected true;
     requestOutcome := fun _ _ => Failed socketError;
     metadataOutcome := fun _ => MetadataFailed socketError;
     random := fun _ => 1 # 2;
     clock := fun n => 1000 * Z.of_nat n |}.

Definition downEnv : Env :=
  {| sqlConfig := demoConfig;
     astify := demoAstify;
     connectOutcome := fun _ => ConnectFailed (RaisedError "getaddrinfo ENOTFOUND" None "at connect");
     requestOutcome := fun _ _ => Failed socketError;
     metadataOutcome := fun _ => MetadataFailed socketError;
     random := fun _ => 1 # 2;
     clock := fun n => 1000 * Z.of_nat n |}.



(** A server that is down, with a short initial delay: the jitter of
    the first wait is 900 ms, that of the second 0 ms. *)
Definition jitterConfig : SqlConfig :=
  {| server := "localhost"; port := 1433; user := "sa"; password := Some "secret";
     database := "master"; requestTimeout := Some 15000; connectionTimeout := Some 15000;
     maxRetries := 3; initialRetryDelay := 100; maxRetryDelay := 1000;
     schemaCacheTTL := 300000; allowedDatabases := Some [] |}.

Definition jitterEnv : Env :=
  {| sqlConfig := jitterConfig;
     astify := demoAstify;
     connectOutcome := fun _ => ConnectFailed (RaisedError "getaddrinfo ENOTFOUND" None "at connect");
     requestOutcome := fun _ _ => Failed socketError;
     metadataOutcome := fun _ => MetadataFailed socketError;
     random := fun k => match k with O => 9 # 10 | _ => 0 # 1 end;
     clock := fun n => 1000 * Z.of_nat n |}.

(** * Properties *)

(** ** Strings and patterns *)

Lemma trimEnd_keeps_solid (c : ascii) (r : string) :
  Js.isWhiteSpace c = false -> Js.trimEnd (String c r) <> EmptyString.
Proof.
  intros Hc. cbn [Js.trimEnd]. rewrite Hc.
  destruct (Js.trimEnd r); discriminate.
Qed.

Lemma trim_solid_head (c : ascii) (r : string) :
  Js.isWhiteSpace c = false -> Js.trim (String c r) <> EmptyString.
Proof.
  intros Hc. unfold Js.trim. cbn [Js.trimStart]. rewrite Hc.
  now apply trimEnd_keeps_solid.
Qed.

Lemma truthy_nonempty (s : string) : Js.truthy s = true <-> s <> EmptyString.
Proof. destruct s; cbn; split; congruence. Qed.

Module RegexFacts.
Import Regex.

Lemma dead_not_nullable r : dead r = true -> nullable r = false.
Proof.
  induction r; cbn; try congruence.
  - intros [H|H]%orb_true_iff; [rewrite (IHr1 H)|rewrite (IHr2 H)];
      auto using andb_false_r.
  - intros [H1 H2]%andb_true_iff. now rewrite IHr1, IHr2.
Qed.

Lemma dead_deriv c r : dead r = true -> dead (deriv c r) = true.
Proof.
  induction r; cbn; try congruence.
  - intros [H|H]%orb_true_iff.
    + rewrite (dead_not_nullable _ H). cbn. now rewrite IHr1.
    + destruct (nullable r1); cbn; rewrite ?H, ?IHr2, ?orb_true_r; auto.
  - intros [H1 H2]%andb_true_iff. now rewrite IHr1, IHr2.
Qed.

Lemma dead_test r s : dead r = true -> test r s = false.
Proof.
  revert r. induction s as [|c s IH]; intros r H; cbn.
  - now apply dead_not_nullable.
  - apply IH. now apply dead_deriv.
Qed.

Lemma unmentioned_deriv_dead c r : mentions r c = false -> dead (deriv c r) = true.
Proof.
  induction r; cbn; try congruence; auto.
  - intros ->. reflexivity.
  - intros [H1 H2]%orb_false_iff.
    destruct (nullable r1); cbn; rewrite ?IHr1, ?IHr2; auto.
  - intros [H1 H2]%orb_false_iff. now rewrite IHr1, IHr2.
  - intros H. now rewrite IHr.
Qed.

Lemma mentions_deriv c d r : mentions (deriv d r) c = true -> mentions r c = true.
Proof.
  induction r; cbn; try congruence.
  - destruct (p d); cbn; congruence.
  - destruct (nullable r1); cbn; rewrite ?orb_true_iff; intuition.
  - rewrite !orb_true_iff; intuition.
  - rewrite !orb_true_iff; intuition.
Qed.

(** A string that matches is made of characters the pattern mentions. *)
Lemma test_allChars r s : test r s = true -> allChars (mentions r) s = true.
Proof.
  revert r. induction s as [|c s IH]; intros r H; cbn in *; [reflexivity|].
  apply andb_true_iff; split.
  - destruct (mentions r c) eqn:E; [reflexivity|].
    rewrite (dead_test _ s (unmentioned_deriv_dead _ _ E)) in H. discriminate.
  - specialize (IH _ H). clear H. induction s as [|d s IHs]; cbn in *; [reflexivity|].
    apply andb_true_iff in IH as [H1 H2].
    rewrite (mentions_deriv _ _ _ H1). cbn. now apply IHs.
Qed.

Lemma procedure_char_solid c :
  mentions procedurePattern c = true -> Js.isWhiteSpace c = false.
Proof.
  destruct c as [[] [] [] [] [] [] [] []]; vm_compute; congruence.
Qed.

(** A name that matches the procedure pattern is not blank. *)
Lemma procedurePattern_not_blank s :
  test procedurePattern s = true -> blank s = false.
Proof.
  intros H. pose proof (test_allChars _ _ H) as Hall.
  destruct s as [|c r]; [discriminate H|].
  cbn in Hall. apply andb_true_iff in Hall as [Hc _].
  apply procedure_char_solid in Hc.
  unfold blank. cbn [Js.truthy negb orb].
  destruct (String.eqb_spec (Js.trim (String c r)) EmptyString) as [E|E]; [|reflexivity].
  now apply trim_solid_head in E.
Qed.

End RegexFacts.

(** ** The whitelist of config.js *)

(** The text is made of commas only (the empty text included). *)
Definition onlyCommas (s : string) : bool := Regex.allChars (Ascii.eqb ",") s.

Lemma split_nonempty sep s : Js.split sep s <> [].
Proof.
  induction s as [|c r IH]; cbn; [discriminate|].
  destruct (Ascii.eqb c sep); [discriminate|].
  destruct (Js.split sep r); discriminate.
Qed.

Lemma filter_split_nil s :
  List.filter Js.truthy (Js.split "," s) = [] <-> onlyCommas s = true.
Proof.
  unfold onlyCommas.
  induction s as [|c r IH]; [cbn; tauto|].
  cbn [Js.split Regex.allChars].
  rewrite (Ascii.eqb_sym "," c).
  destruct (Ascii.eqb c ","); cbn [filter Js.truthy andb].
  - exact IH.
  - pose proof (split_nonempty "," r) as Hne.
    destruct (Js.split "," r); [congruence|]. cbn [filter Js.truthy]. split; discriminate.
Qed.

Lemma orElse_empty s : Js.orElse s EmptyString = s.
Proof. now destruct s. Qed.

(** C8, as the code has it: whatever the value of SQL_ALLOWED_DATABASES,
    no entry of the resolved whitelist is the empty string, and the
    whitelist is the empty list exactly when the variable is unset or
    its text contains nothing but commas (the empty text included). *)
Theorem allowedDatabases_nonempty_entries (env : option string) :
  (forall entry, In entry (Config.allowedDatabases env) -> entry <> EmptyString)
  /\ (Config.allowedDatabases env = []
      <-> env = None \/ exists s, env = Some s /\ onlyCommas s = true).
Proof.
  unfold Config.allowedDatabases. rewrite orElse_empty. split.
  - intros entry [_ H]%filter_In. now apply truthy_nonempty.
  - rewrite filter_split_nil. destruct env as [s|]; cbn.
    + split; [intros H; right; eauto|].
      intros [H|(s' & [= <-] & H)]; [discriminate | exact H].
    + split; auto.
Qed.

(** C8 as stated fails twice: an entry keeps the blank that follows a
    comma, so it is not trimmed; and a text of commas, which is neither
    unset nor empty, resolves to the empty whitelist. *)
Lemma allowedDatabases_not_trimmed_counterexample :
  ~ (forall entry, In entry (Config.allowedDatabases (Some "Db1, Db2")) ->
                   Js.trim entry = entry /\ entry <> EmptyString)
  /\ ~ (Config.allowedDatabases (Some ",") = []
        <-> Some "," = (None : option string) \/ Some "," = Some EmptyString).
Proof.
  split.
  - intros H. destruct (H " Db2") as [Ht _]; [vm_compute; auto | vm_compute in Ht; discriminate].
  - intros [H _]. destruct H as [H|H]; [reflexivity | discriminate | discriminate].
Qed.

(** ** The type-name table *)

Lemma trim_lower_string_alias typeName alias :
  Js.toLowerCase typeName = alias -> Js.trim alias = alias ->
  normalizedTypeName typeName = alias.
Proof. unfold normalizedTypeName. now intros -> ->. Qed.

(** C9: a type name whose lower-cased, trimmed form is no key of the
    table maps to NVarChar, a value and not an error, so binding the
    parameters of a call never fails on a type name; and the aliases
    'string', 'number' and 'boolean' map to NVarChar, Int and Bit in
    whatever case they are written. *)
Theorem mapStringToSqlType_default_and_aliases :
  (forall typeName,
      sqlDataTypeMap !! normalizedTypeName typeName = None ->
      mapStringToSqlType typeName = NVarChar)
  /\ (forall parameters,
        Forall (fun p => Js.truthy (paramName p) = true /\ Js.truthy (paramType p) = true)
               parameters ->
        exists inputs,
          bindParameters parameters = inr inputs
          /\ map inputType inputs = map (fun p => mapStringToSqlType (paramType p)) parameters)
  /\ (forall typeName, Js.toLowerCase typeName = "string" ->
                       mapStringToSqlType typeName = NVarChar)
  /\ (forall typeName, Js.toLowerCase typeName = "number" ->
                       mapStringToSqlType typeName = Int)
  /\ (forall typeName, Js.toLowerCase typeName = "boolean" ->
                       mapStringToSqlType typeName = Bit).
Proof.
  repeat split.
  - intros typeName H. unfold mapStringToSqlType. now rewrite H.
  - induction 1 as [|p ps [Hn Ht] _ (inputs & IH & IHt)]; cbn.
    + now exists [].
    + rewrite Hn, Ht. cbn. rewrite IH. eexists. split; [reflexivity|].
      cbn. now rewrite IHt.
  - intros typeName H. unfold mapStringToSqlType.
    now rewrite (trim_lower_string_alias _ _ H eq_refl).
  - intros typeName H. unfold mapStringToSqlType.
    now rewrite (trim_lower_string_alias _ _ H eq_refl).
  - intros typeName H. unfold mapStringToSqlType.
    now rewrite (trim_lower_string_alias _ _ H eq_refl).
Qed.

Lemma mapStringToSqlType_default_and_aliases_witness :
  mapStringToSqlType "geo-point" = NVarChar
  /\ (exists inputs,
        bindParameters [ {| paramName := "@Id"; paramType := "mystery"; paramValue := None |} ]
        = inr inputs
        /\ map inputType inputs = [mapStringToSqlType "mystery"])
  /\ mapStringToSqlType "StRiNg" = NVarChar
  /\ mapStringToSqlType "NUMBER" = Int
  /\ mapStringToSqlType "Boolean" = Bit.
Proof.
  destruct mapStringToSqlType_default_and_aliases as (H1 & H2 & H3 & H4 & H5).
  split; [apply H1; vm_compute; reflexivity|].
  split; [apply (H2 [ {| paramName := "@Id"; paramType := "mystery"; paramValue := None |} ]);
          repeat constructor|].
  split; [apply H3; reflexivity|].
  split; [apply H4; reflexivity | apply H5; reflexivity].
Defined.

(** ** What a call emits and what it throws

    [sat E T m]: whatever the world, the calls [m] makes leave the
    process as events that all satisfy [E], appended to the history, and
    a value [m] throws satisfies [T]. *)

Definition appended (w w' : World) (evs : list Event) : Prop :=
  trace w' = (trace w ++ evs)%list.

Definition sat {A} (E : Event -> Prop) (T : Thrown -> Prop) (m : M A) : Prop :=
  forall w o w', m w = (o, w') ->
    (exists evs, appended w w' evs /\ Forall E evs) /\ (forall t, o = Threw t -> T t).

Section SatRules.

Context {A B : Type} (E : Event -> Prop) (T : Thrown -> Prop).

Lemma appended_refl w : appended w w [].
Proof. unfold appended. now rewrite app_nil_r. Qed.

Lemma appended_trans w1 w2 w3 e1 e2 :
  appended w1 w2 e1 -> appended w2 w3 e2 -> appended w1 w3 (e1 ++ e2).
Proof. unfold appended. intros H1 H2. now rewrite H2, H1, app_assoc. Qed.

Lemma sat_ret (a : A) : sat E T (ret a).
Proof.
  intros w o w' [= <- <-]. split; [|discriminate].
  exists []. split; [apply appended_refl | constructor].
Qed.

Lemma sat_throw (t : Thrown) : T t -> sat E T (@throw A t).
Proof.
  intros Ht w o w' [= <- <-]. split; [|now intros ? [= <-]].
  exists []. split; [apply appended_refl | constructor].
Qed.

Lemma sat_throwError (e : JsError) : T (TError e) -> sat E T (@throwError A e).
Proof. apply sat_throw. Qed.

Lemma sat_stuck : sat E T (fun w => (@Stuck A, w)).
Proof.
  intros w o w' [= <- <-]. split; [|discriminate].
  exists []. split; [apply appended_refl | constructor].
Qed.

Lemma sat_out_of_fuel : sat E T (fun w => (@OutOfFuel A, w)).
Proof.
  intros w o w' [= <- <-]. split; [|discriminate].
  exists []. split; [apply appended_refl | constructor].
Qed.

Lemma sat_bind (m : M A) (k : A -> M B) :
  sat E T m -> (forall a, sat E T (k a)) -> sat E T (bind m k).
Proof.
  intros Hm Hk w o w' Hrun. unfold bind in Hrun.
  destruct (m w) as [[a|t| |] w1] eqn:Em; destruct (Hm _ _ _ Em) as [(e1 & Ha1 & Hf1) Ht1].
  - destruct (Hk a _ _ _ Hrun) as [(e2 & Ha2 & Hf2) Ht2]. split; [|exact Ht2].
    exists (e1 ++ e2)%list. split; [eapply appended_trans; eauto | now apply Forall_app].
  - injection Hrun as <- <-. split; [eauto|]. intros t' [= <-]. now apply Ht1.
  - injection Hrun as <- <-. split; [eauto|]. discriminate.
  - injection Hrun as <- <-. split; [eauto|]. discriminate.
Qed.

Lemma sat_tryCatch (Q : Thrown -> Prop) (body : M A) (handler : Thrown -> M A) :
  sat E Q body -> (forall t, Q t -> sat E T (handler t)) -> sat E T (tryCatch body handler).
Proof.
  intros Hb Hh w o w' Hrun. unfold tryCatch in Hrun.
  destruct (body w) as [[a|t| |] w1] eqn:Eb; destruct (Hb _ _ _ Eb) as [(e1 & Ha1 & Hf1) Ht1].
  - injection Hrun as <- <-. split; [eauto|]. discriminate.
  - destruct (Hh t (Ht1 t eq_refl) _ _ _ Hrun) as [(e2 & Ha2 & Hf2) Ht2]. split; [|exact Ht2].
    exists (e1 ++ e2)%list. split; [eapply appended_trans; eauto | now apply Forall_app].
  - injection Hrun as <- <-. split; [eauto|]. discriminate.
  - injection Hrun as <- <-. split; [eauto|]. discriminate.
Qed.

Lemma sat_weaken (E' : Event -> Prop) (T' : Thrown -> Prop) (m : M A) :
  (forall e, E' e -> E e) -> (forall t, T' t -> T t) -> sat E' T' m -> sat E T m.
Proof.
  intros HE HT Hm w o w' Hrun. destruct (Hm _ _ _ Hrun) as [(evs & Ha & Hf) Ht].
  split; [|auto]. exists evs. split; [exact Ha|]. eapply Forall_impl; eauto.
Qed.

End SatRules.

Lemma sat_weaken_throw {A} (E : Event -> Prop) (T T' : Thrown -> Prop) (m : M A) :
  (forall t, T' t -> T t) -> sat E T' m -> sat E T m.
Proof. intros HT. apply sat_weaken; auto. Qed.

Lemma sat_get E T : sat E T get.
Proof.
  intros w o w' [= <- <-]. split; [|discriminate].
  exists []. split; [apply appended_refl | constructor].
Qed.

Lemma sat_modify E T (f : World -> World) :
  (forall w, trace (f w) = trace w) -> sat E T (modify f).
Proof.
  intros Hf w o w' [= <- <-]. split; [|discriminate].
  exists []. split; [|constructor]. unfold appended. now rewrite Hf, app_nil_r.
Qed.

Lemma sat_emit (E : Event -> Prop) T e : E e -> sat E T (emit e).
Proof.
  intros He w o w' [= <- <-]. split; [|discriminate].
  exists [e]. split; [reflexivity | now constructor].
Qed.

Lemma sat_when E T b (m : M unit) : sat E T m -> sat E T (when b m).
Proof. destruct b; cbn; [auto | intros _; apply sat_ret]. Qed.

Lemma sat_freshId E T : sat E T freshId.
Proof.
  intros w o w' [= <- <-]. split; [|discriminate].
  exists []. split; [|constructor]. unfold appended. cbn. now rewrite app_nil_r.
Qed.

Lemma sat_readRandom E T env : sat E T (readRandom env).
Proof.
  intros w o w' [= <- <-]. split; [|discriminate].
  exists []. split; [|constructor]. unfold appended. cbn. now rewrite app_nil_r.
Qed.

Lemma sat_dateNow E T env : sat E T (dateNow env).
Proof.
  intros w o w' [= <- <-]. split; [|discriminate].
  exists []. split; [|constructor]. unfold appended. cbn. now rewrite app_nil_r.
Qed.

Lemma sat_await E (T : Thrown -> Prop) p :
  (forall t, p = Rejected t -> T t) -> sat E T (await p).
Proof.
  intros H. destruct p; cbn.
  - apply sat_ret.
  - apply sat_throw. now apply H.
  - apply sat_stuck.
Qed.

Create HintDb sat discriminated.
#[export] Hint Resolve sat_ret sat_get sat_freshId sat_readRandom sat_dateNow
  sat_stuck sat_out_of_fuel : sat.

(** Resolves the goals [sat E T m] that follow the shape of [m]. *)
Ltac sat_setter :=
  first [ apply sat_modify; intros; reflexivity ].

Ltac sat_step :=
  lazymatch goal with
  | |- sat _ _ (bind _ _) => apply sat_bind; [|intros]
  | |- sat _ _ (ret _) => apply sat_ret
  | |- sat _ _ get => apply sat_get
  | |- sat _ _ freshId => apply sat_freshId
  | |- sat _ _ (readRandom _) => apply sat_readRandom
  | |- sat _ _ (dateNow _) => apply sat_dateNow
  | |- sat _ _ (when _ _) => apply sat_when
  | |- sat _ _ (emit _) => apply sat_emit
  | |- sat _ _ (sleep _) => apply sat_emit
  | |- sat _ _ (closeInstance _) => apply sat_emit
  | |- sat _ _ (setPool _) => sat_setter
  | |- sat _ _ (setConnectionPromise _) => sat_setter
  | |- sat _ _ (setIsConnecting _) => sat_setter
  | |- sat _ _ (setAbortController _) => sat_setter
  | |- sat _ _ (setSchemaCache _) => sat_setter
  | |- sat _ _ (setConnectionRetries _) => sat_setter
  | |- sat _ _ (fun w => (Stuck, w)) => apply sat_stuck
  | |- sat _ _ (fun w => (OutOfFuel, w)) => apply sat_out_of_fuel
  | |- sat _ _ (match ?x with _ => _ end) => destruct x eqn:?
  | |- sat _ _ (if ?x then _ else _) => destruct x eqn:?
  end.

(** ** The pool manager: what it emits, what it throws *)

(** Calls of the pool manager: connect, close, probe, wait. *)
Definition poolEvent (ev : Event) : Prop :=
  match ev with
  | EvConnect _ | EvClose _ | EvProbe _ | EvSleep _ => True
  | EvRequest _ _ | EvMetadataQuery _ => False
  end.

Definition isConnectionError (t : Thrown) : Prop :=
  exists m o d, t = TError (MssqlMcpError m CONNECTION_ERROR o d).

Definition anything (t : Thrown) : Prop := True.
Definition nothing (t : Thrown) : Prop := False.

(** [try]/[catch] whose body's throws satisfy [Q]. *)
Ltac sat_try Q :=
  lazymatch goal with
  | |- sat _ _ (tryCatch _ _) => eapply (sat_tryCatch _ _ Q); [|intros ? ?]
  end.

Ltac sat_throws :=
  lazymatch goal with
  | |- sat _ _ (throwError _) => apply sat_throwError
  | |- sat _ _ (throw _) => apply sat_throw
  end.

Section PoolFacts.

Variable env : Env.

Lemma sat_closePool E : (forall p, E (EvClose p)) -> sat E nothing (closePool).
Proof.
  intros HE. unfold closePool. repeat sat_step; auto.
Qed.

Lemma sat_probe E p : E (EvProbe (poolId p)) -> sat E anything (probe env p).
Proof.
  intros HE. unfold probe. repeat sat_step; auto. now apply sat_throw.
Qed.

Lemma sat_closePool_any T : sat poolEvent T closePool.
Proof.
  eapply sat_weaken; [| |apply (sat_closePool poolEvent)]; cbn; auto.
  intros t [].
Qed.

Lemma sat_connectAttempt inst sig : sat poolEvent anything (connectAttempt env inst sig).
Proof.
  unfold connectAttempt.
  repeat first [ sat_step | sat_throws | apply sat_closePool_any ];
    cbn; auto; exact I.
Qed.

Lemma sat_initPoolAttempt : sat poolEvent anything (initPoolAttempt env).
Proof.
  unfold initPoolAttempt.
  repeat first [ sat_step | sat_throws | sat_try anything
               | apply sat_connectAttempt | apply sat_probe
               | apply sat_closePool_any ];
    cbn; auto; exact I.
Qed.

Lemma sat_initPool : sat poolEvent anything (initPool env).
Proof.
  unfold initPool.
  repeat first [ sat_step | apply sat_initPoolAttempt | apply sat_await ]; cbn; auto.
  all: try (intros; exact I).
Qed.

Lemma sat_awaitOngoing T : sat poolEvent T awaitOngoing.
Proof.
  unfold awaitOngoing.
  repeat first [ sat_step | sat_try anything | apply sat_await ]; cbn; auto.
  all: try (intros; exact I).
Qed.

Lemma retriesExhausted_connection e : isConnectionError (TError (retriesExhausted env e)).
Proof. unfold retriesExhausted. red. eauto. Qed.

Lemma sat_getPoolBody again :
  (forall a, sat poolEvent isConnectionError (again a)) ->
  forall a, sat poolEvent isConnectionError (getPoolBody env again a).
Proof.
  intros Hagain a. unfold getPoolBody.
  repeat first [ sat_step | sat_try anything | apply Hagain | apply sat_awaitOngoing
               | eapply sat_weaken; [| |apply sat_initPool]; [auto | intros; exact I]
               | sat_throws; first [exact I | apply retriesExhausted_connection] ];
    cbn; auto.
Qed.

(** [getPool] only ever throws a connection error, and calls the
    driver only to connect, close, probe and wait. *)
Lemma sat_getPool fuel : forall a, sat poolEvent isConnectionError (getPool env fuel a).
Proof.
  induction fuel as [|fuel IH]; intros a; cbn [getPool].
  - apply sat_out_of_fuel.
  - now apply sat_getPoolBody.
Qed.

End PoolFacts.

(** ** The whitelist *)

(** The error an operation throws on whitelist grounds: a permission
    error whose details carry the rejected database and the allowed
    list. *)
Definition whitelistRejection (D : string) (W : list string) (t : Thrown) : Prop :=
  exists m o d,
    t = TError (MssqlMcpError m PERMISSION_ERROR o (Some d))
    /\ d !! "database" = Some (DStr D)
    /\ d !! "allowed" = Some (DStrList W).

(** No permission error with an [allowed] detail. *)
Definition notWhitelistRejection (t : Thrown) : Prop :=
  forall m o d, t = TError (MssqlMcpError m PERMISSION_ERROR o (Some d)) -> d !! "allowed" = None.

(** Not a [MssqlMcpError] of the permission kind. *)
Definition notPermission (t : Thrown) : Prop :=
  match t with
  | TError (MssqlMcpError _ ty _ _) => ty <> PERMISSION_ERROR
  | _ => True
  end.

Definition anyEvent (ev : Event) : Prop := True.

Lemma arrayIncludes_In (a : list string) (x : string) :
  arrayIncludes a x = true <-> In x a.
Proof.
  unfold arrayIncludes. rewrite existsb_exists. split.
  - intros (y & Hy & ->%String.eqb_eq). exact Hy.
  - intros H. exists x. split; [exact H | apply String.eqb_refl].
Qed.

Lemma whitelistRejects_iff (cfg : SqlConfig) (D : string) :
  whitelistRejects cfg D = true
  <-> default [] (allowedDatabases cfg) <> [] /\ ~ In D (default [] (allowedDatabases cfg)).
Proof.
  unfold whitelistRejects. destruct (allowedDatabases cfg) as [allowed|]; cbn.
  - rewrite andb_true_iff, negb_true_iff, <- not_true_iff_false, arrayIncludes_In.
    destruct allowed; cbn; [|split; intros [_ H]; split; auto; discriminate].
    split; intros [H _]; [discriminate | congruence].
  - split; [discriminate | intros [H _]; congruence].
Qed.

Lemma thrownOf_notPermission r : notPermission (thrownOf r).
Proof. destruct r; exact I. Qed.

Lemma notPermission_notWhitelistRejection t :
  notPermission t -> isMcp t = true -> notWhitelistRejection t.
Proof.
  destruct t as [[|m ty o d]| |]; cbn; try discriminate.
  intros Hty _ m' o' d' [= -> -> -> ->]. congruence.
Qed.

Lemma connectionError_notWhitelistRejection t :
  isConnectionError t -> notWhitelistRejection t.
Proof. intros (m & o & d & ->) m' o' d' [=]. Qed.

Lemma fromError_lacks_allowed error ty k v :
  isMcp error = false -> k <> "allowed" ->
  notWhitelistRejection (TError (fromError error ty (Some {[ k := v ]}))).
Proof.
  intros Hmcp Hk m o d. unfold fromError, spread.
  destruct error as [[msg code stack|]| |]; try discriminate Hmcp;
    intros [= _ _ _ <-]; cbn [default];
    repeat (rewrite lookup_union_None; split);
    try apply lookup_empty; try (now apply lookup_singleton_ne).
  destruct (Js.truthy _); [now apply lookup_singleton_ne | apply lookup_empty].
Qed.

Section WhitelistFacts.

Variable env : Env.
Let cfg := sqlConfig env.

Lemma sat_request E p r :
  E (EvRequest (poolId p) r) -> sat E notPermission (request env p r).
Proof.
  intros HE. unfold request.
  repeat first [ sat_step | sat_throws ]; auto using thrownOf_notPermission.
Qed.

Lemma sat_switchDatabase (E : Event -> Prop) p inputs msg db :
  (forall sql, E (EvRequest (poolId p) (ReqBatch inputs sql))) ->
  sat E notPermission (switchDatabase env p inputs msg db).
Proof.
  intros HE. unfold switchDatabase.
  repeat first [ sat_step | sat_throws | apply sat_request ]; cbn; auto; try exact I.
Qed.

Lemma validateQuery_notPermission query rejection :
  validateQuery env query = Some rejection -> notPermission (TError rejection).
Proof.
  unfold validateQuery.
  destruct (blank query); [intros [= <-]; discriminate|].
  destruct (astify env query);
    try (destruct (firstNonSelect _); [intros [= <-]; discriminate|];
         destruct (potentiallyUnsafe query); intros [= <-]; discriminate).
  intros [= <-]. discriminate.
Qed.

Lemma sat_reestablishPool (E : Event -> Prop) fuel failure :
  (forall e, poolEvent e -> E e) ->
  (forall t, isConnectionError (TError (failure t))) ->
  sat E isConnectionError (reestablishPool env fuel failure).
Proof.
  intros HE Hf. unfold reestablishPool.
  apply sat_bind.
  - eapply sat_weaken; [| |apply (sat_closePool E); intros; apply HE; exact I];
      [auto | intros t []].
  - intros _. sat_try isConnectionError.
    + apply sat_bind; [|intros; apply sat_ret].
      eapply sat_weaken; [| |apply sat_getPool]; [exact HE | auto].
    + now apply sat_throwError.
Qed.

Lemma sat_executeQueryTry p query db :
  sat anyEvent notPermission (executeQueryTry env p query db).
Proof.
  unfold executeQueryTry.
  apply sat_bind; [apply sat_switchDatabase; intros; exact I|intros _].
  destruct (validateQuery env query) eqn:Ev.
  - apply sat_throwError. eapply validateQuery_notPermission; eauto.
  - repeat first [ sat_step | apply sat_request ]; exact I.
Qed.

Lemma sat_executeQueryCatch (E : Event -> Prop) fuel query raw t :
  (forall e, poolEvent e -> E e) ->
  notPermission t ->
  sat E notWhitelistRejection (executeQueryCatch env fuel query raw t).
Proof.
  intros HE Ht. unfold executeQueryCatch.
  destruct t as [[msg code stack|m ty o d]|s|om].
  - repeat first
      [ sat_step
      | apply sat_throwError; apply fromError_lacks_allowed; [reflexivity|discriminate]
      | eapply sat_weaken_throw; [|apply sat_reestablishPool];
        [ apply connectionError_notWhitelistRejection | exact HE
        | intros; unfold queryReconnectFailure; red; eauto ] ].
  - apply sat_throw. now apply notPermission_notWhitelistRejection.
  - apply sat_throwError. apply fromError_lacks_allowed; [reflexivity|discriminate].
  - apply sat_throwError. apply fromError_lacks_allowed; [reflexivity|discriminate].
Qed.

Lemma executeQuery_passed_whitelist fuel query raw :
  whitelistRejects cfg (targetDatabaseOf cfg raw) = false ->
  sat anyEvent notWhitelistRejection (executeQuery env fuel query raw).
Proof.
  intros Hw. unfold executeQuery. fold cfg. rewrite Hw.
  apply sat_bind.
  - eapply sat_weaken; [| |apply sat_getPool];
      [intros; exact I | apply connectionError_notWhitelistRejection].
  - intros p. sat_try notPermission.
    + apply sat_executeQueryTry.
    + apply sat_executeQueryCatch; [intros; exact I | assumption].
Qed.

Lemma validateProcedure_notPermission procedure rejection :
  validateProcedure procedure = Some rejection -> notPermission (TError rejection).
Proof.
  unfold validateProcedure.
  destruct (blank procedure); [intros [= <-]; discriminate|].
  destruct (negb _); intros [= <-]; discriminate.
Qed.

Lemma bindParameters_notPermission parameters rejection :
  bindParameters parameters = inl rejection -> notPermission (TError rejection).
Proof.
  revert rejection. induction parameters as [|p ps IH]; intros rejection; cbn; [discriminate|].
  destruct (_ || _); [intros [= <-]; discriminate|].
  destruct (bindParameters ps); [|discriminate]. intros [= <-]. now apply IH.
Qed.

Lemma sat_executeStoredProcedureTry p procedure parameters db :
  sat anyEvent notPermission (executeStoredProcedureTry env p procedure parameters db).
Proof.
  unfold executeStoredProcedureTry.
  apply sat_bind; [apply sat_switchDatabase; intros; exact I|intros _].
  destruct (validateProcedure procedure) eqn:Ev.
  - apply sat_throwError. eapply validateProcedure_notPermission; eauto.
  - destruct (bindParameters parameters) eqn:Eb.
    + apply sat_throwError. eapply bindParameters_notPermission; eauto.
    + repeat first [ sat_step | apply sat_request ]; exact I.
Qed.

Lemma sat_executeStoredProcedureCatch (E : Event -> Prop) fuel procedure raw t :
  (forall e, poolEvent e -> E e) ->
  notPermission t ->
  sat E notWhitelistRejection (executeStoredProcedureCatch env fuel procedure raw t).
Proof.
  intros HE Ht. unfold executeStoredProcedureCatch.
  destruct t as [[msg code stack|m ty o d]|s|om].
  - repeat first
      [ sat_step
      | apply sat_throwError; apply fromError_lacks_allowed; [reflexivity|discriminate]
      | eapply sat_weaken_throw; [|apply sat_reestablishPool];
        [ apply connectionError_notWhitelistRejection | exact HE
        | intros; unfold procedureReconnectFailure; red; eauto ] ].
  - apply sat_throw. now apply notPermission_notWhitelistRejection.
  - apply sat_throwError. apply fromError_lacks_allowed; [reflexivity|discriminate].
  - apply sat_throwError. apply fromError_lacks_allowed; [reflexivity|discriminate].
Qed.

Lemma executeStoredProcedure_passed_whitelist fuel procedure parameters raw :
  whitelistRejects cfg (targetDatabaseOf cfg raw) = false ->
  sat anyEvent notWhitelistRejection (executeStoredProcedure env fuel procedure parameters raw).
Proof.
  intros Hw. unfold executeStoredProcedure. fold cfg. rewrite Hw.
  apply sat_bind.
  - eapply sat_weaken; [| |apply sat_getPool];
      [intros; exact I | apply connectionError_notWhitelistRejection].
  - intros p. sat_try notPermission.
    + apply sat_executeStoredProcedureTry.
    + apply sat_executeStoredProcedureCatch; [intros; exact I | assumption].
Qed.

Lemma sat_metadataQuery E p :
  E (EvMetadataQuery (poolId p)) -> sat E notPermission (metadataQuery env p).
Proof.
  intros HE. unfold metadataQuery.
  repeat first [ sat_step | sat_throws ]; auto using thrownOf_notPermission.
Qed.

Lemma sat_getSchemaTry p db : sat anyEvent notPermission (getSchemaTry env p db).
Proof.
  unfold getSchemaTry.
  apply sat_bind; [apply sat_switchDatabase; intros; exact I|intros _].
  repeat first [ sat_step | apply sat_metadataQuery ]; exact I.
Qed.

Lemma sat_getSchemaCatch (E : Event -> Prop) fuel db t :
  (forall e, poolEvent e -> E e) ->
  notPermission t ->
  sat E notWhitelistRejection (getSchemaCatch env fuel db t).
Proof.
  intros HE Ht. unfold getSchemaCatch.
  destruct t as [[msg code stack|m ty o d]|s|om].
  - repeat first
      [ sat_step
      | apply sat_throwError; apply fromError_lacks_allowed; [reflexivity|discriminate]
      | eapply sat_weaken_throw; [|apply sat_reestablishPool];
        [ apply connectionError_notWhitelistRejection | exact HE
        | intros; unfold schemaReconnectFailure; red; eauto ] ].
  - apply sat_throw. now apply notPermission_notWhitelistRejection.
  - apply sat_throwError. apply fromError_lacks_allowed; [reflexivity|discriminate].
  - apply sat_throwError. apply fromError_lacks_allowed; [reflexivity|discriminate].
Qed.

Lemma sat_fetchSchema fuel db :
  sat anyEvent notWhitelistRejection (fetchSchema env fuel db).
Proof.
  unfold fetchSchema. apply sat_bind.
  - eapply sat_weaken; [| |apply sat_getPool];
      [intros; exact I | apply connectionError_notWhitelistRejection].
  - intros p. sat_try notPermission.
    + apply sat_getSchemaTry.
    + apply sat_getSchemaCatch; [intros; exact I | assumption].
Qed.

Lemma getSchema_passed_whitelist fuel db :
  whitelistRejects cfg db = false ->
  sat anyEvent notWhitelistRejection (getSchema env fuel db).
Proof.
  intros Hw. unfold getSchema. fold cfg. rewrite Hw.
  repeat first [ sat_step | apply sat_fetchSchema ].
Qed.

End WhitelistFacts.

Lemma allowed_details_lookup (D : string) (W : list string) :
  ({[ "database" := DStr D; "allowed" := DStrList W ]} : ErrorDetails) !! "database" = Some (DStr D)
  /\ ({[ "database" := DStr D; "allowed" := DStrList W ]} : ErrorDetails) !! "allowed"
     = Some (DStrList W).
Proof.
  split.
  - apply lookup_insert_eq.
  - rewrite lookup_insert_ne by discriminate. apply lookup_singleton_eq.
Qed.

(** C2: each of the three operations throws the whitelist's permission
    error, with the rejected database and the allowed list in its
    details, exactly when the whitelist is not empty and the target
    database is not in it; with an empty whitelist no database is ever
    rejected on that ground. *)
Theorem whitelist_rejection_iff (env : Env) (fuel : nat) (w : World) :
  let cfg := sqlConfig env in
  let W := default [] (allowedDatabases cfg) in
  (forall query raw,
      let D := targetDatabaseOf cfg raw in
      (exists t w', executeQuery env fuel query raw w = (Threw t, w') /\ whitelistRejection D W t)
      <-> W <> [] /\ ~ In D W)
  /\ (forall procedure parameters raw,
         let D := targetDatabaseOf cfg raw in
         (exists t w', executeStoredProcedure env fuel procedure parameters raw w = (Threw t, w')
                       /\ whitelistRejection D W t)
         <-> W <> [] /\ ~ In D W)
  /\ (forall dbIdentifier,
         (exists t w', getSchema env fuel dbIdentifier w = (Threw t, w')
                       /\ whitelistRejection dbIdentifier W t)
         <-> W <> [] /\ ~ In dbIdentifier W)
  /\ (W = [] ->
      forall D' t w',
        (forall query raw, executeQuery env fuel query raw w = (Threw t, w') ->
                           ~ whitelistRejection D' W t)
        /\ (forall procedure parameters raw,
               executeStoredProcedure env fuel procedure parameters raw w = (Threw t, w') ->
               ~ whitelistRejection D' W t)
        /\ (forall dbIdentifier, getSchema env fuel dbIdentifier w = (Threw t, w') ->
                                 ~ whitelistRejection D' W t)).
Proof.
  intros cfg W.
  assert (Hnot : forall t D', notWhitelistRejection t -> ~ whitelistRejection D' W t).
  { intros t D' Hn (m & o & d & -> & _ & Ha). now rewrite (Hn _ _ _ eq_refl) in Ha. }
  assert (Hq : forall query raw t w',
             whitelistRejects cfg (targetDatabaseOf cfg raw) = false ->
             executeQuery env fuel query raw w = (Threw t, w') -> notWhitelistRejection t).
  { intros query raw t w' Hw Hrun.
    now apply (executeQuery_passed_whitelist env fuel query raw Hw _ _ _ Hrun). }
  assert (Hp : forall procedure parameters raw t w',
             whitelistRejects cfg (targetDatabaseOf cfg raw) = false ->
             executeStoredProcedure env fuel procedure parameters raw w = (Threw t, w') ->
             notWhitelistRejection t).
  { intros procedure parameters raw t w' Hw Hrun.
    now apply (executeStoredProcedure_passed_whitelist env fuel _ _ raw Hw _ _ _ Hrun). }
  assert (Hs : forall db t w',
             whitelistRejects cfg db = false ->
             getSchema env fuel db w = (Threw t, w') -> notWhitelistRejection t).
  { intros db t w' Hw Hrun.
    now apply (getSchema_passed_whitelist env fuel db Hw _ _ _ Hrun). }
  assert (Hempty : W = [] -> forall D', whitelistRejects cfg D' = false).
  { intros HW D'. apply not_true_iff_false.
    intros [H _]%whitelistRejects_iff. now apply H. }
  split; [|split; [|split]].
  - intros query raw D.
    transitivity (whitelistRejects cfg D = true); [|apply whitelistRejects_iff]. split.
    + intros (t & w' & Hrun & Hrej).
      destruct (whitelistRejects cfg D) eqn:Hw; [reflexivity|].
      exfalso. eapply Hnot; eauto.
    + intros Hw. unfold executeQuery. fold cfg. fold D. rewrite Hw.
      do 2 eexists. split; [reflexivity|]. do 3 eexists. split; [reflexivity|].
      apply allowed_details_lookup.
  - intros procedure parameters raw D.
    transitivity (whitelistRejects cfg D = true); [|apply whitelistRejects_iff]. split.
    + intros (t & w' & Hrun & Hrej).
      destruct (whitelistRejects cfg D) eqn:Hw; [reflexivity|].
      exfalso. eapply Hnot; eauto.
    + intros Hw. unfold executeStoredProcedure. fold cfg. fold D. rewrite Hw.
      do 2 eexists. split; [reflexivity|]. do 3 eexists. split; [reflexivity|].
      split.
      * apply lookup_insert_eq.
      * rewrite lookup_insert_ne by discriminate. apply lookup_insert_eq.
  - intros db.
    transitivity (whitelistRejects cfg db = true); [|apply whitelistRejects_iff]. split.
    + intros (t & w' & Hrun & Hrej).
      destruct (whitelistRejects cfg db) eqn:Hw; [reflexivity|].
      exfalso. eapply Hnot; eauto.
    + intros Hw. unfold getSchema. fold cfg. rewrite Hw.
      do 2 eexists. split; [reflexivity|]. do 3 eexists. split; [reflexivity|].
      apply allowed_details_lookup.
  - intros HW D' t w'. repeat split.
    + intros query raw Hrun. eapply Hnot, Hq; eauto.
    + intros procedure parameters raw Hrun. eapply Hnot, Hp; eauto.
    + intros db Hrun. eapply Hnot, Hs; eauto.
Qed.

(** ** Calls that never return *)

Definition neverReturns {A} (m : M A) : Prop :=
  forall w o w', m w = (o, w') -> forall a, o <> Returned a.

Lemma neverReturns_throw {A} t : neverReturns (@throw A t).
Proof. intros w o w' [= <- <-] a. discriminate. Qed.

Lemma neverReturns_throwError {A} e : neverReturns (@throwError A e).
Proof. apply neverReturns_throw. Qed.

Lemma neverReturns_bind_r {A B} (m : M A) (k : A -> M B) :
  (forall a, neverReturns (k a)) -> neverReturns (bind m k).
Proof.
  intros Hk w o w' Hrun b. unfold bind in Hrun.
  destruct (m w) as [[a|t| |] w1]; try (injection Hrun as <- <-; discriminate).
  eapply Hk; eauto.
Qed.

Lemma neverReturns_tryCatch {A} (body : M A) (handler : Thrown -> M A) :
  neverReturns body -> (forall t, neverReturns (handler t)) ->
  neverReturns (tryCatch body handler).
Proof.
  intros Hb Hh w o w' Hrun a. unfold tryCatch in Hrun.
  destruct (body w) as [[b|t| |] w1] eqn:Eb; try (injection Hrun as <- <-; discriminate).
  - exfalso. now apply (Hb _ _ _ Eb b).
  - eapply Hh; eauto.
Qed.

Ltac never_step :=
  lazymatch goal with
  | |- neverReturns (throwError _) => apply neverReturns_throwError
  | |- neverReturns (throw _) => apply neverReturns_throw
  | |- neverReturns (bind _ _) => apply neverReturns_bind_r; intros
  | |- neverReturns (match ?x with _ => _ end) => destruct x
  | |- neverReturns (if ?x then _ else _) => destruct x
  end.

Lemma neverReturns_executeQueryCatch env fuel query raw t :
  neverReturns (executeQueryCatch env fuel query raw t).
Proof. unfold executeQueryCatch. repeat never_step. Qed.

Lemma neverReturns_executeStoredProcedureCatch env fuel procedure raw t :
  neverReturns (executeStoredProcedureCatch env fuel procedure raw t).
Proof. unfold executeStoredProcedureCatch. repeat never_step. Qed.

Lemma neverReturns_getSchemaCatch env fuel db t :
  neverReturns (getSchemaCatch env fuel db t).
Proof. unfold getSchemaCatch. repeat never_step. Qed.

(** ** The SQL restriction of executeQuery *)

(** The events a call adds to the history. *)
Definition newEvents (w w' : World) : list Event :=
  skipn (length (trace w)) (trace w').

Lemma newEvents_appended w w' evs : appended w w' evs -> newEvents w w' = evs.
Proof.
  unfold appended, newEvents. intros ->.
  rewrite skipn_app, skipn_all, Nat.sub_diag. reflexivity.
Qed.

(** Neither the text of a caller's query nor a procedure nor the
    metadata query is sent. *)
Definition noStatement (ev : Event) : Prop :=
  match ev with
  | EvRequest _ (ReqQuery _) | EvRequest _ (ReqExecute _ _) | EvMetadataQuery _ => False
  | _ => True
  end.

Lemma poolEvent_noStatement ev : poolEvent ev -> noStatement ev.
Proof. destruct ev as [| | |? []| |]; cbn; auto. Qed.

Definition isSelect (q : Statement) : Prop := stmtType q = "select".

Definition parsed (ast : ParseOutcome) : Prop :=
  match ast with ParseFailed _ => False | _ => True end.

Lemma firstNonSelect_None queries :
  firstNonSelect queries = None <-> Forall isSelect queries.
Proof.
  unfold firstNonSelect, isSelect. induction queries as [|q qs IH]; cbn.
  - split; auto.
  - destruct (String.eqb_spec (stmtType q) "select") as [E|E]; cbn.
    + rewrite IH. split; [now constructor | now inversion 1].
    + split; [discriminate | inversion 1; contradiction].
Qed.

Lemma firstNonSelect_Some queries q :
  firstNonSelect queries = Some q -> In q queries /\ stmtType q <> "select".
Proof.
  unfold firstNonSelect. intros H. apply find_some in H as [Hin Hq]. split; [exact Hin|].
  apply negb_true_iff in Hq. now apply String.eqb_neq.
Qed.

Lemma potentiallyUnsafe_false query :
  potentiallyUnsafe query = false
  <-> Forall (fun b => Js.includes (Js.toLowerCase query) b = false) blockedSubstrings.
Proof.
  unfold potentiallyUnsafe, blockedSubstrings. rewrite !orb_false_iff. split.
  - intros (((((H1 & H2) & H3) & H4) & H5) & H6). repeat constructor; assumption.
  - intros H. repeat (apply Forall_cons_iff in H as [? H]). repeat split; assumption.
Qed.

Lemma validateQuery_None env query :
  validateQuery env query = None
  <-> blank query = false
      /\ parsed (astify env query)
      /\ Forall isSelect (statementsOf (astify env query))
      /\ Forall (fun b => Js.includes (Js.toLowerCase query) b = false) blockedSubstrings.
Proof.
  unfold validateQuery. rewrite <- firstNonSelect_None, <- potentiallyUnsafe_false.
  destruct (blank query); [split; [discriminate | intros [? _]; discriminate]|].
  destruct (astify env query) as [q|qs|r]; cbn [parsed statementsOf].
  - destruct (firstNonSelect [q]); [split; [discriminate | intros (_ & _ & ? & _); discriminate]|].
    destruct (potentiallyUnsafe query); split; try discriminate; auto.
    intros (_ & _ & _ & ?); discriminate.
  - destruct (firstNonSelect qs); [split; [discriminate | intros (_ & _ & ? & _); discriminate]|].
    destruct (potentiallyUnsafe query); split; try discriminate; auto.
    intros (_ & _ & _ & ?); discriminate.
  - split; [discriminate | intros (_ & [] & _)].
Qed.

Section QueryRestriction.

Variable env : Env.
Let cfg := sqlConfig env.

Lemma rejected_executeQueryTry p query db rejection :
  validateQuery env query = Some rejection ->
  sat noStatement notPermission (executeQueryTry env p query db)
  /\ neverReturns (executeQueryTry env p query db).
Proof.
  intros Hv. unfold executeQueryTry. rewrite Hv. split.
  - apply sat_bind; [apply sat_switchDatabase; intros; exact I|intros _].
    apply sat_throwError. eapply validateQuery_notPermission; eauto.
  - repeat never_step.
Qed.

(** A text the restriction rejects is not sent and the call does not
    return. *)
Lemma rejected_executeQuery fuel query raw rejection :
  validateQuery env query = Some rejection ->
  sat noStatement anything (executeQuery env fuel query raw)
  /\ neverReturns (executeQuery env fuel query raw).
Proof.
  intros Hv. unfold executeQuery. split.
  - destruct (whitelistRejects _ _); [now apply sat_throwError|].
    apply sat_bind.
    + eapply sat_weaken; [| |apply sat_getPool];
        [apply poolEvent_noStatement | intros; exact I].
    + intros p. sat_try notPermission.
      * eapply rejected_executeQueryTry; eauto.
      * eapply sat_weaken_throw; [|apply sat_executeQueryCatch];
          [intros; exact I | apply poolEvent_noStatement | assumption].
  - destruct (whitelistRejects _ _); [apply neverReturns_throwError|].
    apply neverReturns_bind_r. intros p. apply neverReturns_tryCatch.
    + eapply rejected_executeQueryTry; eauto.
    + intros t. apply neverReturns_executeQueryCatch.
Qed.

End QueryRestriction.

(** C1: [executeQuery] returns, or sends the text to the driver, only if
    the text parses, every top-level statement of the parse has type
    select and the lower-cased text contains none of the blocked
    substrings.  Once the call is past the whitelist, the pool and the
    context switch with a text that is not blank and parses: a parse
    with a statement that is not a select is rejected with a validation
    error whose details name the type of such a statement, and a text
    with a blocked substring is rejected with a validation error, also
    when every statement is a select. *)
Theorem executeQuery_sql_restriction
    (env : Env) (fuel : nat) (query : string) (raw : option string) (w : World) :
  let cfg := sqlConfig env in
  let D := targetDatabaseOf cfg raw in
  let queries := statementsOf (astify env query) in
  (forall o w',
      executeQuery env fuel query raw w = (o, w') ->
      (exists r, o = Returned r)
      \/ (exists p, In (EvRequest p (ReqQuery query)) (newEvents w w')) ->
      parsed (astify env query)
      /\ Forall isSelect queries
      /\ Forall (fun b => Js.includes (Js.toLowerCase query) b = false) blockedSubstrings)
  /\ (forall p w1 w2,
         whitelistRejects cfg D = false ->
         getPool env fuel 0 w = (Returned p, w1) ->
         switchDatabase env p [] invalidDatabaseName D w1 = (Returned tt, w2) ->
         blank query = false ->
         parsed (astify env query) ->
         (forall q, In q queries -> stmtType q <> "select" ->
            exists q' m d,
              executeQuery env fuel query raw w
              = (Threw (TError (MssqlMcpError m VALIDATION_ERROR None (Some d))), w2)
              /\ In q' queries /\ stmtType q' <> "select"
              /\ d !! "queryType" = Some (DStr (stmtType q')))
         /\ (forall b, In b blockedSubstrings ->
               Js.includes (Js.toLowerCase query) b = true ->
               exists m d,
                 executeQuery env fuel query raw w
                 = (Threw (TError (MssqlMcpError m VALIDATION_ERROR None (Some d))), w2))).
Proof.
  intros cfg D queries. split.
  - intros o w' Hrun Hreach.
    destruct (validateQuery env query) as [rejection|] eqn:Hv.
    + exfalso. destruct (rejected_executeQuery env fuel query raw rejection Hv) as [Hsat Hnever].
      destruct Hreach as [[r ->]|[p Hin]].
      * now apply (Hnever _ _ _ Hrun r).
      * destruct (Hsat _ _ _ Hrun) as [(evs & Happ & Hall) _].
        rewrite (newEvents_appended _ _ _ Happ) in Hin.
        rewrite List.Forall_forall in Hall. exact (Hall _ Hin).
    + apply validateQuery_None in Hv. tauto.
  - intros p w1 w2 Hw Hpool Hswitch Hblank Hparsed.
    assert (Hrun : forall rejection,
               validateQuery env query = Some rejection ->
               isMcp (TError rejection) = true ->
               executeQuery env fuel query raw w = (Threw (TError rejection), w2)).
    { intros rejection Hv Hmcp. unfold executeQuery, bind, tryCatch.
      fold cfg. fold D. rewrite Hw, Hpool.
      unfold executeQueryTry, bind. rewrite Hswitch, Hv. cbn.
      destruct rejection; [discriminate|reflexivity]. }
    split.
    + intros q Hin Hq.
      destruct (firstNonSelect queries) as [q'|] eqn:Hfirst.
      * destruct (firstNonSelect_Some _ _ Hfirst) as [Hin' Hq'].
        exists q'. do 2 eexists. split; [|split; [exact Hin'|split; [exact Hq'|]]].
        -- apply Hrun; [|reflexivity]. unfold validateQuery. rewrite Hblank.
           fold queries. destruct (astify env query); [| |destruct Hparsed];
             fold queries; rewrite Hfirst; reflexivity.
        -- rewrite lookup_insert_ne by discriminate. apply lookup_singleton_eq.
      * apply firstNonSelect_None in Hfirst. rewrite List.Forall_forall in Hfirst.
        now specialize (Hfirst _ Hin).
    + intros b Hb Hinc.
      assert (Hunsafe : potentiallyUnsafe query = true).
      { apply not_false_iff_true. intros Hf%potentiallyUnsafe_false.
        rewrite List.Forall_forall in Hf. specialize (Hf _ Hb). congruence. }
      unfold validateQuery in Hrun. rewrite Hblank in Hrun. fold queries in Hrun.
      destruct (astify env query); [| |destruct Hparsed]; fold queries in Hrun;
        (destruct (firstNonSelect queries);
         [|rewrite Hunsafe in Hrun]; do 2 eexists; apply Hrun; reflexivity).
Qed.

Lemma executeQuery_sql_restriction_witness :
  (parsed (astify demoEnv "SELECT 1")
   /\ Forall isSelect (statementsOf (astify demoEnv "SELECT 1"))
   /\ Forall (fun b => Js.includes (Js.toLowerCase "SELECT 1") b = false) blockedSubstrings)
  /\ (exists q' m d,
        executeQuery demoEnv 1 "DROP TABLE Foo" None liveWorld
        = (Threw (TError (MssqlMcpError m VALIDATION_ERROR None (Some d))), liveWorld)
        /\ In q' (statementsOf (astify demoEnv "DROP TABLE Foo"))
        /\ stmtType q' <> "select"
        /\ d !! "queryType" = Some (DStr (stmtType q')))
  /\ (exists m d,
        executeQuery demoEnv 1 "SELECT * FROM sp_who" None liveWorld
        = (Threw (TError (MssqlMcpError m VALIDATION_ERROR None (Some d))), liveWorld)).
Proof.
  split; [|split].
  - destruct (executeQuery_sql_restriction demoEnv 1 "SELECT 1" None liveWorld) as [H _].
    eapply H; [reflexivity|]. left. eexists. reflexivity.
  - destruct (executeQuery_sql_restriction demoEnv 1 "DROP TABLE Foo" None liveWorld) as [_ H].
    destruct (H demoPool liveWorld liveWorld) as [Hdrop _];
      [reflexivity | reflexivity | reflexivity | reflexivity | exact I |].
    apply (Hdrop {| stmtType := "drop" |}); [left; reflexivity | discriminate].
  - destruct (executeQuery_sql_restriction demoEnv 1 "SELECT * FROM sp_who" None liveWorld)
      as [_ H].
    destruct (H demoPool liveWorld liveWorld) as [_ Hblocked];
      [reflexivity | reflexivity | reflexivity | reflexivity | exact I |].
    apply (Hblocked "sp_"); [right; right; left; reflexivity | reflexivity].
Defined.

(** ** Result shaping *)

Definition indexLe (a b : ColumnMeta) : Prop := colIndex a <= colIndex b.

Lemma insertByIndex_perm c l : Permutation (c :: l) (insertByIndex c l).
Proof.
  induction l as [|d r IH]; cbn; [reflexivity|].
  destruct (colIndex c <=? colIndex d); [reflexivity|].
  rewrite perm_swap. now constructor.
Qed.

Lemma insertByIndex_sorted c l :
  StronglySorted indexLe l -> StronglySorted indexLe (insertByIndex c l).
Proof.
  induction 1 as [|d r Hr IH Hd]; cbn; [repeat constructor|].
  destruct (Z.leb_spec (colIndex c) (colIndex d)) as [Hle|Hgt].
  - constructor; [now constructor|]. constructor; [exact Hle|].
    eapply List.Forall_impl; [|exact Hd]. unfold indexLe in *. intros; lia.
  - constructor; [exact IH|].
    eapply Permutation_Forall; [apply insertByIndex_perm|].
    constructor; [unfold indexLe; lia | exact Hd].
Qed.

Lemma sortByIndex_perm l : Permutation l (sortByIndex l).
Proof.
  unfold sortByIndex. induction l as [|c l IH]; cbn; [reflexivity|].
  rewrite <- insertByIndex_perm. now constructor.
Qed.

Lemma sortByIndex_sorted l : StronglySorted indexLe (sortByIndex l).
Proof.
  unfold sortByIndex. induction l as [|c l IH]; cbn; [constructor|].
  now apply insertByIndex_sorted.
Qed.

(** The run of [executeQuery] once the text is accepted: the driver's
    answer, shaped. *)
Lemma executeQuery_accepted env fuel query raw w p w1 w2 :
  whitelistRejects (sqlConfig env) (targetDatabaseOf (sqlConfig env) raw) = false ->
  getPool env fuel 0 w = (Returned p, w1) ->
  switchDatabase env p [] invalidDatabaseName (targetDatabaseOf (sqlConfig env) raw) w1
  = (Returned tt, w2) ->
  validateQuery env query = None ->
  forall result,
    requestOutcome env (length (trace w2)) (ReqQuery query) = Done result ->
    exists w3,
      executeQuery env fuel query raw w = (Returned (shapeQueryResult result), w3)
      /\ newEvents w2 w3 = [EvRequest (poolId p) (ReqQuery query)].
Proof.
  intros Hw Hpool Hswitch Hv result Hdone.
  unfold executeQuery, bind, tryCatch. rewrite Hw, Hpool.
  unfold executeQueryTry, bind. rewrite Hswitch, Hv.
  unfold request, bind, get, emit, modify. cbn. rewrite Hdone. cbn.
  eexists. split; [reflexivity|].
  unfold newEvents. cbn. rewrite skipn_app, skipn_all, Nat.sub_diag. reflexivity.
Qed.

(** C6: when the accepted query's primary row set is empty but carries
    column metadata, [executeQuery] returns the success record with the
    column names in the order of their index, no rows and a count of
    zero; when the driver produces no row set at all, it returns the
    empty success record. *)
Theorem executeQuery_empty_recordset_shape
    (env : Env) (fuel : nat) (query : string) (raw : option string)
    (w w1 w2 : World) (p : Pool) (result : DriverResult) :
  whitelistRejects (sqlConfig env) (targetDatabaseOf (sqlConfig env) raw) = false ->
  getPool env fuel 0 w = (Returned p, w1) ->
  switchDatabase env p [] invalidDatabaseName (targetDatabaseOf (sqlConfig env) raw) w1
  = (Returned tt, w2) ->
  validateQuery env query = None ->
  requestOutcome env (length (trace w2)) (ReqQuery query) = Done result ->
  (forall cols,
      recordset result = Some {| rows := []; columns := Some cols |} ->
      exists sorted w3,
        executeQuery env fuel query raw w
        = (Returned (QueryResultSuccess (map colName sorted) [] 0), w3)
        /\ Permutation cols sorted
        /\ StronglySorted indexLe sorted)
  /\ (recordset result = None ->
      exists w3,
        executeQuery env fuel query raw w = (Returned (QueryResultSuccess [] [] 0), w3)).
Proof.
  intros Hw Hpool Hswitch Hv Hdone.
  destruct (executeQuery_accepted env fuel query raw w p w1 w2 Hw Hpool Hswitch Hv result Hdone)
    as (w3 & Hrun & _).
  split.
  - intros cols Hrs. exists (sortByIndex cols), w3. split; [|split].
    + rewrite Hrun. unfold shapeQueryResult. rewrite Hrs. reflexivity.
    + apply sortByIndex_perm.
    + apply sortByIndex_sorted.
  - intros Hrs. exists w3. rewrite Hrun. unfold shapeQueryResult. now rewrite Hrs.
Qed.

Lemma executeQuery_empty_recordset_shape_witness :
  exists sorted w3,
    executeQuery demoEnv 1 "SELECT Id, Name FROM Users WHERE 1 = 0" None liveWorld
    = (Returned (QueryResultSuccess (map colName sorted) [] 0), w3)
    /\ Permutation [ {| colIndex := 1; colName := "Name" |}; {| colIndex := 0; colName := "Id" |} ]
                   sorted
    /\ StronglySorted indexLe sorted.
Proof.
  destruct (executeQuery_empty_recordset_shape demoEnv 1
              "SELECT Id, Name FROM Users WHERE 1 = 0" None liveWorld liveWorld liveWorld
              demoPool demoResult) as [H _];
    [reflexivity | reflexivity | reflexivity | reflexivity | reflexivity |].
  apply H. reflexivity.
Defined.

(** ** Stored procedures: no keyword filter on the name *)

Lemma validateProcedure_pattern procedure :
  Regex.test Regex.procedurePattern procedure = true -> validateProcedure procedure = None.
Proof.
  intros H. unfold validateProcedure.
  now rewrite (RegexFacts.procedurePattern_not_blank _ H), H.
Qed.

(** C10: a procedure name that matches the identifier pattern passes the
    name validation whatever its prefix, and once the call is past the
    whitelist, the pool, the context switch and the binding of its
    parameters, the next call that leaves the process executes that
    procedure; the call returns the driver's answer, shaped. *)
Theorem executeStoredProcedure_no_keyword_filter
    (env : Env) (fuel : nat) (procedure : string) (parameters : list ProcParameter)
    (raw : option string) (w w1 w2 : World) (p : Pool) (inputs : list BoundInput) :
  let D := targetDatabaseOf (sqlConfig env) raw in
  Regex.test Regex.procedurePattern procedure = true ->
  validateProcedure procedure = None
  /\ (whitelistRejects (sqlConfig env) D = false ->
      getPool env fuel 0 w = (Returned p, w1) ->
      switchDatabase env p (dbNameParam D) invalidDatabaseName D w1 = (Returned tt, w2) ->
      bindParameters parameters = inr inputs ->
      (exists o w3 rest,
          executeStoredProcedure env fuel procedure parameters raw w = (o, w3)
          /\ newEvents w2 w3 = EvRequest (poolId p) (ReqExecute inputs procedure) :: rest)
      /\ (forall result,
             requestOutcome env (length (trace w2)) (ReqExecute inputs procedure) = Done result ->
             exists w3,
               executeStoredProcedure env fuel procedure parameters raw w
               = (Returned (shapeProcedureResult result), w3))).
Proof.
  intros D Hpat. pose proof (validateProcedure_pattern _ Hpat) as Hv.
  split; [exact Hv|]. intros Hw Hpool Hswitch Hbind.
  assert (Hrun : executeStoredProcedure env fuel procedure parameters raw w
                 = tryCatch (result <- request env p (ReqExecute inputs procedure) ;;
                             ret (shapeProcedureResult result))
                            (executeStoredProcedureCatch env fuel procedure raw) w2).
  { unfold executeStoredProcedure at 1. unfold bind at 1. fold D. rewrite Hw, Hpool.
    unfold tryCatch, executeStoredProcedureTry. unfold bind at 1 3.
    now rewrite Hswitch, Hv, Hbind. }
  rewrite Hrun. unfold tryCatch, request, bind, get, emit, modify. cbn.
  split.
  - destruct (requestOutcome env (length (trace w2)) (ReqExecute inputs procedure))
      as [result|e]; cbn.
    + do 2 eexists. exists []. split; [reflexivity|].
      unfold newEvents. cbn. now rewrite skipn_app, skipn_all, Nat.sub_diag.
    + match goal with
      | |- context [executeStoredProcedureCatch ?e ?f ?pr ?r ?t ?w0] =>
          destruct (executeStoredProcedureCatch e f pr r t w0) as [o w3] eqn:Ecatch;
          destruct (sat_executeStoredProcedureCatch e anyEvent f pr r t
                      (fun _ _ => I) (thrownOf_notPermission _) _ _ _ Ecatch)
            as [(evs & Happ & _) _]
      end.
      exists o, w3, evs. split; [reflexivity|].
      unfold newEvents. unfold appended in Happ. cbn in Happ. rewrite Happ.
      now rewrite <- app_assoc, skipn_app, skipn_all, Nat.sub_diag.
  - intros result ->. cbn. eexists. reflexivity.
Qed.

Lemma executeStoredProcedure_no_keyword_filter_witness :
  validateProcedure "sp_who" = None
  /\ (exists o w3 rest,
         executeStoredProcedure demoEnv 1 "sp_who" [] None liveWorld = (o, w3)
         /\ newEvents liveWorld w3 = EvRequest 0 (ReqExecute [] "sp_who") :: rest)
  /\ (exists w3,
         executeStoredProcedure demoEnv 1 "sp_who" [] None liveWorld
         = (Returned (shapeProcedureResult demoResult), w3)).
Proof.
  destruct (executeStoredProcedure_no_keyword_filter demoEnv 1 "sp_who" [] None
              liveWorld liveWorld liveWorld demoPool [] eq_refl) as [Hv Hrun].
  split; [exact Hv|].
  destruct Hrun as [Hsent Hret]; [reflexivity | reflexivity | reflexivity | reflexivity |].
  split; [exact Hsent | apply Hret; reflexivity].
Defined.

(** ** Fields a call leaves alone *)

Definition preserves {A X} (f : World -> X) (m : M A) : Prop :=
  forall w o w', m w = (o, w') -> f w' = f w.

Section PreservesRules.

Context {A B X : Type} (f : World -> X).

Lemma preserves_pure (o : Outcome A) : preserves f (fun w => (o, w)).
Proof. now intros w o' w' [= <- <-]. Qed.

Lemma preserves_bind (m : M A) (k : A -> M B) :
  preserves f m -> (forall a, preserves f (k a)) -> preserves f (bind m k).
Proof.
  intros Hm Hk w o w' Hrun. unfold bind in Hrun.
  destruct (m w) as [[a|t| |] w1] eqn:Em; pose proof (Hm _ _ _ Em) as H1;
    try (injection Hrun as <- <-; exact H1).
  rewrite <- H1. eapply Hk; eauto.
Qed.

Lemma preserves_tryCatch (body : M A) (handler : Thrown -> M A) :
  preserves f body -> (forall t, preserves f (handler t)) -> preserves f (tryCatch body handler).
Proof.
  intros Hb Hh w o w' Hrun. unfold tryCatch in Hrun.
  destruct (body w) as [[a|t| |] w1] eqn:Eb; pose proof (Hb _ _ _ Eb) as H1;
    try (injection Hrun as <- <-; exact H1).
  rewrite <- H1. eapply Hh; eauto.
Qed.

Lemma preserves_modify (g : World -> World) :
  (forall w, f (g w) = f w) -> preserves f (modify g).
Proof. intros Hg w o w' [= <- <-]. apply Hg. Qed.

End PreservesRules.

Lemma preserves_get {X} (f : World -> X) : preserves f get.
Proof. now intros w o w' [= <- <-]. Qed.

Lemma preserves_await {X} (f : World -> X) p : preserves f (await p).
Proof. destruct p; cbn; apply preserves_pure. Qed.

Lemma preserves_when {X} (f : World -> X) b m : preserves f m -> preserves f (when b m).
Proof. destruct b; cbn; [auto | intros _; apply preserves_pure]. Qed.

(** The goals [preserves f m] that follow the shape of [m], for a field
    [f] that [m] does not assign. *)
Ltac preserves_step :=
  lazymatch goal with
  | |- preserves _ (bind _ _) => apply preserves_bind; [|intros]
  | |- preserves _ (tryCatch _ _) => apply preserves_tryCatch; [|intros]
  | |- preserves _ (ret _) => apply preserves_pure
  | |- preserves _ (throw _) => apply preserves_pure
  | |- preserves _ (throwError _) => apply preserves_pure
  | |- preserves _ get => apply preserves_get
  | |- preserves _ (await _) => apply preserves_await
  | |- preserves _ (when _ _) => apply preserves_when
  | |- preserves _ (fun w => (_, w)) => apply preserves_pure
  | |- preserves _ (modify _) => apply preserves_modify; intros; reflexivity
  | |- preserves _ (emit _) => apply preserves_modify; intros; reflexivity
  | |- preserves _ (sleep _) => apply preserves_modify; intros; reflexivity
  | |- preserves _ (closeInstance _) => apply preserves_modify; intros; reflexivity
  | |- preserves _ (setPool _) => apply preserves_modify; intros; reflexivity
  | |- preserves _ (setConnectionPromise _) => apply preserves_modify; intros; reflexivity
  | |- preserves _ (setIsConnecting _) => apply preserves_modify; intros; reflexivity
  | |- preserves _ (setAbortController _) => apply preserves_modify; intros; reflexivity
  | |- preserves _ (setConnectionRetries _) => apply preserves_modify; intros; reflexivity
  | |- preserves _ freshId => intros ? ? ? [= <- <-]; reflexivity
  | |- preserves _ (readRandom _) => intros ? ? ? [= <- <-]; reflexivity
  | |- preserves _ (match ?x with _ => _ end) => destruct x
  | |- preserves _ (if ?x then _ else _) => destruct x
  end.

(** The fields of the schema cache: the pool manager and the context
    switch touch neither the cache nor the clock. *)
Definition cacheView (w : World) : gmap string CacheEntry * nat :=
  (schemaCache w, clockReads w).

Section CacheFrame.

Variable env : Env.

Lemma preserves_closePool : preserves cacheView closePool.
Proof. unfold closePool. repeat preserves_step. Qed.

Lemma preserves_connectAttempt inst sig : preserves cacheView (connectAttempt env inst sig).
Proof.
  unfold connectAttempt. repeat first [ preserves_step | apply preserves_closePool ].
Qed.

Lemma preserves_initPool : preserves cacheView (initPool env).
Proof.
  unfold initPool, initPoolAttempt, probe.
  repeat first [ preserves_step | apply preserves_closePool | apply preserves_connectAttempt ].
Qed.

Lemma preserves_getPool fuel : forall a, preserves cacheView (getPool env fuel a).
Proof.
  induction fuel as [|fuel IH]; intros a; cbn [getPool]; [apply preserves_pure|].
  unfold getPoolBody, awaitOngoing.
  repeat first [ preserves_step | apply IH | apply preserves_initPool ].
Qed.

Lemma preserves_switchDatabase p inputs msg db :
  preserves cacheView (switchDatabase env p inputs msg db).
Proof. unfold switchDatabase, request. repeat preserves_step. Qed.

End CacheFrame.

(** ** The schema cache *)

Definition isMetadataQuery (ev : Event) : bool :=
  match ev with EvMetadataQuery _ => true | _ => false end.

(** How many times a history sends the metadata query. *)
Definition metadataQueries (evs : list Event) : nat :=
  length (List.filter isMetadataQuery evs).

(** The world once [getSchema] has looked at the cache: it has read the
    clock if, and only if, it found an entry. *)
Definition afterCacheCheck (env : Env) (w : World) (K : string) : World :=
  match schemaCache w !! K with
  | Some _ => snd (dateNow env w)
  | None => w
  end.

Lemma metadataQueries_app a b :
  metadataQueries (a ++ b) = (metadataQueries a + metadataQueries b)%nat.
Proof. unfold metadataQueries. now rewrite List.filter_app, length_app. Qed.

Lemma metadataQueries_noStatement evs :
  Forall noStatement evs -> metadataQueries evs = 0%nat.
Proof.
  unfold metadataQueries. induction 1 as [|ev evs Hev _ IH]; [reflexivity|].
  cbn. destruct ev; cbn in *; auto. contradiction.
Qed.

Section CacheFacts.

Variable env : Env.
Let cfg := sqlConfig env.

Lemma getSchema_hit fuel K w entry :
  whitelistRejects cfg K = false ->
  schemaCache w !! K = Some entry ->
  clock env (clockReads w) - timestamp entry < schemaCacheTTL cfg ->
  getSchema env fuel K w = (Returned (data entry), snd (dateNow env w)).
Proof.
  intros Hw He Hfresh. unfold getSchema, bind, get. fold cfg. rewrite Hw, He. cbn.
  apply Z.ltb_lt in Hfresh. now rewrite Hfresh.
Qed.

Lemma getSchema_stale fuel K w :
  whitelistRejects cfg K = false ->
  (schemaCache w !! K = None
   \/ exists entry, schemaCache w !! K = Some entry
                    /\ schemaCacheTTL cfg <= clock env (clockReads w) - timestamp entry) ->
  getSchema env fuel K w = fetchSchema env fuel K (afterCacheCheck env w K).
Proof.
  intros Hw Hstale. unfold getSchema, afterCacheCheck, bind, get. fold cfg. rewrite Hw.
  destruct Hstale as [->|(entry & -> & Hold)]; [reflexivity|]. cbn.
  apply Z.ltb_ge in Hold. now rewrite Hold.
Qed.

(** The fetch once the pool is there and the context is switched: one
    metadata query, then either the store or the [catch] clause. *)
Lemma fetchSchema_run fuel K w0 p w1 w2 :
  getPool env fuel 0 w0 = (Returned p, w1) ->
  switchDatabase env p [] invalidSchemaDatabaseName K w1 = (Returned tt, w2) ->
  let sent := snd (emit (EvMetadataQuery (poolId p)) w2) in
  fetchSchema env fuel K w0
  = match metadataOutcome env (length (trace w2)) with
    | MetadataRows recordset =>
        (Returned (assembleTables recordset),
         snd (setSchemaCache
                (<[ K := {| timestamp := clock env (clockReads w2);
                            data := assembleTables recordset |} ]> (schemaCache w2))
                (snd (dateNow env sent))))
    | MetadataFailed e => getSchemaCatch env fuel K (thrownOf e) sent
    end.
Proof.
  intros Hpool Hswitch sent. unfold fetchSchema, bind at 1. rewrite Hpool.
  unfold tryCatch, getSchemaTry, bind at 1. rewrite Hswitch.
  unfold metadataQuery, bind, get. cbn.
  destruct (metadataOutcome env (length (trace w2))); reflexivity.
Qed.

End CacheFacts.

(** C5: with the whitelist passed, a [getSchema] on a key whose entry is
    younger than the TTL returns the entry's table list, sends nothing
    and leaves the cache as it is; on a key with no entry, or with an
    entry as old as the TTL or older, it goes to the database: once the
    pool is there and the context is switched, the call sends the
    metadata query exactly once, and when that query answers, the call
    returns the assembled tables and the entry for the key is replaced
    by these tables, stamped with the clock's next reading. *)
Theorem getSchema_cache_ttl (env : Env) (fuel : nat) (K : string) (w : World) :
  let cfg := sqlConfig env in
  let now := clock env (clockReads w) in
  whitelistRejects cfg K = false ->
  (forall entry,
      schemaCache w !! K = Some entry ->
      now - timestamp entry < schemaCacheTTL cfg ->
      exists w',
        getSchema env fuel K w = (Returned (data entry), w')
        /\ newEvents w w' = []
        /\ schemaCache w' = schemaCache w)
  /\ (schemaCache w !! K = None
      \/ (exists entry, schemaCache w !! K = Some entry
                        /\ schemaCacheTTL cfg <= now - timestamp entry) ->
      forall p w1 w2,
        getPool env fuel 0 (afterCacheCheck env w K) = (Returned p, w1) ->
        switchDatabase env p [] invalidSchemaDatabaseName K w1 = (Returned tt, w2) ->
        exists o w',
          getSchema env fuel K w = (o, w')
          /\ metadataQueries (newEvents w w') = 1%nat
          /\ forall recordset,
               metadataOutcome env (length (trace w2)) = MetadataRows recordset ->
               o = Returned (assembleTables recordset)
               /\ schemaCache w'
                  = <[ K := {| timestamp := clock env (clockReads (afterCacheCheck env w K));
                               data := assembleTables recordset |} ]> (schemaCache w)).
Proof.
  intros cfg now Hw. split.
  - intros entry He Hfresh. eexists. split; [now apply getSchema_hit|]. split.
    + unfold newEvents. cbn. now rewrite skipn_all.
    + reflexivity.
  - intros Hstale p w1 w2 Hpool Hswitch.
    rewrite (getSchema_stale env fuel K w Hw Hstale).
    rewrite (fetchSchema_run env fuel K _ p w1 w2 Hpool Hswitch).
    set (w0 := afterCacheCheck env w K) in *.
    assert (Hw0 : trace w0 = trace w /\ schemaCache w0 = schemaCache w).
    { unfold w0, afterCacheCheck. destruct (schemaCache w !! K); split; reflexivity. }
    destruct Hw0 as [Htrace0 Hcache0].
    destruct (sat_getPool env fuel 0 _ _ _ Hpool) as [(evs1 & Happ1 & Hall1) _].
    destruct (sat_switchDatabase env noStatement p [] invalidSchemaDatabaseName K
                (fun _ => I) _ _ _ Hswitch) as [(evs2 & Happ2 & Hall2) _].
    pose proof (preserves_getPool env fuel 0 _ _ _ Hpool) as Hview1.
    pose proof (preserves_switchDatabase env p [] invalidSchemaDatabaseName K _ _ _ Hswitch)
      as Hview2.
    unfold cacheView in Hview1, Hview2.
    injection Hview1 as Hc1 Hr1. injection Hview2 as Hc2 Hr2.
    unfold appended in Happ1, Happ2.
    assert (Hcount : forall evs3,
               metadataQueries evs3 = 0%nat ->
               metadataQueries
                 (skipn (length (trace w))
                        ((trace w2 ++ [EvMetadataQuery (poolId p)]) ++ evs3)) = 1%nat).
    { intros evs3 H3. rewrite Happ2, Happ1, Htrace0, <- !app_assoc.
      rewrite skipn_app, skipn_all, Nat.sub_diag, skipn_O. cbn [app].
      rewrite !metadataQueries_app. change (EvMetadataQuery (poolId p) :: evs3)
        with ([EvMetadataQuery (poolId p)] ++ evs3)%list.
      rewrite metadataQueries_app, H3.
      rewrite (metadataQueries_noStatement evs1), (metadataQueries_noStatement evs2); auto.
      eapply List.Forall_impl; [apply poolEvent_noStatement | exact Hall1]. }
    destruct (metadataOutcome env (length (trace w2))) as [recordset|e] eqn:Hmeta.
    + do 2 eexists. split; [reflexivity|]. split.
      * unfold newEvents. cbn. rewrite <- (app_nil_r (_ ++ [_])). now apply Hcount.
      * intros rs [= <-]. split; [reflexivity|]. cbn.
        now rewrite Hr2, Hr1, Hc2, Hc1, Hcache0.
    + destruct (getSchemaCatch env fuel K (thrownOf e)
                  (snd (emit (EvMetadataQuery (poolId p)) w2))) as [o w'] eqn:Ecatch.
      destruct (sat_getSchemaCatch env noStatement fuel K (thrownOf e)
                  poolEvent_noStatement (thrownOf_notPermission _) _ _ _ Ecatch)
        as [(evs3 & Happ3 & Hall3) _].
      exists o, w'. split; [reflexivity|]. split; [|discriminate].
      unfold newEvents. unfold appended in Happ3. cbn in Happ3. rewrite Happ3.
      apply Hcount. now apply metadataQueries_noStatement.
Qed.

(** An entry stored at time 0 by a first call, and a TTL of 300000. *)
Definition cachedWorld : World :=
  snd (getSchema demoEnv 1 "master" liveWorld).

Lemma getSchema_cache_ttl_witness :
  (exists entry w',
      schemaCache cachedWorld !! "master" = Some entry
      /\ getSchema demoEnv 1 "master" cachedWorld = (Returned (data entry), w')
      /\ newEvents cachedWorld w' = []
      /\ schemaCache w' = schemaCache cachedWorld)
  /\ (exists o w',
         getSchema demoEnv 1 "master" liveWorld = (o, w')
         /\ metadataQueries (newEvents liveWorld w') = 1%nat
         /\ o = Returned (assembleTables demoSchemaRows)
         /\ schemaCache w'
            = <[ "master" := {| timestamp := 0; data := assembleTables demoSchemaRows |} ]>
                (schemaCache liveWorld)).
Proof.
  split.
  - destruct (getSchema_cache_ttl demoEnv 1 "master" cachedWorld eq_refl) as [Hhit _].
    exists {| timestamp := 0; data := assembleTables demoSchemaRows |}.
    destruct (Hhit {| timestamp := 0; data := assembleTables demoSchemaRows |})
      as (w' & H1 & H2 & H3); [reflexivity | reflexivity |].
    exists w'. repeat split; assumption.
  - destruct (getSchema_cache_ttl demoEnv 1 "master" liveWorld eq_refl) as [_ Hmiss].
    destruct (Hmiss (or_introl eq_refl) demoPool liveWorld liveWorld eq_refl eq_refl)
      as (o & w' & H1 & H2 & H3).
    destruct (H3 demoSchemaRows eq_refl) as [H4 H5].
    exists o, w'. repeat split; assumption.
Defined.

(** ** What a call that returns leaves behind *)

(** When [m] starts in a state that satisfies [P] and returns [a], the
    state it leaves satisfies [Q a]. *)
Definition triple {A} (P : World -> Prop) (m : M A) (Q : A -> World -> Prop) : Prop :=
  forall w a w', P w -> m w = (Returned a, w') -> Q a w'.

Section TripleRules.

Context {A B : Type}.

Lemma triple_weaken (P P' : World -> Prop) (Q Q' : A -> World -> Prop) (m : M A) :
  (forall w, P w -> P' w) -> (forall a w, Q' a w -> Q a w) -> triple P' m Q' -> triple P m Q.
Proof. intros HP HQ Hm w a w' Hw Hrun. eapply HQ, Hm; eauto. Qed.

Lemma triple_ret (P : World -> Prop) (Q : A -> World -> Prop) (a : A) :
  (forall w, P w -> Q a w) -> triple P (ret a) Q.
Proof. intros H w a' w' Hw [= <- <-]. auto. Qed.

Lemma triple_never (P : World -> Prop) (Q : A -> World -> Prop) (m : M A) :
  neverReturns m -> triple P m Q.
Proof. intros Hm w a w' _ Hrun. destruct (Hm _ _ _ Hrun a eq_refl). Qed.

Lemma triple_bind (P : World -> Prop) (R : A -> World -> Prop) (Q : B -> World -> Prop)
      (m : M A) (k : A -> M B) :
  triple P m R -> (forall a, triple (R a) (k a) Q) -> triple P (bind m k) Q.
Proof.
  intros Hm Hk w b w' Hw Hrun. unfold bind in Hrun.
  destruct (m w) as [[a|t| |] w1] eqn:Em; try discriminate Hrun.
  eapply Hk; [eapply Hm; eauto|exact Hrun].
Qed.

(** The state [m] leaves is of no account. *)
Lemma triple_bind_any (P : World -> Prop) (Q : B -> World -> Prop) (m : M A) (k : A -> M B) :
  (forall a, triple (fun _ => True) (k a) Q) -> triple P (bind m k) Q.
Proof.
  intros Hk. apply (triple_bind P (fun _ _ => True)); [|exact Hk].
  intros w a w' _ _. exact I.
Qed.

Lemma triple_bind_get (P : World -> Prop) (Q : B -> World -> Prop) (k : World -> M B) :
  (forall w0, P w0 -> triple (fun w => w = w0) (k w0) Q) -> triple P (bind get k) Q.
Proof.
  intros Hk w b w' Hw Hrun. unfold bind, get in Hrun.
  exact (Hk w Hw w b w' eq_refl Hrun).
Qed.

Lemma triple_tryCatch (P : World -> Prop) (Q : A -> World -> Prop)
      (body : M A) (handler : Thrown -> M A) :
  triple P body Q -> (forall t, triple (fun _ => True) (handler t) Q) ->
  triple P (tryCatch body handler) Q.
Proof.
  intros Hb Hh w a w' Hw Hrun. unfold tryCatch in Hrun.
  destruct (body w) as [[b|t| |] w1] eqn:Eb; try discriminate Hrun.
  - injection Hrun as <- <-. eapply Hb; eauto.
  - eapply Hh; [exact I|exact Hrun].
Qed.

End TripleRules.

Lemma triple_true {A} (P : World -> Prop) (Q : A -> World -> Prop) (m : M A) :
  triple (fun _ => True) m Q -> triple P m Q.
Proof. apply triple_weaken; auto. Qed.

(** The pool [p] is the one the service holds, and it is connected. *)
Definition held (p : Pool) (w : World) : Prop :=
  pool w = Some p /\ connected p = true.

Section PoolReturned.

Variable env : Env.

Lemma awaitOngoing_held :
  triple (fun _ => True) awaitOngoing (fun watched w => forall p, watched = Some p -> held p w).
Proof.
  unfold awaitOngoing. apply triple_bind_get. intros w0 _.
  destruct (connectionPromise w0) as [promise|];
    [destruct (isConnecting w0)|]; try (apply triple_ret; intros; discriminate).
  apply triple_tryCatch.
  - apply triple_bind_any. intros poolFromPromise. apply triple_bind_get. intros w1 _.
    destruct (poolConnected (pool w1) && samePool (pool w1) poolFromPromise) eqn:E;
      [|apply triple_ret; intros; discriminate].
    apply triple_ret. intros w -> p Hp. split; [exact Hp|].
    apply andb_true_iff in E as [E _]. rewrite Hp in E. exact E.
  - intros t. apply triple_bind_any. intros _. apply triple_ret. intros; discriminate.
Qed.

Lemma getPoolBody_held (again : nat -> M Pool) :
  (forall a, triple (fun _ => True) (again a) held) ->
  forall a, triple (fun _ => True) (getPoolBody env again a) held.
Proof.
  intros IH a. unfold getPoolBody.
  assert (triple (fun _ => True)
            (watched <- awaitOngoing ;;
             match watched with
             | Some p => ret p
             | None =>
                 w <- get ;;
                 if isConnecting w then sleep (briefWait env) ;; again a
                 else
                   setIsConnecting true ;;
                   tryCatch
                     (initPool env ;;
                      w' <- get ;;
                      match pool w' with
                      | Some p =>
                          if connected p then
                            setIsConnecting false ;; setConnectionRetries 0 ;; ret p
                          else throwError (fromError
                                 (TString "DatabaseService: Pool not connected after initPool resolved without error.")
                                 CONNECTION_ERROR None)
                      | None => throwError (fromError
                                 (TString "DatabaseService: Pool not connected after initPool resolved without error.")
                                 CONNECTION_ERROR None)
                      end)
                     (fun error =>
                        setIsConnecting false ;;
                        let mssqlError := fromError error CONNECTION_ERROR None in
                        if Z.of_nat a <? maxRetries (sqlConfig env) - 1 then
                          rnd <- readRandom env ;;
                          sleep (retryDelay env a rnd) ;;
                          again (S a)
                        else throwError (retriesExhausted env mssqlError))
             end) held) as Hestablish.
  { eapply triple_bind; [apply awaitOngoing_held|]. intros [p|].
    - apply triple_ret. intros w H. now apply H.
    - apply triple_true, triple_bind_get. intros w0 _.
      destruct (isConnecting w0).
      + apply triple_bind_any. intros _. apply IH.
      + apply triple_bind_any. intros _. apply triple_tryCatch.
        * apply triple_bind_any. intros _. apply triple_bind_get. intros w1 _.
          destruct (pool w1) as [p|] eqn:Hp;
            [destruct (connected p) eqn:Hc|];
            try (apply triple_never, neverReturns_throwError).
          intros w p' w' -> [= <- <-]. split; [exact Hp|exact Hc].
        * intros t. apply triple_bind_any. intros _. cbv zeta.
          destruct (Z.of_nat a <? maxRetries (sqlConfig env) - 1);
            [|apply triple_never, neverReturns_throwError].
          apply triple_bind_any. intros rnd. apply triple_bind_any. intros _. apply IH. }
  apply triple_bind_get. intros w0 _.
  destruct (pool w0) as [p|] eqn:Hp; [destruct (connected p) eqn:Hc|];
    try (apply triple_true, Hestablish).
  apply triple_ret. intros w ->. split; assumption.
Qed.

Lemma getPool_held (fuel : nat) : forall a, triple (fun _ => True) (getPool env fuel a) held.
Proof.
  induction fuel as [|fuel IH]; intros a; cbn [getPool].
  - intros w p w' _ H. discriminate H.
  - now apply getPoolBody_held.
Qed.

End PoolReturned.

(** ** Self-heal after a connection failure *)








Lemma includes_app_r a s sub : Js.includes s sub = true -> Js.includes (a ++ s) sub = true.
Proof.
  intros H. induction a as [|c a IH]; [exact H|].
  change (String c a ++ s) with (String c (a ++ s)).
  cbn -[Js.startsWith]. rewrite IH. apply orb_true_r.
Qed.


Lemma closePool_returns w : fst (closePool w) = Returned tt /\ pool (snd (closePool w)) = None.
Proof.
  unfold closePool, bind, get, when, setAbortController, setPool, setConnectionPromise,
    closeInstance, emit, modify, ret.
  destruct (bool_decide _); cbn; destruct (pool w) eqn:E; cbn; auto.
Qed.







Section SelfHeal.

Variable env : Env.
Let cfg := sqlConfig env.


Lemma startsWith_self p : Js.startsWith p p = true.
Proof. induction p as [|c p IH]; cbn -[Ascii.eqb]; [reflexivity|]. now rewrite Ascii.eqb_refl. Qed.

Lemma includes_self p : Js.includes p p = true.
Proof. pose proof (startsWith_self p) as H. destruct p; cbn -[Js.startsWith]; now rewrite H. Qed.









End SelfHeal.





(** ** Bounded retries of getPool *)

(** No pool and nothing in flight: the state named Absent. *)
Definition absent (w : World) : Prop :=
  pool w = None /\ connectionPromise w = None /\ isConnecting w = false.

Definition alwaysFails (env : Env) : Prop :=
  forall pos c, connectOutcome env pos <> Connected c.

(** The events of one failed attempt on a pool instance. *)
Definition failedAttempt (inst : nat) : list Event :=
  [EvConnect inst; EvClose inst; EvClose inst].

(** The service after a failed attempt from the Absent state. *)
Definition afterFailedAttempt (w : World) : World :=
  {| pool := None; connectionPromise := None; isConnecting := false;
     abortController := None; schemaCache := schemaCache w;
     connectionRetries := connectionRetries w;
     trace := trace w ++ failedAttempt (S (nextId w));
     nextId := S (S (nextId w));
     randomReads := randomReads w; clockReads := clockReads w |}.

(** And after the wait that follows attempt [k]. *)
Definition afterBackoff (env : Env) (k : nat) (w : World) : World :=
  {| pool := None; connectionPromise := None; isConnecting := false;
     abortController := None; schemaCache := schemaCache w;
     connectionRetries := connectionRetries w;
     trace := trace w ++ [EvSleep (retryDelay env k (random env (randomReads w)))];
     nextId := nextId w;
     randomReads := S (randomReads w); clockReads := clockReads w |}.

Lemma fromError_connectFailure env failure :
  fromError (TError (connectFailure env failure)) CONNECTION_ERROR None
  = connectFailure env failure.
Proof. destruct failure as [c|[m c s|s|m]|]; reflexivity. Qed.

(** One turn of [getPool] from the Absent state when the connect fails. *)
Lemma getPoolBody_failed_attempt env again k w :
  absent w ->
  passwordMissing (sqlConfig env) = false ->
  (forall c, connectOutcome env (length (trace w)) <> Connected c) ->
  getPoolBody env again k w
  = if Z.of_nat k <? maxRetries (sqlConfig env) - 1
    then again (S k) (afterBackoff env k (afterFailedAttempt w))
    else (Threw (TError (retriesExhausted env
                           (connectFailure env (connectOutcome env (length (trace w)))))),
          afterFailedAttempt w).
Proof.
  intros (Hp & Hc & Hi) Hpw Hfail.
  destruct w as [pl cp ic ac sc cr tr ni rr ck]. cbn in Hp, Hc, Hi, Hfail. subst pl cp ic.
  unfold getPoolBody, awaitOngoing, initPool, initPoolAttempt, connectAttempt.
  unfold bind, tryCatch, get, ret, emit, modify, setIsConnecting, freshId, setAbortController,
    closeInstance, setConnectionPromise, when, throwError, throw, readRandom, sleep.
  cbn -[connectFailure fromError retriesExhausted retryDelay].
  rewrite Hpw. cbn -[connectFailure fromError retriesExhausted retryDelay].
  destruct (connectOutcome env (length tr)) as [c|r|] eqn:Eo; [now destruct (Hfail c)| |];
    cbn -[connectFailure fromError retriesExhausted retryDelay];
    rewrite Nat.eqb_refl; cbn -[connectFailure fromError retriesExhausted retryDelay];
    rewrite fromError_connectFailure;
    unfold afterBackoff, afterFailedAttempt, failedAttempt;
    destruct (Z.of_nat k <? maxRetries (sqlConfig env) - 1); f_equal;
    cbn -[connectFailure fromError retriesExhausted retryDelay];
    rewrite <- ?app_assoc; reflexivity.
Qed.

(** The events of [n] failed attempts in a row, the first one numbered
    [k] on instance [inst], with the waits between them. *)
Fixpoint retryEvents (env : Env) (inst reads k n : nat) : list Event :=
  match n with
  | O => []
  | S n' =>
      failedAttempt inst ++
      match n' with
      | O => []
      | S _ =>
          EvSleep (retryDelay env k (random env reads))
            :: retryEvents env (S (S inst)) (S reads) (S k) n'
      end
  end.

Lemma getPool_exhausts env m : forall k w fuel,
  absent w ->
  passwordMissing (sqlConfig env) = false ->
  alwaysFails env ->
  Z.of_nat k + Z.of_nat (S m) = maxRetries (sqlConfig env) ->
  (S m <= fuel)%nat ->
  exists w',
    getPool env fuel k w
    = (Threw (TError (retriesExhausted env
                        (connectFailure env
                           (connectOutcome env (length (trace w) + 4 * m))))), w')
    /\ trace w' = (trace w ++ retryEvents env (S (nextId w)) (randomReads w) k (S m))%list.
Proof.
  induction m as [|m IH]; intros k w fuel Habs Hpw Hfail Hmax Hfuel.
  - destruct fuel as [|fuel]; [lia|]. cbn [getPool].
    rewrite getPoolBody_failed_attempt by auto.
    replace (Z.of_nat k <? maxRetries (sqlConfig env) - 1) with false
      by (symmetry; apply Z.ltb_ge; lia).
    rewrite Nat.mul_0_r, Nat.add_0_r. eexists. split; reflexivity.
  - destruct fuel as [|fuel]; [lia|]. cbn [getPool].
    rewrite getPoolBody_failed_attempt by auto.
    replace (Z.of_nat k <? maxRetries (sqlConfig env) - 1) with true
      by (symmetry; apply Z.ltb_lt; lia).
    destruct (IH (S k) (afterBackoff env k (afterFailedAttempt w)) fuel)
      as (w' & Hrun & Htrace); auto; try lia.
    { repeat split. }
    exists w'. split.
    + rewrite Hrun.
      assert (Hlen : (length (trace (afterBackoff env k (afterFailedAttempt w))) + 4 * m
                      = length (trace w) + 4 * S m)%nat).
      { unfold afterBackoff, afterFailedAttempt, failedAttempt. cbn [trace].
        rewrite !length_app. cbn [length]. lia. }
      now rewrite Hlen.
    + rewrite Htrace. cbn -[retryEvents]. rewrite <- !app_assoc. reflexivity.
Qed.

Definition isConnect (ev : Event) : bool :=
  match ev with EvConnect _ => true | _ => false end.

(** How many times a history calls [connect]. *)
Definition connectAttempts (evs : list Event) : nat := length (List.filter isConnect evs).

(** The waits of a history, in order. *)
Fixpoint delaysOf (evs : list Event) : list Q :=
  match evs with
  | [] => []
  | EvSleep ms :: rest => ms :: delaysOf rest
  | _ :: rest => delaysOf rest
  end.

Lemma retryEvents_step env inst reads k n :
  retryEvents env inst reads k (S (S n))
  = (failedAttempt inst
       ++ EvSleep (retryDelay env k (random env reads))
       :: retryEvents env (S (S inst)) (S reads) (S k) (S n))%list.
Proof. reflexivity. Qed.

Lemma connectAttempts_retryEvents env n : forall inst reads k,
  connectAttempts (retryEvents env inst reads k n) = n.
Proof.
  induction n as [|n IH]; intros inst reads k; [reflexivity|].
  destruct n as [|n]; [reflexivity|].
  rewrite retryEvents_step. unfold connectAttempts in *.
  cbn [failedAttempt app List.filter isConnect length]. now rewrite IH.
Qed.

Lemma delaysOf_retryEvents env n : forall inst reads k,
  delaysOf (retryEvents env inst reads k n)
  = map (fun i => retryDelay env (k + i) (random env (reads + i))) (seq 0 (n - 1)).
Proof.
  induction n as [|n IH]; intros inst reads k; [reflexivity|].
  destruct n as [|n]; [reflexivity|].
  rewrite retryEvents_step. cbn [failedAttempt app delaysOf]. rewrite IH.
  replace (S (S n) - 1)%nat with (S (S n - 1)) by lia.
  cbn [seq map]. rewrite !Nat.add_0_r. f_equal.
  rewrite <- seq_shift, map_map. apply map_ext. intros i.
  now rewrite !Nat.add_succ_r.
Qed.

Lemma retryDelay_capped env k rnd :
  (retryDelay env k rnd <= inject_Z (maxRetryDelay (sqlConfig env)))%Q.
Proof. unfold retryDelay. apply Q.le_min_r. Qed.

(** With an initial delay of at least the bound of the jitter, the next
    wait is no shorter. *)
Lemma retryDelay_grows env k r1 r2 :
  1000 <= initialRetryDelay (sqlConfig env) ->
  (0 <= r1 < 1)%Q -> (0 <= r2 < 1)%Q ->
  (retryDelay env k r1 <= retryDelay env (S k) r2)%Q.
Proof.
  intros Hinit [H1 H1'] [H2 H2']. unfold retryDelay.
  apply Q.min_le_compat_r.
  set (base := initialRetryDelay (sqlConfig env) * 2 ^ Z.of_nat k).
  assert (Hnext : initialRetryDelay (sqlConfig env) * 2 ^ Z.of_nat (S k) = 2 * base).
  { unfold base. rewrite Nat2Z.inj_succ, Z.pow_succ_r by lia. ring. }
  assert (Hbase : 1000 <= base).
  { unfold base. pose proof (Z.pow_pos_nonneg 2 (Z.of_nat k)) as Hp. nia. }
  rewrite Hnext, inject_Z_mult.
  assert (Hq : (inject_Z 1000 <= inject_Z base)%Q) by (rewrite <- Zle_Qle; exact Hbase).
  change (inject_Z 1000) with 1000%Q in Hq. change (inject_Z 2) with 2%Q.
  lra.
Qed.

Lemma sorted_map_seq (f : nat -> Q) n : forall a,
  (forall i, (f i <= f (S i))%Q) -> Sorted Qle (map f (seq a n)).
Proof.
  induction n as [|n IH]; intros a Hf; cbn; [constructor|].
  constructor; [now apply IH|].
  destruct n; cbn; constructor. apply Hf.
Qed.

Lemma connectFailure_no_attempts env failure :
  default ∅ (errDetails (connectFailure env failure)) !! "attempts" = None.
Proof.
  destruct failure as [c|[m c s|s|m]|]; cbn; unfold spread;
    repeat (rewrite lookup_union_None; split);
    try apply lookup_empty; try (now apply lookup_singleton_ne).
  destruct (Js.truthy s); [now apply lookup_singleton_ne | apply lookup_empty].
Qed.

Lemma retriesExhausted_attempts env failure :
  default ∅ (errDetails (retriesExhausted env (connectFailure env failure))) !! "attempts"
  = Some (DNum (maxRetries (sqlConfig env))).
Proof.
  unfold retriesExhausted, spread. cbn [errDetails default from_option].
  change (id ?x) with x.
  rewrite lookup_union_r by apply connectFailure_no_attempts.
  apply lookup_singleton_eq.
Qed.

(** C3, as the code has it: from the Absent state, with a password, a
    maximum of N >= 1 attempts and a connect that fails every time,
    [getPool] calls [connect] exactly N times, waits between attempt k
    and the next min(initialRetryDelay * 2^k + jitter, maxRetryDelay)
    for k from 0, every wait being at most maxRetryDelay, and then
    throws a connection error that carries the message and the cause of
    the last failure and whose [attempts] detail is N.  The waits are
    non-decreasing when initialRetryDelay is at least 1000, the bound of
    the jitter. *)
Theorem getPool_retries_then_fails (env : Env) (fuel N : nat) (w : World) :
  let cfg := sqlConfig env in
  maxRetries cfg = Z.of_nat N ->
  (1 <= N)%nat ->
  (N <= fuel)%nat ->
  passwordMissing cfg = false ->
  absent w ->
  alwaysFails env ->
  exists w' m d,
    let last := connectFailure env (connectOutcome env (length (trace w) + 4 * (N - 1))) in
    let delays := delaysOf (newEvents w w') in
    getPool env fuel 0 w
    = (Threw (TError (MssqlMcpError m CONNECTION_ERROR (errOriginal last) (Some d))), w')
    /\ Js.includes m (errMessage last) = true
    /\ d !! "attempts" = Some (DNum (Z.of_nat N))
    /\ connectAttempts (newEvents w w') = N
    /\ delays = map (fun k => retryDelay env k (random env (randomReads w + k))) (seq 0 (N - 1))
    /\ Forall (fun ms => (ms <= inject_Z (maxRetryDelay cfg))%Q) delays
    /\ (1000 <= initialRetryDelay cfg ->
        (forall k, (0 <= random env k < 1)%Q) ->
        Sorted Qle delays).
Proof.
  intros cfg Hmax HN Hfuel Hpw Habs Hfail.
  destruct N as [|n]; [lia|].
  destruct (getPool_exhausts env n 0 w fuel Habs Hpw Hfail) as (w' & Hrun & Htrace);
    [fold cfg; lia | exact Hfuel |].
  replace (S n - 1)%nat with n by lia.
  assert (Hnew : newEvents w w' = retryEvents env (S (nextId w)) (randomReads w) 0 (S n)).
  { now apply newEvents_appended. }
  exists w'. do 2 eexists. cbn zeta. rewrite Hnew, Hrun.
  split; [reflexivity|]. split; [|split; [|split; [|split; [|split]]]].
  - unfold retriesExhausted. cbn [errMessage]. do 3 apply includes_app_r. apply includes_self.
  - pose proof (retriesExhausted_attempts env
                  (connectOutcome env (length (trace w) + 4 * n))) as Hatt.
    fold cfg in Hatt. rewrite Hmax in Hatt. exact Hatt.
  - apply connectAttempts_retryEvents.
  - rewrite delaysOf_retryEvents. replace (S n - 1)%nat with n by lia. reflexivity.
  - rewrite delaysOf_retryEvents. apply List.Forall_forall.
    intros ms (k & <- & _)%in_map_iff. apply retryDelay_capped.
  - intros Hinit Hrnd. rewrite delaysOf_retryEvents.
    apply (sorted_map_seq (fun i => retryDelay env (0 + i) (random env (randomReads w + i)))).
    intros i. cbn [Nat.add]. now apply retryDelay_grows.
Qed.

Lemma getPool_retries_then_fails_witness :
  exists w' m d,
    getPool downEnv 3 0 freshWorld
    = (Threw (TError (MssqlMcpError m CONNECTION_ERROR
                        (Some (PlainError "getaddrinfo ENOTFOUND" None "at connect"))
                        (Some d))), w')
    /\ Js.includes m "getaddrinfo ENOTFOUND" = true
    /\ d !! "attempts" = Some (DNum 3)
    /\ connectAttempts (newEvents freshWorld w') = 3%nat
    /\ delaysOf (newEvents freshWorld w')
       = map (fun k => retryDelay downEnv k (random downEnv (0 + k))) (seq 0 2)
    /\ Forall (fun ms => (ms <= 10000)%Q) (delaysOf (newEvents freshWorld w'))
    /\ Sorted Qle (delaysOf (newEvents freshWorld w')).
Proof.
  destruct (getPool_retries_then_fails downEnv 3 3 freshWorld)
    as (w' & m & d & H1 & H2 & H3 & H4 & H5 & H6 & H7);
    [reflexivity | lia | lia | reflexivity | repeat split | intros pos c; discriminate |].
  exists w', m, d. repeat split; try assumption.
  apply H7; [cbn; lia|]. intros k. cbn. split; [discriminate | reflexivity].
Defined.

(** C3 as stated fails on the order of the waits: with an initial delay
    of 100 ms and a cap of 1000 ms, a jitter of 900 ms and then of 0 ms,
    the first wait is 1000 ms and the second 200 ms. *)
Lemma getPool_delays_decrease_counterexample :
  alwaysFails jitterEnv
  /\ (forall k, (0 <= random jitterEnv k < 1)%Q)
  /\ ~ Sorted Qle (delaysOf (newEvents freshWorld (snd (getPool jitterEnv 3 0 freshWorld)))).
Proof.
  split; [intros pos c; discriminate|]. split.
  - intros [|k]; cbn; split; try discriminate; reflexivity.
  - assert (Hd : delaysOf (newEvents freshWorld (snd (getPool jitterEnv 3 0 freshWorld)))
                 = [10000 # 10; 200 # 1]) by (vm_compute; reflexivity).
    rewrite Hd. intros Hs. inversion Hs as [|? ? _ Hhd]. inversion Hhd as [|? ? Hle].
    unfold Qle in Hle. cbn in Hle. lia.
Qed.

(** ** Concurrent calls: one attempt at a time *)

Section SingleFlightFacts.

Import SingleFlight.

(** The attempt [x] awaits [connect] under a signal that is not aborted. *)
Definition liveRacing (c : Config) (x : nat) : Prop :=
  exists att, attempts c !! x = Some att /\ phase att = Racing /\ aborted att = false.

(** The promise of attempt [x] is not settled. *)
Definition pending (c : Config) (x : nat) : Prop :=
  exists att, attempts c !! x = Some att /\ phase att <> Resolved /\ phase att <> Rejected.

(** Attempt [x] resolved with its pool. *)
Definition resolvedWithPool (c : Config) (x : nat) : Prop :=
  exists att, attempts c !! x = Some att /\ phase att = Resolved.

(** Every attempt that races under a live signal is the one whose
    controller the service holds. *)
Definition guarded (c : Config) : Prop :=
  forall x, liveRacing c x -> abortController c = Some x.

Lemma guarded_initial : guarded initial.
Proof. intros x (att & H & _). discriminate H. Qed.

Lemma guarded_frame (c c' : Config) :
  attempts c' = attempts c -> abortController c' = abortController c ->
  guarded c -> guarded c'.
Proof.
  intros Ha Hc G x (att & H1 & H2 & H3). rewrite Hc. apply G.
  exists att. rewrite <- Ha. auto.
Qed.

(** An update of one attempt that creates no live racing attempt. *)
Lemma liveRacing_alter (f : Attempt -> Attempt) (y : nat) (c c' : Config) (x : nat) :
  attempts c' = alter f y (attempts c) ->
  (forall a, phase (f a) = Racing -> aborted (f a) = false ->
             phase a = Racing /\ aborted a = false) ->
  liveRacing c' x -> liveRacing c x.
Proof.
  intros Ha Hf (att & H1 & H2 & H3). rewrite Ha in H1.
  destruct (decide (y = x)) as [->|Hne].
  - rewrite list_lookup_alter_eq in H1.
    destruct (attempts c !! x) as [a|] eqn:E; [|discriminate].
    cbn in H1. injection H1 as <-. exists a. split; [assumption|]. apply Hf; assumption.
  - rewrite list_lookup_alter_ne in H1 by assumption. exists att. auto.
Qed.

(** An update that leaves the updated attempt not live. *)
Lemma liveRacing_alter_ne (f : Attempt -> Attempt) (y : nat) (c c' : Config) (x : nat) :
  attempts c' = alter f y (attempts c) ->
  (forall a, phase (f a) = Racing -> aborted (f a) = false -> False) ->
  liveRacing c' x -> x <> y.
Proof.
  intros Ha Hf (att & H1 & H2 & H3) ->. rewrite Ha, list_lookup_alter_eq in H1.
  destruct (attempts c !! y) as [a|]; [|discriminate].
  cbn in H1. injection H1 as <-. eauto.
Qed.

Lemma liveRacing_abort (y : nat) (c : Config) (x : nat) :
  liveRacing (abort y c) x -> liveRacing c x /\ x <> y.
Proof.
  intros H. split.
  - refine (liveRacing_alter _ y c (abort y c) x eq_refl _ H). cbn. intros a _ E. discriminate E.
  - refine (liveRacing_alter_ne _ y c (abort y c) x eq_refl _ H). cbn. intros a _ E. discriminate E.
Qed.

Lemma liveRacing_setPhase (y : nat) (ph : Phase) (c : Config) (x : nat) :
  ph <> Racing -> liveRacing (setPhase y ph c) x -> liveRacing c x /\ x <> y.
Proof.
  intros Hph H. split.
  - refine (liveRacing_alter _ y c (setPhase y ph c) x eq_refl _ H). cbn. intros a E. contradiction.
  - refine (liveRacing_alter_ne _ y c (setPhase y ph c) x eq_refl _ H). cbn. intros a E. contradiction.
Qed.

Lemma liveRacing_setConnected (y : nat) (b : bool) (c : Config) (x : nat) :
  liveRacing (setConnected y b c) x -> liveRacing c x.
Proof.
  intros H. refine (liveRacing_alter _ y c (setConnected y b c) x eq_refl _ H). cbn. auto.
Qed.

Lemma liveRacing_close (y : nat) (c : Config) (x : nat) :
  liveRacing (close y c) x -> liveRacing c x.
Proof.
  intros H. refine (liveRacing_alter _ y c (close y c) x eq_refl _ H). cbn. auto.
Qed.

Lemma guarded_setPhase (y : nat) (ph : Phase) (c : Config) :
  ph <> Racing -> guarded c -> guarded (setPhase y ph c).
Proof.
  intros Hph G x H. apply liveRacing_setPhase in H as [H _]; [|assumption].
  apply (G x H).
Qed.

Lemma guarded_setConnected (y : nat) (b : bool) (c : Config) :
  guarded c -> guarded (setConnected y b c).
Proof. intros G x H. apply liveRacing_setConnected in H. apply (G x H). Qed.

Lemma guarded_close (y : nat) (c : Config) : guarded c -> guarded (close y c).
Proof. intros G x H. apply liveRacing_close in H. apply (G x H). Qed.

(** Once the held controller is aborted no attempt is live. *)
Lemma abort_held_controller (y : nat) (c : Config) (x : nat) :
  guarded c -> abortController c = Some y -> ~ liveRacing (abort y c) x.
Proof.
  intros G Hc H. apply liveRacing_abort in H as [H Hne].
  apply G in H. congruence.
Qed.

Lemma no_controller_no_live (c : Config) (x : nat) :
  guarded c -> abortController c = None -> ~ liveRacing c x.
Proof. intros G Hc H. apply G in H. congruence. Qed.

Lemma guarded_closePoolBegin (c : Config) :
  guarded c -> guarded (fst (closePoolBegin c)).
Proof.
  intros G. unfold closePoolBegin.
  set (c1 := match abortController c with
             | Some x => setAbortController None (abort x c)
             | None => c
             end).
  assert (guarded c1) as G1.
  { subst c1. destruct (abortController c) as [y|] eqn:Hc; [|assumption].
    intros x H. exfalso. exact (abort_held_controller y c x G Hc H). }
  destruct (pool c1); cbn [fst]; [apply guarded_close|]; exact G1.
Qed.

Lemma guarded_closePoolEnd (c : Config) : guarded c -> guarded (closePoolEnd c).
Proof. apply guarded_frame; reflexivity. Qed.

Variable maxRetries : nat.
Variable havePassword : bool.

Lemma liveRacing_snoc (c c' : Config) (new : Attempt) (x : nat) :
  attempts c' = (attempts c ++ [new])%list ->
  liveRacing c' x -> liveRacing c x \/ x = length (attempts c).
Proof.
  intros Ha (att & H1 & H2 & H3). rewrite Ha in H1.
  apply lookup_app_Some in H1 as [H1|[Hle H1]].
  - left. exists att. auto.
  - right. apply lookup_lt_Some in H1. cbn in H1. lia.
Qed.

Lemma guarded_createAttempt (c : Config) :
  guarded c -> guarded (snd (createAttempt c)).
Proof.
  intros G x H. unfold createAttempt in *. cbn [snd] in *.
  set (c1 := match abortController c with
             | Some y => if negb (isAborted c y) then abort y c else c
             | None => c
             end) in *.
  cbn [abortController countConnect setConnectionPromise setAttempts setAbortController].
  eapply liveRacing_snoc with (c := c1) in H; [|reflexivity].
  destruct H as [H| ->]; [exfalso|reflexivity].
  subst c1. destruct (abortController c) as [y|] eqn:Hc.
  - destruct (negb (isAborted c y)) eqn:Hy.
    + exact (abort_held_controller y c x G Hc H).
    + pose proof (G x H) as Hx. rewrite Hc in Hx. injection Hx as ->.
      destruct H as (att & H1 & H2 & H3). unfold isAborted in Hy.
      rewrite H1, H3 in Hy. discriminate Hy.
  - exact (no_controller_no_live c x G Hc H).
Qed.

Lemma guarded_initPoolCreate (a : nat) (c : Config) :
  guarded c -> guarded (snd (initPoolCreate havePassword a c)).
Proof.
  intros G. unfold initPoolCreate. destruct havePassword; [|assumption].
  pose proof (guarded_createAttempt c G) as H.
  destruct (createAttempt c) as [x c']. exact H.
Qed.

Lemma guarded_initPoolBegin (a : nat) (c : Config) :
  guarded c -> guarded (snd (initPoolBegin havePassword a c)).
Proof.
  intros G. unfold initPoolBegin.
  assert (guarded (snd (if poolConnected c then (Probing a, c)
                        else initPoolCreate havePassword a c))) as Hf.
  { destruct (poolConnected c); [assumption|]. apply guarded_initPoolCreate, G. }
  destruct (connectionPromise c); [destruct (liveController c)|]; assumption.
Qed.

Lemma guarded_claim (a : nat) (c : Config) :
  guarded c -> guarded (snd (claim havePassword a c)).
Proof.
  intros G. unfold claim. destruct (isConnecting c); [assumption|].
  apply guarded_initPoolBegin. revert G. apply guarded_frame; reflexivity.
Qed.

Lemma guarded_enter (a : nat) (c : Config) :
  guarded c -> guarded (snd (enter havePassword a c)).
Proof.
  intros G. unfold enter. destruct (poolConnected c); [assumption|].
  destruct (connectionPromise c); [destruct (isConnecting c)|];
    try assumption; apply guarded_claim, G.
Qed.

Lemma guarded_ownerCatch (a : nat) (c : Config) :
  guarded c -> guarded (snd (ownerCatch maxRetries a c)).
Proof.
  intros G. unfold ownerCatch.
  destruct (S a <? maxRetries)%nat; revert G; apply guarded_frame; reflexivity.
Qed.

Lemma guarded_ownerSuccess (a : nat) (c : Config) :
  guarded c -> guarded (snd (ownerSuccess maxRetries a c)).
Proof.
  intros G. unfold ownerSuccess. destruct (poolConnected c).
  - revert G. apply guarded_frame; reflexivity.
  - apply guarded_ownerCatch, G.
Qed.

Lemma guarded_runTask (t t' : Task) (probeOk : bool) (c c' : Config) :
  runTask maxRetries havePassword t probeOk c = Some (t', c') ->
  guarded c -> guarded c'.
Proof.
  intros H G.
  assert (forall r : Task * Config, Some r = Some (t', c') -> guarded (snd r) -> guarded c')
    as Hr by (intros r [= ->]; auto).
  destruct t as [a|a y|a|a|a|a|a [y| |]|a| | |ok]; cbn [runTask] in H.
  - eapply Hr; [exact H|]. apply guarded_enter, G.
  - destruct (phaseOf c y) as [[]|]; try discriminate H.
    + destruct (poolConnected c && bool_decide (pool c = Some y)).
      * injection H as _ <-. exact G.
      * eapply Hr; [exact H|]. apply guarded_claim, G.
    + eapply Hr; [exact H|]. apply guarded_claim. revert G. apply guarded_frame; reflexivity.
  - eapply Hr; [exact H|]. apply guarded_enter, G.
  - destruct probeOk.
    + injection H as _ <-. exact G.
    + pose proof (guarded_closePoolBegin c G) as Hc.
      destruct (closePoolBegin c) as [c1 awaits]. injection H as _ <-. exact Hc.
  - injection H as _ <-. apply guarded_closePoolEnd, G.
  - eapply Hr; [exact H|]. apply guarded_initPoolCreate, G.
  - destruct (phaseOf c y) as [[]|]; try discriminate H.
    + eapply Hr; [exact H|]. apply guarded_ownerSuccess, G.
    + eapply Hr; [exact H|]. apply guarded_ownerCatch, G.
  - eapply Hr; [exact H|]. apply guarded_ownerSuccess, G.
  - eapply Hr; [exact H|]. apply guarded_ownerCatch, G.
  - eapply Hr; [exact H|]. apply guarded_enter, G.
  - pose proof (guarded_closePoolBegin c G) as Hc.
    destruct (closePoolBegin c) as [c1 awaits]. injection H as _ <-. exact Hc.
  - injection H as _ <-. apply guarded_closePoolEnd, G.
  - discriminate H.
Qed.

Lemma guarded_attemptRethrow (x : nat) (c : Config) :
  guarded c -> guarded (attemptRethrow x c).
Proof.
  intros G. unfold attemptRethrow.
  set (c1 := if bool_decide (abortController c = Some x)
             then setAbortController None (abort x c) else c).
  assert (forall ph, ph <> Racing -> guarded (setPhase x ph c1)) as Hset.
  { intros ph Hph z H. apply liveRacing_setPhase in H as [H Hne]; [|assumption].
    subst c1. cbn [setPhase setAttempts abortController].
    destruct (bool_decide (abortController c = Some x)) eqn:Hc.
    - apply bool_decide_eq_true in Hc. exfalso.
      exact (abort_held_controller x c z G Hc H).
    - apply (G z H). }
  destruct (connectionPromise c1); [destruct (bool_decide (pool c1 = Some x))|];
    apply Hset; discriminate.
Qed.

Lemma guarded_runAttempt (x : nat) (ok : bool) (c c' : Config) :
  runAttempt x ok c = Some c' -> guarded c -> guarded c'.
Proof.
  unfold runAttempt. intros H G.
  destruct (attempts c !! x) as [att|]; [|discriminate H].
  destruct (phase att) as [| | | |y| |].
  - destruct (ok && negb (aborted att)); injection H as <-.
    + apply guarded_setPhase; [discriminate|]. apply guarded_setConnected.
      revert G. apply guarded_frame; reflexivity.
    + apply guarded_setPhase; [discriminate|apply guarded_close, G].
  - destruct (bool_decide (is_Some (pool c))); injection H as <-.
    + apply guarded_setPhase; [discriminate|]. apply guarded_closePoolBegin, G.
    + apply guarded_attemptRethrow. revert G. apply guarded_frame; reflexivity.
  - injection H as <-. apply guarded_setPhase; [discriminate|].
    apply guarded_closePoolEnd, G.
  - injection H as <-. apply guarded_attemptRethrow, G.
  - destruct (phaseOf c y) as [[]|]; try discriminate H; injection H as <-;
      (apply guarded_setPhase; [discriminate|]).
    + destruct (bool_decide (pool c = Some y)); [exact G|].
      revert G. apply guarded_frame; reflexivity.
    + destruct (bool_decide (pool c = None)); [exact G|].
      revert G. apply guarded_frame; reflexivity.
  - discriminate H.
  - discriminate H.
Qed.

Lemma guarded_step (l : Label) (c c' : Config) :
  step maxRetries havePassword l c = Some c' -> guarded c -> guarded c'.
Proof.
  intros H G. destruct l as [| |i probeOk|x ok|x]; cbn [step] in H.
  - injection H as <-. revert G. apply guarded_frame; reflexivity.
  - injection H as <-. revert G. apply guarded_frame; reflexivity.
  - destruct (tasks c !! i) as [t|]; [|discriminate H]. cbn in H.
    destruct (runTask maxRetries havePassword t probeOk c) as [[t' c1]|] eqn:E;
      [|discriminate H].
    cbn in H. injection H as <-.
    apply (guarded_frame c1); [reflexivity|reflexivity|].
    exact (guarded_runTask _ _ _ _ _ E G).
  - exact (guarded_runAttempt _ _ _ _ H G).
  - injection H as <-. apply guarded_setConnected, G.
Qed.

Lemma guarded_run (labels : list Label) (c c' : Config) :
  run maxRetries havePassword labels c = Some c' -> guarded c -> guarded c'.
Proof.
  revert c. induction labels as [|l rest IH]; intros c H G; cbn [run] in H.
  - injection H as <-. exact G.
  - destruct (step maxRetries havePassword l c) as [c1|] eqn:E; [|discriminate H].
    cbn in H. exact (IH c1 H (guarded_step _ _ _ E G)).
Qed.

(** *** A caller that finds the slot taken joins it *)

Lemma initPoolBegin_held (a : nat) (c : Config) (y : nat) :
  connectionPromise c = Some y -> liveController c = true ->
  initPoolBegin havePassword a c = (AwaitInitPool a (InitPromise y), c).
Proof. intros Hp Hl. unfold initPoolBegin. rewrite Hp, Hl. reflexivity. Qed.

Lemma claim_held (a : nat) (c : Config) (y : nat) :
  connectionPromise c = Some y -> liveController c = true ->
  claim havePassword a c
  = if isConnecting c then (BriefWait a, c)
    else (AwaitInitPool a (InitPromise y), setIsConnecting true c).
Proof.
  intros Hp Hl. unfold claim. destruct (isConnecting c); [reflexivity|].
  apply initPoolBegin_held; assumption.
Qed.

Lemma enter_joins (a : nat) (c : Config) (y : nat) :
  poolConnected c = false -> connectionPromise c = Some y ->
  isConnecting c = true \/ liveController c = true ->
  enter havePassword a c = (AwaitShared a y, c)
  \/ enter havePassword a c = (AwaitInitPool a (InitPromise y), setIsConnecting true c).
Proof.
  intros Hc Hp Hor. unfold enter. rewrite Hc, Hp.
  destruct (isConnecting c) eqn:Hi; [left; reflexivity|right].
  destruct Hor as [Hor|Hl]; [discriminate Hor|].
  rewrite (claim_held a c y Hp Hl), Hi. reflexivity.
Qed.

(** A call of [getPool] that finds no connected pool, finds the promise
    of [y] in [connectionPromise] and either [isConnecting] set or a
    controller that is not aborted, awaits that promise and calls
    [connect] no more. *)
Definition arrivalsJoin (c : Config) : Prop :=
  forall (i a y : nat) (probeOk : bool),
    tasks c !! i = Some (Entering a) ->
    poolConnected c = false ->
    connectionPromise c = Some y ->
    isConnecting c = true \/ liveController c = true ->
    exists c', step maxRetries havePassword (RunTask i probeOk) c = Some c'
               /\ connectCalls c' = connectCalls c
               /\ attempts c' = attempts c
               /\ (tasks c' !! i = Some (AwaitShared a y)
                   \/ tasks c' !! i = Some (AwaitInitPool a (InitPromise y))).

Lemma arrivals_join (c : Config) : arrivalsJoin c.
Proof.
  intros i a y probeOk Ht Hc Hp Hor. cbn [step]. rewrite Ht. cbn.
  pose proof (lookup_lt_Some _ _ _ Ht) as Hlt.
  destruct (enter_joins a c y Hc Hp Hor) as [-> | ->]; cbn.
  - eexists. split; [reflexivity|]. cbn. repeat split.
    left. apply list_lookup_insert_eq, Hlt.
  - eexists. split; [reflexivity|]. cbn. repeat split.
    right. apply list_lookup_insert_eq, Hlt.
Qed.

(** *** Calls of [getPool] alone *)

Definition getPoolCall (t : Task) : bool :=
  match t with
  | Probing _ | ProbeClosePool _ | ProbeAfterClosePool _ | CloseEntering | CloseAwaiting => false
  | _ => true
  end.

Definition noClosePool (labels : list Label) : bool :=
  forallb (fun l => match l with CallClosePool => false | _ => true end) labels.

(** The fields when only [getPool] is called: nothing was ever tried
    or all attempts failed ([Idle]); or one attempt [x] holds the
    promise and the controller, is not aborted, and either is on its
    way with no pool yet or has resolved with the pool, while every
    other attempt is rejected ([Holding]). *)
Inductive Mode (c : Config) : Prop :=
| Idle :
    pool c = None -> connectionPromise c = None -> abortController c = None ->
    (forall y att, attempts c !! y = Some att -> phase att = Rejected) ->
    Mode c
| Holding (x : nat) (att : Attempt) :
    connectionPromise c = Some x -> abortController c = Some x ->
    attempts c !! x = Some att -> aborted att = false ->
    (pool c = None /\ (phase att = Racing \/ phase att = CatchClosing))
    \/ (pool c = Some x /\ phase att = Resolved) ->
    (forall y att', attempts c !! y = Some att' -> y <> x -> phase att' = Rejected) ->
    Mode c.

Lemma Mode_initial : Mode initial.
Proof. apply Idle; try reflexivity. intros y att H. discriminate H. Qed.

Lemma Mode_frame (c c' : Config) :
  pool c' = pool c -> connectionPromise c' = connectionPromise c ->
  abortController c' = abortController c -> attempts c' = attempts c ->
  Mode c -> Mode c'.
Proof.
  intros H1 H2 H3 H4 [Hp Hc Ha Hall|x att Hc Ha Hx Hab Hph Hall].
  - apply Idle; rewrite ?H1, ?H2, ?H3, ?H4; assumption.
  - apply (Holding c' x att); rewrite ?H1, ?H2, ?H3, ?H4; assumption.
Qed.

Lemma Holding_held (c : Config) (x : nat) (att : Attempt) :
  abortController c = Some x -> attempts c !! x = Some att -> aborted att = false ->
  liveController c = true.
Proof.
  intros Ha Hx Hab. unfold liveController, isAborted. rewrite Ha, Hx, Hab. reflexivity.
Qed.

Lemma Mode_createAttempt (c : Config) :
  pool c = None -> abortController c = None ->
  (forall y att, attempts c !! y = Some att -> phase att = Rejected) ->
  Mode (snd (createAttempt c)).
Proof.
  intros Hp Ha Hall. unfold createAttempt. rewrite Ha. cbn [snd].
  apply (Holding _ (length (attempts c))
           {| phase := Racing; aborted := false; connected := false; closed := false |}); cbn.
  - reflexivity.
  - reflexivity.
  - rewrite lookup_app_r by lia. rewrite Nat.sub_diag. reflexivity.
  - reflexivity.
  - left. auto.
  - intros y att' Hy Hne. apply lookup_app_Some in Hy as [Hy|[Hle Hy]].
    + exact (Hall y att' Hy).
    + apply lookup_lt_Some in Hy. cbn in Hy. lia.
Qed.

Lemma Mode_initPoolBegin (a : nat) (c : Config) :
  Mode c ->
  Mode (snd (initPoolBegin havePassword a c))
  /\ getPoolCall (fst (initPoolBegin havePassword a c)) = true.
Proof.
  intros M. destruct M as [Hp Hc Ha Hall|x att Hc Ha Hx Hab Hph Hall].
  - unfold initPoolBegin, poolConnected. rewrite Hc, Hp.
    unfold initPoolCreate. destruct havePassword.
    + pose proof (Mode_createAttempt c Hp Ha Hall) as H.
      destruct (createAttempt c) as [x c']. split; [exact H|reflexivity].
    + split; [|reflexivity]. apply Idle; assumption.
  - rewrite (initPoolBegin_held a c x Hc (Holding_held c x att Ha Hx Hab)).
    split; [|reflexivity]. exact (Holding c x att Hc Ha Hx Hab Hph Hall).
Qed.

Lemma Mode_setIsConnecting (b : bool) (c : Config) : Mode c -> Mode (setIsConnecting b c).
Proof. apply Mode_frame; reflexivity. Qed.

Lemma Mode_claim (a : nat) (c : Config) :
  Mode c ->
  Mode (snd (claim havePassword a c)) /\ getPoolCall (fst (claim havePassword a c)) = true.
Proof.
  intros M. unfold claim. destruct (isConnecting c); [split; [exact M|reflexivity]|].
  apply Mode_initPoolBegin, Mode_setIsConnecting, M.
Qed.

Lemma Mode_enter (a : nat) (c : Config) :
  Mode c ->
  Mode (snd (enter havePassword a c)) /\ getPoolCall (fst (enter havePassword a c)) = true.
Proof.
  intros M. unfold enter. destruct (poolConnected c); [split; [exact M|reflexivity]|].
  destruct (connectionPromise c); [destruct (isConnecting c) eqn:Hi|].
  - split; [exact M|reflexivity].
  - apply Mode_claim, M.
  - apply Mode_claim, M.
Qed.

Lemma Mode_ownerCatch (a : nat) (c : Config) :
  Mode c ->
  Mode (snd (ownerCatch maxRetries a c))
  /\ getPoolCall (fst (ownerCatch maxRetries a c)) = true.
Proof.
  intros M. unfold ownerCatch.
  destruct (S a <? maxRetries)%nat; (split; [apply Mode_setIsConnecting, M|reflexivity]).
Qed.

Lemma Mode_ownerSuccess (a : nat) (c : Config) :
  Mode c ->
  Mode (snd (ownerSuccess maxRetries a c))
  /\ getPoolCall (fst (ownerSuccess maxRetries a c)) = true.
Proof.
  intros M. unfold ownerSuccess. destruct (poolConnected c).
  - split; [apply Mode_setIsConnecting, M|reflexivity].
  - apply Mode_ownerCatch, M.
Qed.

Lemma Mode_runTask (t t' : Task) (probeOk : bool) (c c' : Config) :
  runTask maxRetries havePassword t probeOk c = Some (t', c') ->
  getPoolCall t = true -> Mode c ->
  Mode c' /\ getPoolCall t' = true.
Proof.
  intros H Ht M.
  assert (forall r : Task * Config,
             Some r = Some (t', c') -> Mode (snd r) /\ getPoolCall (fst r) = true ->
             Mode c' /\ getPoolCall t' = true) as Hr by (intros r [= ->]; auto).
  destruct t as [a|a y|a|a|a|a|a [y| |]|a| | |ok]; cbn [runTask] in H;
    try discriminate Ht; try discriminate H.
  - eapply Hr; [exact H|]. apply Mode_enter, M.
  - destruct (phaseOf c y) as [[]|]; try discriminate H.
    + destruct (poolConnected c && bool_decide (pool c = Some y)).
      * injection H as <- <-. split; [exact M|reflexivity].
      * eapply Hr; [exact H|]. apply Mode_claim, M.
    + eapply Hr; [exact H|]. apply Mode_claim, Mode_setIsConnecting, M.
  - eapply Hr; [exact H|]. apply Mode_enter, M.
  - destruct (phaseOf c y) as [[]|]; try discriminate H.
    + eapply Hr; [exact H|]. apply Mode_ownerSuccess, M.
    + eapply Hr; [exact H|]. apply Mode_ownerCatch, M.
  - eapply Hr; [exact H|]. apply Mode_ownerSuccess, M.
  - eapply Hr; [exact H|]. apply Mode_ownerCatch, M.
  - eapply Hr; [exact H|]. apply Mode_enter, M.
Qed.

Lemma lookup_alter_inv (f : Attempt -> Attempt) (y : nat) (l : list Attempt)
      (z : nat) (a' : Attempt) :
  alter f y l !! z = Some a' ->
  exists a, l !! z = Some a /\ ((z <> y /\ a' = a) \/ (z = y /\ a' = f a)).
Proof.
  intros H. destruct (decide (y = z)) as [->|Hne].
  - rewrite list_lookup_alter_eq in H. destruct (l !! z) as [a|]; [|discriminate H].
    cbn in H. injection H as <-. exists a. auto.
  - rewrite list_lookup_alter_ne in H by assumption. exists a'. split; [assumption|].
    left. split; [congruence|reflexivity].
Qed.

(** An update of one attempt that keeps its phase and its signal. *)
Lemma Mode_alter (f : Attempt -> Attempt) (y : nat) (c : Config) :
  (forall a, phase (f a) = phase a /\ aborted (f a) = aborted a) ->
  Mode c -> Mode (setAttempts (alter f y (attempts c)) c).
Proof.
  intros Hf [Hp Hc Ha Hall|x att Hc Ha Hx Hab Hph Hall].
  - apply Idle; try assumption. cbn. intros z a' Hz.
    apply lookup_alter_inv in Hz as (a & Hz & [[_ ->]|[_ ->]]).
    + exact (Hall z a Hz).
    + rewrite (proj1 (Hf a)). exact (Hall z a Hz).
  - assert (exists att', alter f y (attempts c) !! x = Some att'
                         /\ phase att' = phase att /\ aborted att' = aborted att)
      as (att' & Hx' & Hph' & Hab').
    { destruct (decide (y = x)) as [->|Hne].
      - exists (f att). rewrite list_lookup_alter_eq, Hx. split; [reflexivity|apply Hf].
      - exists att. rewrite list_lookup_alter_ne by assumption. auto. }
    apply (Holding _ x att'); cbn; try assumption.
    + congruence.
    + rewrite Hph'. exact Hph.
    + intros z a' Hz Hne. apply lookup_alter_inv in Hz as (a & Hz & [[_ ->]|[_ ->]]).
      * exact (Hall z a Hz Hne).
      * rewrite (proj1 (Hf a)). exact (Hall z a Hz Hne).
Qed.

Lemma Mode_setConnected (y : nat) (b : bool) (c : Config) :
  Mode c -> Mode (setConnected y b c).
Proof. apply Mode_alter. intros a. split; reflexivity. Qed.

Lemma Mode_runAttempt (x : nat) (ok : bool) (c c' : Config) :
  runAttempt x ok c = Some c' -> Mode c -> Mode c'.
Proof.
  unfold runAttempt. intros H M.
  destruct (attempts c !! x) as [att|] eqn:Hx; [|discriminate H].
  destruct M as [Hp Hc Ha Hall|x0 att0 Hc Ha Hx0 Hab Hph Hall].
  { rewrite (Hall x att Hx) in H. discriminate H. }
  destruct (decide (x = x0)) as [->|Hne];
    [|rewrite (Hall x att Hx Hne) in H; discriminate H].
  rewrite Hx0 in Hx. injection Hx as <-.
  destruct Hph as [[Hp [Hr|Hr]]|[Hp Hr]]; rewrite Hr in H; [| |discriminate H].
  - (* the outcome of [connect] arrives *)
    rewrite Hab, andb_true_r in H. destruct ok; injection H as <-.
    + apply (Holding _ x0 {| phase := Resolved; aborted := aborted att0; connected := true;
                             closed := closed att0 |});
        cbn; try assumption.
      * rewrite !list_lookup_alter_eq, Hx0. reflexivity.
      * right. auto.
      * intros y att' Hy Hney. rewrite !list_lookup_alter_ne in Hy by auto.
        exact (Hall y att' Hy Hney).
    + apply (Holding _ x0 {| phase := CatchClosing; aborted := aborted att0;
                             connected := connected att0; closed := true |});
        cbn; try assumption.
      * rewrite !list_lookup_alter_eq, Hx0. reflexivity.
      * left. auto.
      * intros y att' Hy Hney. rewrite !list_lookup_alter_ne in Hy by auto.
        exact (Hall y att' Hy Hney).
  - (* the failed attempt leaves *)
    rewrite Hp in H. rewrite bool_decide_eq_false_2 in H by (intros [? ?]; discriminate).
    injection H as <-. unfold attemptRethrow.
    cbn [abortController setConnectionPromise]. rewrite Ha.
    rewrite bool_decide_eq_true_2 by reflexivity. cbn.
    apply Idle; cbn; try assumption; try reflexivity.
    intros y att' Hy.
    apply lookup_alter_inv in Hy as (a1 & Hy & [[Hney ->]|[_ ->]]); [|reflexivity].
    rewrite list_lookup_alter_ne in Hy by auto. exact (Hall y a1 Hy Hney).
Qed.

Lemma runTask_tasks (t t' : Task) (probeOk : bool) (c c' : Config) :
  runTask maxRetries havePassword t probeOk c = Some (t', c') -> tasks c' = tasks c.
Proof.
  intros H.
  destruct t as [a|a y|a|a|a|a|a [y| |]|a| | |ok]; cbn [runTask] in H;
    unfold enter, claim, initPoolBegin, initPoolCreate, createAttempt,
      ownerSuccess, ownerCatch, closePoolBegin, closePoolEnd in H;
    repeat case_match; simplify_eq; reflexivity.
Qed.

(** While the slot is held, a call of [getPool] calls [connect] no more. *)
Lemma held_claim (a : nat) (c : Config) (y : nat) :
  connectionPromise c = Some y -> liveController c = true ->
  connectCalls (snd (claim havePassword a c)) = connectCalls c.
Proof.
  intros Hp Hl. rewrite (claim_held a c y Hp Hl). destruct (isConnecting c); reflexivity.
Qed.

Lemma held_enter (a : nat) (c : Config) (y : nat) :
  connectionPromise c = Some y -> liveController c = true ->
  connectCalls (snd (enter havePassword a c)) = connectCalls c.
Proof.
  intros Hp Hl. unfold enter. destruct (poolConnected c); [reflexivity|].
  rewrite Hp. destruct (isConnecting c); [reflexivity|].
  exact (held_claim a c y Hp Hl).
Qed.

Lemma ownerCatch_connectCalls (a : nat) (c : Config) :
  connectCalls (snd (ownerCatch maxRetries a c)) = connectCalls c.
Proof. unfold ownerCatch. destruct (S a <? maxRetries)%nat; reflexivity. Qed.

Lemma ownerSuccess_connectCalls (a : nat) (c : Config) :
  connectCalls (snd (ownerSuccess maxRetries a c)) = connectCalls c.
Proof.
  unfold ownerSuccess. destruct (poolConnected c); [reflexivity|].
  apply ownerCatch_connectCalls.
Qed.

Lemma held_runTask (t t' : Task) (probeOk : bool) (c c' : Config) (y : nat) :
  connectionPromise c = Some y -> liveController c = true ->
  getPoolCall t = true ->
  runTask maxRetries havePassword t probeOk c = Some (t', c') ->
  connectCalls c' = connectCalls c.
Proof.
  intros Hp Hl Ht H.
  assert (forall r : Task * Config,
             Some r = Some (t', c') -> connectCalls (snd r) = connectCalls c ->
             connectCalls c' = connectCalls c) as Hr by (intros r [= ->]; auto).
  destruct t as [a|a z|a|a|a|a|a [z| |]|a| | |ok]; cbn [runTask] in H;
    try discriminate Ht; try discriminate H.
  - eapply Hr; [exact H|]. exact (held_enter a c y Hp Hl).
  - destruct (phaseOf c z) as [[]|]; try discriminate H.
    + destruct (poolConnected c && bool_decide (pool c = Some z)).
      * injection H as _ <-. reflexivity.
      * eapply Hr; [exact H|]. exact (held_claim a c y Hp Hl).
    + eapply Hr; [exact H|]. exact (held_claim a (setIsConnecting false c) y Hp Hl).
  - eapply Hr; [exact H|]. exact (held_enter a c y Hp Hl).
  - destruct (phaseOf c z) as [[]|]; try discriminate H.
    + eapply Hr; [exact H|]. apply ownerSuccess_connectCalls.
    + eapply Hr; [exact H|]. apply ownerCatch_connectCalls.
  - eapply Hr; [exact H|]. apply ownerSuccess_connectCalls.
  - eapply Hr; [exact H|]. apply ownerCatch_connectCalls.
  - eapply Hr; [exact H|]. exact (held_enter (S a) c y Hp Hl).
Qed.

(** The invariant of the schedules that call [getPool] only. *)
Definition quiet (c : Config) : Prop :=
  Mode c /\ Forall (fun t => getPoolCall t = true) (tasks c).

Lemma quiet_initial : quiet initial.
Proof. split; [apply Mode_initial|constructor]. Qed.

Lemma quiet_step (l : Label) (c c' : Config) :
  l <> CallClosePool ->
  step maxRetries havePassword l c = Some c' -> quiet c -> quiet c'.
Proof.
  intros Hl H [M F]. destruct l as [| |i probeOk|x ok|x]; cbn [step] in H.
  - injection H as <-. split.
    + revert M. apply Mode_frame; reflexivity.
    + cbn. apply Forall_app. split; [exact F|]. repeat constructor.
  - contradiction.
  - destruct (tasks c !! i) as [t|] eqn:Ht; [|discriminate H]. cbn in H.
    destruct (runTask maxRetries havePassword t probeOk c) as [[t' c1]|] eqn:E;
      [|discriminate H].
    cbn in H. injection H as <-.
    pose proof (proj1 (Forall_lookup _ _) F i t Ht) as Hg. cbn in Hg.
    destruct (Mode_runTask _ _ _ _ _ E Hg M) as [M1 Hg1]. split.
    + revert M1. apply Mode_frame; reflexivity.
    + cbn. rewrite (runTask_tasks _ _ _ _ _ E). apply Forall_insert; assumption.
  - split; [exact (Mode_runAttempt _ _ _ _ H M)|].
    unfold runAttempt in H. unfold attemptRethrow, closePoolBegin, closePoolEnd in H.
    assert (tasks c' = tasks c) as -> by (repeat case_match; simplify_eq; reflexivity).
    exact F.
  - injection H as <-. split; [apply Mode_setConnected, M|exact F].
Qed.

Lemma quiet_run (labels : list Label) (c c' : Config) :
  noClosePool labels = true ->
  run maxRetries havePassword labels c = Some c' -> quiet c -> quiet c'.
Proof.
  revert c. induction labels as [|l rest IH]; intros c Hn H Q; cbn [run] in H.
  - injection H as <-. exact Q.
  - destruct (step maxRetries havePassword l c) as [c1|] eqn:E; [|discriminate H].
    cbn in H. cbn in Hn. apply andb_true_iff in Hn as [Hl Hn].
    apply (IH c1 Hn H). apply (quiet_step l c c1); [|exact E|exact Q].
    intros ->. discriminate Hl.
Qed.

(** The claim for one state: at most one attempt has resolved with a
    pool; and while the promise of an attempt [x] is not settled, [x]
    is the only such attempt, it is the one in [connectionPromise], no
    call calls [connect], and a call of [getPool] that arrives awaits
    the promise of [x]. *)
Definition oneConnectPerCreation (c : Config) : Prop :=
  (forall w v, resolvedWithPool c w -> resolvedWithPool c v -> w = v)
  /\ forall x, pending c x ->
       (forall y, pending c y -> y = x)
       /\ connectionPromise c = Some x
       /\ forall (i : nat) (probeOk : bool) (c' : Config),
            step maxRetries havePassword (RunTask i probeOk) c = Some c' ->
            connectCalls c' = connectCalls c
            /\ forall a, tasks c !! i = Some (Entering a) ->
                 tasks c' !! i = Some (AwaitShared a x)
                 \/ tasks c' !! i = Some (AwaitInitPool a (InitPromise x)).

Lemma quiet_oneConnectPerCreation (c : Config) : quiet c -> oneConnectPerCreation c.
Proof.
  intros [M F]. split.
  - intros w v (aw & Hw & Pw) (av & Hv & Pv).
    destruct M as [Hp Hc Ha Hall|x att Hc Ha Hx Hab Hph Hall].
    + rewrite (Hall w aw Hw) in Pw. discriminate Pw.
    + destruct (decide (w = x)) as [->|Hne];
        [|rewrite (Hall w aw Hw Hne) in Pw; discriminate Pw].
      destruct (decide (v = x)) as [->|Hne];
        [reflexivity|rewrite (Hall v av Hv Hne) in Pv; discriminate Pv].
  - intros x (ax & Hx & Px1 & Px2).
    destruct M as [Hp Hc Ha Hall|x0 att Hc Ha Hx0 Hab Hph Hall].
    { destruct (Px2 (Hall x ax Hx)). }
    destruct (decide (x = x0)) as [->|Hne]; [|destruct (Px2 (Hall x ax Hx Hne))].
    rewrite Hx0 in Hx. injection Hx as <-.
    destruct Hph as [[Hp Hph]|[_ Hph]]; [|destruct (Px1 Hph)].
    pose proof (Holding_held c x0 att Ha Hx0 Hab) as Hl.
    split; [|split; [exact Hc|]].
    + intros y (ay & Hy & _ & Py).
      destruct (decide (y = x0)) as [->|Hne]; [reflexivity|].
      destruct (Py (Hall y ay Hy Hne)).
    + intros i probeOk c' H. cbn [step] in H.
      destruct (tasks c !! i) as [t|] eqn:Ht; [|discriminate H]. cbn in H.
      destruct (runTask maxRetries havePassword t probeOk c) as [[t' c1]|] eqn:E;
        [|discriminate H].
      cbn in H. injection H as <-.
      pose proof (proj1 (Forall_lookup _ _) F i t Ht) as Hg. cbn in Hg.
      split; [exact (held_runTask _ _ _ _ _ x0 Hc Hl Hg E)|].
      intros a [= ->]. cbn [runTask] in E. cbn [tasks setTasks].
      rewrite list_lookup_insert_eq
        by (rewrite (runTask_tasks (Entering a) t' probeOk c c1 E);
            exact (lookup_lt_Some _ _ _ Ht)).
      assert (poolConnected c = false) as Hpc by (unfold poolConnected; rewrite Hp; reflexivity).
      destruct (enter_joins a c x0 Hpc Hc (or_intror Hl)) as [He|He];
        rewrite He in E; injection E as <- _; auto.
Qed.

(** X10.  What the pool manager does keep, in every state that calls
    of [getPool] and of [closePool], the attempts of [initPool] and the
    driver reach, in whatever order they run between their [await]s:
    at most one attempt awaits [connect] under a signal that is not
    aborted, namely the one whose controller the service holds; and a
    call of [getPool] that finds no connected pool, a promise in
    [connectionPromise], and [isConnecting] set or a controller that is
    not aborted, awaits that same promise and calls [connect] no more.
    And in a run in which [closePool] is never called: at most one
    attempt ever resolves with a pool, and while an attempt is not
    settled it is the only one, [connectionPromise] holds its promise,
    every call of [getPool] that arrives awaits it, and no call calls
    [connect] a second time. *)
Theorem getPool_single_flight (labels : list Label) (c : Config) :
  run maxRetries havePassword labels initial = Some c ->
  (forall x, liveRacing c x -> abortController c = Some x)
  /\ (forall x y, liveRacing c x -> liveRacing c y -> x = y)
  /\ arrivalsJoin c
  /\ (noClosePool labels = true -> oneConnectPerCreation c).
Proof.
  intros H. pose proof (guarded_run labels initial c H guarded_initial) as G.
  split; [exact G|]. split; [|split].
  - intros x y Hx Hy. apply G in Hx. apply G in Hy. congruence.
  - apply arrivals_join.
  - intros Hn. apply quiet_oneConnectPerCreation.
    exact (quiet_run labels initial c Hn H quiet_initial).
Qed.

End SingleFlightFacts.

Section SingleFlightExamples.

Import SingleFlight.

(** A first call starts an attempt; a second call arrives. *)
Definition joinSchedule : list Label :=
  [ CallGetPool; RunTask 0 true; CallGetPool ].

Definition joinConfig : Config :=
  {| pool := None; connectionPromise := Some 0%nat; isConnecting := true;
     abortController := Some 0%nat;
     attempts := [ {| phase := Racing; aborted := false; connected := false;
                      closed := false |} ];
     tasks := [ AwaitInitPool 0 (InitPromise 0); Entering 0 ];
     connectCalls := 1 |}.

Lemma getPool_single_flight_witness :
  run 3 true joinSchedule initial = Some joinConfig
  /\ noClosePool joinSchedule = true
  /\ (forall x, liveRacing joinConfig x -> abortController joinConfig = Some x)
  /\ (forall x y, liveRacing joinConfig x -> liveRacing joinConfig y -> x = y)
  /\ arrivalsJoin 3 true joinConfig
  /\ oneConnectPerCreation 3 true joinConfig.
Proof.
  destruct (getPool_single_flight 3%nat true joinSchedule joinConfig eq_refl)
    as (H1 & H2 & H3 & H4).
  exact (conj eq_refl (conj eq_refl (conj H1 (conj H2 (conj H3 (H4 eq_refl)))))).
Defined.

(** Two requests fail on a lost connection and both call [closePool];
    the first returns, and a request starts attempt 1, which a second
    request joins; attempt 1 fails, the joiner resumes first and starts
    attempt 2, then the owner of attempt 1 resumes and releases
    [isConnecting]; the second [closePool] returns and clears
    [connectionPromise]; one more request arrives. *)
Definition raceSchedule : list Label :=
  [ CallGetPool; RunTask 0 true; RunAttempt 0 true; RunTask 0 true;
    CallClosePool; CallClosePool; RunTask 1 true; RunTask 2 true;
    RunTask 1 true;
    CallGetPool; RunTask 3 true; CallGetPool; RunTask 4 true;
    RunAttempt 1 false; RunAttempt 1 true;
    RunTask 4 true; RunTask 3 true;
    RunTask 2 true;
    CallGetPool ].

Definition raceConfig : Config :=
  {| pool := None; connectionPromise := None; isConnecting := false;
     abortController := Some 2%nat;
     attempts := [ {| phase := Resolved; aborted := true; connected := true; closed := true |};
                   {| phase := Rejected; aborted := true; connected := false; closed := true |};
                   {| phase := Racing; aborted := false; connected := false;
                      closed := false |} ];
     tasks := [ Finished true; Finished true; Finished true; BackingOff 0;
                AwaitInitPool 0 (InitPromise 2); Entering 0 ];
     connectCalls := 3 |}.

(** C4: the code breaks the claim on this run.  After [raceSchedule]
    attempt 2 awaits [connect] and its signal is not aborted, but the
    second [closePool] has cleared [connectionPromise] and the owner of
    attempt 1 has released [isConnecting]; the call of [getPool] that
    arrives then finds nothing to await, aborts attempt 2 and calls
    [connect] again, for attempt 3, which it awaits instead. *)
Theorem getPool_second_connect :
  run 3 true raceSchedule initial = Some raceConfig
  /\ phaseOf raceConfig 2 = Some Racing
  /\ isAborted raceConfig 2 = false
  /\ tasks raceConfig !! 5%nat = Some (Entering 0)
  /\ exists c', step 3 true (RunTask 5 true) raceConfig = Some c'
                /\ connectCalls c' = S (connectCalls raceConfig)
                /\ tasks c' !! 5%nat = Some (AwaitInitPool 0 (InitPromise 3))
                /\ phaseOf c' 2 = Some Racing
                /\ isAborted c' 2 = true
                /\ phaseOf c' 3 = Some Racing
                /\ connectionPromise c' = Some 3%nat.
Proof.
  split; [reflexivity|]. repeat (split; [reflexivity|]).
  eexists. repeat split; reflexivity.
Qed.

End SingleFlightExamples.

(** * Further properties of the code *)

(** ** errors.ts: wrapping an error twice *)

Lemma spread_lookup (a b : ErrorDetails) (k : string) :
  spread a b !! k = match b !! k with Some v => Some v | None => a !! k end.
Proof.
  unfold spread. rewrite lookup_union. destruct (b !! k), (a !! k); reflexivity.
Qed.

(** X1.  [MssqlMcpError.fromError] keeps what the caller adds and is
    stable under wrapping: every additional detail is in the result
    under its key, whatever was caught; a value that is no
    [MssqlMcpError] gets the default type; and wrapping the result
    again, as the handlers do with what the service throws, changes
    neither message, type nor original error, and changes the details
    only by the keys added then, which win. *)
Theorem fromError_rewrap (t : Thrown) (ty1 ty2 : ErrorType) (d1 d2 : option ErrorDetails) :
  let e1 := fromError t ty1 d1 in
  let e2 := fromError (TError e1) ty2 d2 in
  (forall extra k v, d1 = Some extra -> extra !! k = Some v ->
     default ∅ (errDetails e1) !! k = Some v)
  /\ (isMcp t = false -> errType e1 = Some ty1)
  /\ errMessage e2 = errMessage e1
  /\ errType e2 = errType e1
  /\ errOriginal e2 = errOriginal e1
  /\ (d2 = None -> e2 = e1)
  /\ (forall extra k, d2 = Some extra ->
        default ∅ (errDetails e2) !! k
        = match extra !! k with
          | Some v => Some v
          | None => default ∅ (errDetails e1) !! k
          end).
Proof.
  intros e1 e2.
  assert (exists m ty o d, e1 = MssqlMcpError m ty o d) as (m & ty & o & d & He1).
  { subst e1. unfold fromError.
    destruct t as [[? ? ?|? ? ? ?]|?|[?|]]; try destruct d1; eauto. }
  split; [|split; [|split; [|split; [|split; [|split]]]]].
  - intros extra k v -> Hk. subst e1. unfold fromError.
    destruct t as [[? ? ?|? ? ? ?]|?|[?|]];
      cbn [errDetails default from_option]; unfold id;
      rewrite spread_lookup, Hk; reflexivity.
  - intros Ht. subst e1. unfold fromError.
    destruct t as [[? ? ?|? ? ? ?]|?|[?|]]; try discriminate Ht; reflexivity.
  - subst e2. rewrite He1. cbn. destruct d2; reflexivity.
  - subst e2. rewrite He1. cbn. destruct d2; reflexivity.
  - subst e2. rewrite He1. cbn. destruct d2; reflexivity.
  - intros ->. subst e2. rewrite He1. reflexivity.
  - intros extra k ->. subst e2. rewrite He1.
    cbn [fromError errDetails default from_option]. unfold id.
    apply spread_lookup.
Qed.

(** ** config.js: the whitelist read back *)

(** No comma in [s]. *)
Definition commaFree (s : string) : bool :=
  Regex.allChars (fun c => negb (Ascii.eqb c ",")) s.

Lemma split_commaFree (x : string) :
  commaFree x = true -> Js.split "," x = [x].
Proof.
  unfold commaFree. induction x as [|c r IH]; [reflexivity|].
  cbn [Regex.allChars Js.split]. intros H. apply andb_true_iff in H as [Hc Hr].
  apply negb_true_iff in Hc. rewrite Hc, (IH Hr). reflexivity.
Qed.

Lemma split_app_comma (x rest : string) :
  commaFree x = true ->
  Js.split "," (x ++ "," ++ rest) = x :: Js.split "," rest.
Proof.
  unfold commaFree. induction x as [|c r IH]; intros H.
  - change ("" ++ "," ++ rest)%string with (String "," rest). reflexivity.
  - change (String c r ++ "," ++ rest)%string with (String c (r ++ "," ++ rest)).
    cbn [Regex.allChars] in H. apply andb_true_iff in H as [Hc Hr].
    apply negb_true_iff in Hc. cbn [Js.split]. rewrite Hc, (IH Hr). reflexivity.
Qed.

(** X2.  The whitelist survives the environment: a list of database
    names, none empty and none with a comma, written to
    SQL_ALLOWED_DATABASES with commas between the names, is read back
    by [config.js] as the same list, in the same order. *)
Theorem allowedDatabases_join_round_trip (names : list string) :
  Forall (fun n => n <> EmptyString /\ commaFree n = true) names ->
  Config.allowedDatabases (Some (Js.join "," names)) = names.
Proof.
  intros H. unfold Config.allowedDatabases. cbn [default from_option]. unfold id.
  rewrite orElse_empty.
  induction H as [|x rest [Hx Hc] Hrest IH]; [reflexivity|].
  destruct rest as [|y rest'].
  - cbn [Js.join]. rewrite (split_commaFree x Hc). cbn [List.filter].
    destruct x; [contradiction|reflexivity].
  - change (Js.join "," (x :: y :: rest')) with (x ++ "," ++ Js.join "," (y :: rest'))%string.
    rewrite (split_app_comma x _ Hc). cbn [List.filter]. rewrite IH.
    destruct x; [contradiction|reflexivity].
Qed.

Lemma allowedDatabases_join_round_trip_witness :
  Config.allowedDatabases (Some (Js.join "," ["master"; "Sales DB"; "hr"]))
  = ["master"; "Sales DB"; "hr"].
Proof.
  apply (allowedDatabases_join_round_trip ["master"; "Sales DB"; "hr"]).
  repeat constructor; discriminate.
Defined.

(** ** Type names, whatever their case and padding *)

Lemma lowerChar_idem (c : ascii) : Js.lowerChar (Js.lowerChar c) = Js.lowerChar c.
Proof. destruct c as [[] [] [] [] [] [] [] []]; reflexivity. Qed.

Lemma isWhiteSpace_lowerChar (c : ascii) :
  Js.isWhiteSpace (Js.lowerChar c) = Js.isWhiteSpace c.
Proof. destruct c as [[] [] [] [] [] [] [] []]; reflexivity. Qed.

Lemma toLowerCase_idem (s : string) :
  Js.toLowerCase (Js.toLowerCase s) = Js.toLowerCase s.
Proof. induction s as [|c r IH]; cbn; [reflexivity|]. now rewrite lowerChar_idem, IH. Qed.

Lemma trimStart_toLowerCase (s : string) :
  Js.trimStart (Js.toLowerCase s) = Js.toLowerCase (Js.trimStart s).
Proof.
  induction s as [|c r IH]; [reflexivity|].
  cbn [Js.toLowerCase Js.trimStart]. rewrite isWhiteSpace_lowerChar.
  destruct (Js.isWhiteSpace c); [exact IH|reflexivity].
Qed.

Lemma trimEnd_toLowerCase (s : string) :
  Js.trimEnd (Js.toLowerCase s) = Js.toLowerCase (Js.trimEnd s).
Proof.
  induction s as [|c r IH]; [reflexivity|].
  cbn [Js.toLowerCase Js.trimEnd]. rewrite IH, isWhiteSpace_lowerChar.
  destruct (Js.trimEnd r); cbn [Js.toLowerCase]; [|reflexivity].
  destruct (Js.isWhiteSpace c); reflexivity.
Qed.

Lemma trim_toLowerCase (s : string) :
  Js.trim (Js.toLowerCase s) = Js.toLowerCase (Js.trim s).
Proof. unfold Js.trim. now rewrite trimStart_toLowerCase, trimEnd_toLowerCase. Qed.

Lemma trimEnd_idem (s : string) : Js.trimEnd (Js.trimEnd s) = Js.trimEnd s.
Proof.
  induction s as [|c r IH]; [reflexivity|].
  cbn [Js.trimEnd]. destruct (Js.trimEnd r) as [|c' r'] eqn:E.
  - destruct (Js.isWhiteSpace c) eqn:Hc; [reflexivity|]. cbn. now rewrite Hc.
  - cbn [Js.trimEnd] in *. rewrite IH. reflexivity.
Qed.

(** A string that does not begin with white space. *)
Definition solidHead (s : string) : Prop :=
  match s with EmptyString => True | String c _ => Js.isWhiteSpace c = false end.

Lemma trimStart_solidHead (s : string) : solidHead (Js.trimStart s).
Proof.
  induction s as [|c r IH]; [exact I|].
  cbn [Js.trimStart]. destruct (Js.isWhiteSpace c) eqn:Hc; [exact IH|exact Hc].
Qed.

Lemma trimEnd_solidHead (s : string) : solidHead s -> solidHead (Js.trimEnd s).
Proof.
  destruct s as [|c r]; [auto|]. cbn [solidHead Js.trimEnd]. intros Hc.
  rewrite Hc. destruct (Js.trimEnd r); exact Hc.
Qed.

Lemma trimStart_of_solidHead (s : string) : solidHead s -> Js.trimStart s = s.
Proof. destruct s as [|c r]; [reflexivity|]. cbn. now intros ->. Qed.

Lemma trim_idem (s : string) : Js.trim (Js.trim s) = Js.trim s.
Proof.
  unfold Js.trim.
  rewrite (trimStart_of_solidHead (Js.trimEnd (Js.trimStart s)))
    by apply trimEnd_solidHead, trimStart_solidHead.
  apply trimEnd_idem.
Qed.

(** X3.  [mapStringToSqlType] reads a type name without regard to
    case or to white space around it: lower-casing or trimming the
    name first changes nothing, and every spelling whose lower-cased,
    trimmed form is a key of the table gets the type listed for that
    key (no entry of the table is hidden by another). *)
Theorem mapStringToSqlType_normalizes (typeName : string) :
  mapStringToSqlType (Js.toLowerCase typeName) = mapStringToSqlType typeName
  /\ mapStringToSqlType (Js.trim typeName) = mapStringToSqlType typeName
  /\ (forall key sqlType,
        In (key, sqlType) sqlDataTypeEntries ->
        normalizedTypeName typeName = key ->
        mapStringToSqlType typeName = sqlType).
Proof.
  unfold mapStringToSqlType, normalizedTypeName. split; [|split].
  - now rewrite toLowerCase_idem.
  - now rewrite <- trim_toLowerCase, trim_idem.
  - intros key sqlType Hin ->.
    assert (Forall (fun kv => sqlDataTypeMap !! fst kv = Some (snd kv)) sqlDataTypeEntries)
      as Hall by (vm_compute; repeat constructor).
    rewrite List.Forall_forall in Hall. pose proof (Hall _ Hin) as H.
    cbn [fst snd] in H. now rewrite H.
Qed.

Lemma mapStringToSqlType_normalizes_witness :
  mapStringToSqlType "  UniqueIdentifier " = UniqueIdentifier.
Proof.
  apply (proj2 (proj2 (mapStringToSqlType_normalizes "  UniqueIdentifier ")) "uniqueidentifier").
  - vm_compute. tauto.
  - reflexivity.
Defined.

(** ** Parameters of a stored procedure *)

(** A parameter name without one leading [@]. *)
Definition withoutLeadingAt (name : string) : string :=
  match name with
  | String "@" rest => rest
  | _ => name
  end.

(** A parameter the loop accepts: it has a name and a type. *)
Definition named (p : ProcParameter) : Prop :=
  paramName p <> EmptyString /\ paramType p <> EmptyString.

(** The input the loop binds for a parameter. *)
Definition boundInput (p : ProcParameter) : BoundInput :=
  {| inputName := withoutLeadingAt (paramName p);
     inputType := mapStringToSqlType (paramType p);
     inputValue := paramValue p |}.

Lemma removeFirst_at (name : string) :
  Js.removeFirst "@" (if Js.startsWith name "@" then name else "@" ++ name)
  = withoutLeadingAt name.
Proof.
  destruct name as [|c r]; [reflexivity|].
  cbn [Js.startsWith]. destruct (Ascii.eqb "@" c) eqn:Hc.
  - apply Ascii.eqb_eq in Hc. subst c. reflexivity.
  - change ("@" ++ String c r)%string with (String "@" (String c r)).
    cbn [Js.removeFirst]. rewrite Ascii.eqb_refl.
    unfold withoutLeadingAt.
    destruct c as [[] [] [] [] [] [] [] []]; try reflexivity. discriminate Hc.
Qed.

Lemma named_dec (p : ProcParameter) :
  negb (Js.truthy (paramName p)) || negb (Js.truthy (paramType p)) = false <-> named p.
Proof.
  unfold named. rewrite orb_false_iff, !negb_false_iff, !truthy_nonempty. tauto.
Qed.

(** X4.  The parameter loop of [executeStoredProcedure].  When every
    parameter has a name and a type, one input is bound per parameter,
    in order, under the name without its leading [@] (so [@id] and [id]
    name the same input), with the type [mapStringToSqlType] gives and
    the value as given.  Otherwise the first parameter that lacks a name
    or a type is reported in a validation error, whatever follows it. *)
Theorem bindParameters_binds (parameters : list ProcParameter) :
  (Forall named parameters -> bindParameters parameters = inr (map boundInput parameters))
  /\ (forall before bad after,
        parameters = (before ++ bad :: after)%list ->
        Forall named before -> ~ named bad ->
        bindParameters parameters
        = inl (MssqlMcpError "DatabaseService: Each parameter must have a name and type"
                 VALIDATION_ERROR None
                 (Some {[ "parameter" := DParam (paramName bad) (paramType bad) ]}))).
Proof.
  split.
  - induction 1 as [|p ps Hp _ IH]; [reflexivity|].
    cbn [bindParameters map]. rewrite (proj2 (named_dec p) Hp), IH.
    unfold boundInput at 1. now rewrite removeFirst_at.
  - intros before bad after -> Hbefore Hbad.
    induction Hbefore as [|p ps Hp _ IH].
    + cbn [app bindParameters].
      destruct (negb (Js.truthy (paramName bad)) || negb (Js.truthy (paramType bad))) eqn:E;
        [reflexivity|]. apply named_dec in E. contradiction.
    + cbn [app bindParameters]. rewrite (proj2 (named_dec p) Hp), IH. reflexivity.
Qed.

Lemma bindParameters_binds_witness :
  bindParameters [ {| paramName := "@id"; paramType := "Int"; paramValue := Some (VNum 7) |};
                   {| paramName := "label"; paramType := "text"; paramValue := None |} ]
  = inr [ {| inputName := "id"; inputType := Int; inputValue := Some (VNum 7) |};
          {| inputName := "label"; inputType := Text; inputValue := None |} ].
Proof.
  refine (eq_trans (proj1 (bindParameters_binds _) _) _).
  - repeat constructor; discriminate.
  - vm_compute. reflexivity.
Defined.

(** ** The tables of a schema *)

(** [`${row.TABLE_SCHEMA}.${row.TABLE_NAME}`] *)
Definition tableNameOf (row : SchemaQueryRow) : string :=
  TABLE_SCHEMA row ++ "." ++ TABLE_NAME row.

(** The rows of [recordset] that belong to the table called [tableName]. *)
Definition rowsOf (tableName : string) (recordset : list SchemaQueryRow) : list SchemaQueryRow :=
  List.filter (fun row => String.eqb (tableNameOf row) tableName) recordset.

(** What the loop of [getSchema] keeps true of the tables built from
    the rows read so far. *)
Definition grouped (tables : list TableSchema) (recordset : list SchemaQueryRow) : Prop :=
  List.NoDup (map fullName tables)
  /\ (forall n, In n (map fullName tables) <-> In n (map tableNameOf recordset))
  /\ (forall t, In t tables ->
        tableColumns t = map columnOfRow (rowsOf (fullName t) recordset)).

Lemma pushColumn_names (n : string) (col : TableColumn) (tables : list TableSchema) :
  map fullName (pushColumn n col tables) = map fullName tables.
Proof.
  induction tables as [|t rest IH]; [reflexivity|].
  cbn [pushColumn]. destruct (String.eqb (fullName t) n); cbn [map]; [reflexivity|].
  now rewrite IH.
Qed.

Lemma pushColumn_In (n : string) (col : TableColumn) (tables : list TableSchema)
      (t' : TableSchema) :
  List.NoDup (map fullName tables) ->
  In t' (pushColumn n col tables) ->
  exists t, In t tables /\ fullName t' = fullName t
            /\ tableColumns t'
               = if String.eqb (fullName t) n then (tableColumns t ++ [col])%list
                 else tableColumns t.
Proof.
  induction tables as [|t rest IH]; [intros _ []|].
  cbn [map pushColumn]. intros Hnd Hin. apply List.NoDup_cons_iff in Hnd as [Hfresh Hnd].
  destruct (String.eqb (fullName t) n) eqn:E.
  - destruct Hin as [<-|Hin].
    + exists t. cbn. rewrite E. auto.
    + exists t'. split; [now right|]. split; [reflexivity|].
      destruct (String.eqb (fullName t') n) eqn:E'; [|reflexivity].
      apply String.eqb_eq in E, E'. exfalso. apply Hfresh.
      rewrite E, <- E'. now apply in_map.
  - destruct Hin as [<-|Hin].
    + exists t. rewrite E. split; [now left|]. split; reflexivity.
    + destruct (IH Hnd Hin) as (t0 & H0 & H1 & H2). exists t0.
      split; [now right|]. split; assumption.
Qed.

Lemma rowsOf_app (n : string) (a b : list SchemaQueryRow) :
  rowsOf n (a ++ b) = (rowsOf n a ++ rowsOf n b)%list.
Proof. apply List.filter_app. Qed.

Lemma rowsOf_none (n : string) (recordset : list SchemaQueryRow) :
  ~ In n (map tableNameOf recordset) -> rowsOf n recordset = [].
Proof.
  induction recordset as [|r rest IH]; [reflexivity|].
  cbn [map rowsOf List.filter]. intros H.
  destruct (String.eqb (tableNameOf r) n) eqn:E.
  - apply String.eqb_eq in E. exfalso. apply H. now left.
  - apply IH. intros Hin. apply H. now right.
Qed.

Lemma existsb_fullName (n : string) (tables : list TableSchema) :
  existsb (fun t => String.eqb (fullName t) n) tables = true <-> In n (map fullName tables).
Proof.
  rewrite existsb_exists, in_map_iff. split.
  - intros (t & Hin & E). apply String.eqb_eq in E. eauto.
  - intros (t & E & Hin). exists t. split; [exact Hin|]. now apply String.eqb_eq.
Qed.

Lemma grouped_addSchemaRow (tables : list TableSchema) (recordset : list SchemaQueryRow)
      (row : SchemaQueryRow) :
  grouped tables recordset -> grouped (addSchemaRow tables row) (recordset ++ [row]).
Proof.
  intros (Hnd & Hnames & Hcols). unfold addSchemaRow. fold (tableNameOf row).
  set (n := tableNameOf row).
  set (fresh := {| schema := TABLE_SCHEMA row; name := TABLE_NAME row;
                   fullName := n; tableColumns := [] |}).
  set (tables' := if existsb (fun t => String.eqb (fullName t) n) tables then tables
                  else (tables ++ [fresh])%list).
  assert (List.NoDup (map fullName tables')
          /\ (forall m, In m (map fullName tables') <-> In m (map tableNameOf (recordset ++ [row])))
          /\ (forall t, In t tables' ->
                tableColumns t = map columnOfRow (rowsOf (fullName t) recordset)))
    as (Hnd' & Hnames' & Hcols').
  { subst tables'. destruct (existsb _ tables) eqn:Ex.
    - apply existsb_fullName in Ex. split; [exact Hnd|]. split; [|exact Hcols].
      intros m. rewrite map_app, in_app_iff, <- Hnames. cbn. split; [auto|].
      intros [H|[<-|[]]]; assumption.
    - assert (~ In n (map fullName tables)) as Hn
          by (intros H; apply existsb_fullName in H; congruence).
      split; [|split].
      + rewrite map_app. cbn [map]. apply List.NoDup_app; [exact Hnd| |].
        * repeat constructor. intros [].
        * intros a Ha [<-|[]]. contradiction.
      + intros m. rewrite !map_app, !in_app_iff, <- Hnames. reflexivity.
      + intros t Hin. apply in_app_iff in Hin as [Hin|[<-|[]]]; [now apply Hcols|].
        cbn [tableColumns fullName]. rewrite rowsOf_none; [reflexivity|].
        now rewrite <- Hnames. }
  split; [|split].
  - now rewrite pushColumn_names.
  - intros m. now rewrite pushColumn_names.
  - intros t' Hin.
    destruct (pushColumn_In n (columnOfRow row) tables' t' Hnd' Hin) as (t & Ht & Hname & Hc).
    rewrite Hc, Hname, rowsOf_app, map_app, (Hcols' t Ht).
    cbn [rowsOf List.filter]. rewrite (String.eqb_sym (tableNameOf row) (fullName t)).
    fold n. destruct (String.eqb (fullName t) n); [reflexivity|].
    cbn. now rewrite app_nil_r.
Qed.

Lemma grouped_fold (rest : list SchemaQueryRow) :
  forall tables done, grouped tables done ->
                      grouped (fold_left addSchemaRow rest tables) (done ++ rest).
Proof.
  induction rest as [|row rest IH]; intros tables done H; cbn [fold_left].
  - now rewrite app_nil_r.
  - replace (done ++ row :: rest)%list with ((done ++ [row]) ++ rest)%list
      by now rewrite <- app_assoc.
    apply IH. now apply grouped_addSchemaRow.
Qed.

(** X5.  The table list [getSchema] builds from the rows of the
    metadata query: no two tables have the same full name; the full
    names are exactly the [schema.table] names that occur in the rows;
    and the columns of each table are those of the rows with its full
    name, all of them, in the order of the rows. *)
Theorem assembleTables_groups_rows (recordset : list SchemaQueryRow) :
  let tables := assembleTables recordset in
  List.NoDup (map fullName tables)
  /\ (forall n, In n (map fullName tables) <-> In n (map tableNameOf recordset))
  /\ (forall t, In t tables ->
        tableColumns t = map columnOfRow (rowsOf (fullName t) recordset)).
Proof.
  apply (grouped_fold recordset [] []).
  split; [constructor|]. split; [tauto|intros t []].
Qed.

(** ** closePool, twice *)

(** X6.  [closePool] always returns, and afterwards the service holds
    neither a pool nor an abort controller.  A pool that was held is
    closed once and the connection promise is forgotten with it; with
    no pool held nothing leaves the process and the connection promise
    stays as it was.  [isConnecting] and the schema cache are not
    touched, and a second [closePool] right after changes nothing at
    all. *)
Theorem closePool_releases_once (w : World) :
  let w' := snd (closePool w) in
  fst (closePool w) = Returned tt
  /\ pool w' = None
  /\ abortController w' = None
  /\ newEvents w w' = match pool w with Some p => [EvClose (poolId p)] | None => [] end
  /\ connectionPromise w' = match pool w with Some _ => None | None => connectionPromise w end
  /\ isConnecting w' = isConnecting w
  /\ schemaCache w' = schemaCache w
  /\ closePool w' = (Returned tt, w').
Proof.
  destruct w as [pl cp ic ac sc cr tr ni rr ck].
  destruct ac as [ctl|], pl as [p|]; cbn; unfold newEvents; cbn;
    rewrite ?skipn_app, ?skipn_all, ?Nat.sub_diag; cbn; repeat split; reflexivity.
Qed.

(** ** What the three operations send and throw *)

Module DbNameFacts.
Import Regex.

Lemma test_Alt (a b : regex) (s : string) : test (Alt a b) s = test a s || test b s.
Proof. revert a b. induction s as [|c s IH]; intros a b; cbn; [reflexivity|apply IH]. Qed.

Lemma test_tail (p : ascii -> bool) (s : string) :
  allChars p s = true -> test (Seq Eps (Star (Class p))) s = true.
Proof.
  induction s as [|c s IH]; [reflexivity|].
  cbn [allChars]. intros [Hc Hs]%andb_true_iff.
  cbn [test deriv nullable]. rewrite Hc, test_Alt, (IH Hs). apply orb_true_r.
Qed.

(** [/^[class]+$/] accepts the strings of one or more characters of the class. *)
Lemma test_Plus_Class (p : ascii -> bool) (s : string) :
  test (Plus (Class p)) s = true <-> s <> EmptyString /\ allChars p s = true.
Proof.
  split.
  - intros H. split; [intros ->; discriminate H|].
    apply RegexFacts.test_allChars in H.
    replace (mentions (Plus (Class p))) with (fun c => p c || p c) in H by reflexivity.
    clear -H. induction s as [|c s IH]; [reflexivity|].
    cbn [allChars] in *. apply andb_true_iff in H as [Hc Hs].
    rewrite orb_diag in Hc. now rewrite Hc, IH.
  - intros [Hne H]. destruct s as [|c s]; [contradiction|].
    cbn [allChars] in H. apply andb_true_iff in H as [Hc Hs].
    unfold Plus. cbn [test deriv nullable]. rewrite Hc. now apply test_tail.
Qed.

Lemma allChars_removeAll (p : ascii -> bool) (x : ascii) (s : string) :
  allChars p s = true ->
  allChars (fun c => p c && negb (Ascii.eqb c x)) (Js.removeAll x s) = true.
Proof.
  induction s as [|c s IH]; [reflexivity|].
  cbn [allChars Js.removeAll]. intros [Hc Hs]%andb_true_iff.
  destruct (Ascii.eqb c x) eqn:E; [now apply IH|].
  cbn [allChars]. now rewrite Hc, E, IH.
Qed.

End DbNameFacts.

(** A character of a database name other than a bracket: a letter, a
    digit, [_], [-] or white space. *)
Definition plainNameChar (c : ascii) : bool :=
  Regex.isDbNameChar c && negb (Ascii.eqb c "]") && negb (Ascii.eqb c "[").

(** The text [USE [n]] for a name [n] of such characters. *)
Definition bracketedUse (sql : string) : Prop :=
  exists n, sql = "USE [" ++ n ++ "]" /\ Regex.allChars plainNameChar n = true.

(** An event that is no batch, or the batch of such a text. *)
Definition safeBatch (ev : Event) : Prop :=
  match ev with
  | EvRequest _ (ReqBatch _ sql) => bracketedUse sql
  | _ => True
  end.

(** A thrown value that is a [MssqlMcpError]. *)
Definition typed (t : Thrown) : Prop :=
  exists m ty o d, t = TError (MssqlMcpError m ty o d).

Lemma useStatement_bracketed (dbName : string) :
  Regex.test Regex.dbNamePattern dbName = true -> bracketedUse (useStatement dbName).
Proof.
  intros H. apply DbNameFacts.test_Plus_Class in H as [_ H].
  exists (Js.removeAll "[" (Js.removeAll "]" dbName)). split; [reflexivity|].
  apply (DbNameFacts.allChars_removeAll _ "]") in H.
  apply (DbNameFacts.allChars_removeAll _ "[") in H. exact H.
Qed.

Lemma poolEvent_safeBatch (ev : Event) : poolEvent ev -> safeBatch ev.
Proof. destruct ev as [| | |? []| |]; cbn; auto. intros []. Qed.

Lemma isConnectionError_typed (t : Thrown) : isConnectionError t -> typed t.
Proof. intros (m & o & d & ->). red. eauto. Qed.

Lemma fromError_typed (t : Thrown) (ty : ErrorType) (d : option ErrorDetails) :
  typed (TError (fromError t ty d)).
Proof.
  unfold fromError, typed.
  destruct t as [[? ? ?|? ? ? ?]|?|[?|]]; try destruct d; eauto.
Qed.

Section OperationFacts.

Variable env : Env.
Let cfg := sqlConfig env.

Lemma sat_request_any (E : Event -> Prop) p r :
  E (EvRequest (poolId p) r) -> sat E anything (request env p r).
Proof.
  intros HE. eapply sat_weaken_throw; [|apply sat_request, HE]. intros; exact I.
Qed.

Lemma sat_switchDatabase_safe p inputs msg db :
  sat safeBatch anything (switchDatabase env p inputs msg db).
Proof.
  unfold switchDatabase.
  destruct (negb (String.eqb db (database (sqlConfig env)))); [|apply sat_ret].
  destruct (Regex.test Regex.dbNamePattern db) eqn:Ht; cbn [negb].
  - apply sat_bind; [|intros; apply sat_ret].
    apply sat_request_any. cbn. now apply useStatement_bracketed.
  - apply sat_throwError. exact I.
Qed.

Lemma sat_getPool_typed fuel a : sat safeBatch typed (getPool env fuel a).
Proof.
  eapply sat_weaken; [| |apply sat_getPool];
    [apply poolEvent_safeBatch | apply isConnectionError_typed].
Qed.

Lemma sat_reestablishPool_typed fuel failure :
  (forall t, isConnectionError (TError (failure t))) ->
  sat safeBatch typed (reestablishPool env fuel failure).
Proof.
  intros Hf. eapply sat_weaken_throw; [apply isConnectionError_typed|].
  apply sat_reestablishPool; [apply poolEvent_safeBatch | exact Hf].
Qed.

Lemma sat_executeQueryTry_safe p query db :
  sat safeBatch anything (executeQueryTry env p query db).
Proof.
  unfold executeQueryTry.
  apply sat_bind; [apply sat_switchDatabase_safe|intros _].
  destruct (validateQuery env query).
  - apply sat_throwError. exact I.
  - repeat first [ sat_step | apply sat_request_any ]; exact I.
Qed.

Lemma sat_executeQueryCatch_typed fuel query raw t :
  sat safeBatch typed (executeQueryCatch env fuel query raw t).
Proof.
  unfold executeQueryCatch.
  destruct t as [[msg code stack|m ty o d]|s|om].
  - repeat first
      [ sat_step
      | apply sat_throwError; apply fromError_typed
      | apply sat_reestablishPool_typed; intros; unfold queryReconnectFailure; red; eauto ].
  - apply sat_throw. red. eauto.
  - apply sat_throwError, fromError_typed.
  - apply sat_throwError, fromError_typed.
Qed.

Lemma sat_executeQuery_typed fuel query raw :
  sat safeBatch typed (executeQuery env fuel query raw).
Proof.
  unfold executeQuery. destruct (whitelistRejects _ _).
  - apply sat_throwError. red. eauto.
  - apply sat_bind; [apply sat_getPool_typed|intros p].
    sat_try anything; [apply sat_executeQueryTry_safe|apply sat_executeQueryCatch_typed].
Qed.

Lemma sat_executeStoredProcedureTry_safe p procedure parameters db :
  sat safeBatch anything (executeStoredProcedureTry env p procedure parameters db).
Proof.
  unfold executeStoredProcedureTry.
  apply sat_bind; [apply sat_switchDatabase_safe|intros _].
  destruct (validateProcedure procedure); [apply sat_throwError; exact I|].
  destruct (bindParameters parameters); [apply sat_throwError; exact I|].
  repeat first [ sat_step | apply sat_request_any ]; exact I.
Qed.

Lemma sat_executeStoredProcedureCatch_typed fuel procedure raw t :
  sat safeBatch typed (executeStoredProcedureCatch env fuel procedure raw t).
Proof.
  unfold executeStoredProcedureCatch.
  destruct t as [[msg code stack|m ty o d]|s|om].
  - repeat first
      [ sat_step
      | apply sat_throwError; apply fromError_typed
      | apply sat_reestablishPool_typed; intros; unfold procedureReconnectFailure; red; eauto ].
  - apply sat_throw. red. eauto.
  - apply sat_throwError, fromError_typed.
  - apply sat_throwError, fromError_typed.
Qed.

Lemma sat_executeStoredProcedure_typed fuel procedure parameters raw :
  sat safeBatch typed (executeStoredProcedure env fuel procedure parameters raw).
Proof.
  unfold executeStoredProcedure. destruct (whitelistRejects _ _).
  - apply sat_throwError. red. eauto.
  - apply sat_bind; [apply sat_getPool_typed|intros p].
    sat_try anything;
      [apply sat_executeStoredProcedureTry_safe|apply sat_executeStoredProcedureCatch_typed].
Qed.

Lemma sat_getSchemaTry_safe p db : sat safeBatch anything (getSchemaTry env p db).
Proof.
  unfold getSchemaTry.
  apply sat_bind; [apply sat_switchDatabase_safe|intros _].
  repeat first [ sat_step
               | eapply sat_weaken_throw; [|apply sat_metadataQuery]; [intros; exact I|] ];
    exact I.
Qed.

Lemma sat_getSchemaCatch_typed fuel db t :
  sat safeBatch typed (getSchemaCatch env fuel db t).
Proof.
  unfold getSchemaCatch.
  destruct t as [[msg code stack|m ty o d]|s|om].
  - repeat first
      [ sat_step
      | apply sat_throwError; apply fromError_typed
      | apply sat_reestablishPool_typed; intros; unfold schemaReconnectFailure; red; eauto ].
  - apply sat_throw. red. eauto.
  - apply sat_throwError, fromError_typed.
  - apply sat_throwError, fromError_typed.
Qed.

Lemma sat_getSchema_typed fuel db : sat safeBatch typed (getSchema env fuel db).
Proof.
  unfold getSchema, fetchSchema. destruct (whitelistRejects _ _).
  - apply sat_throwError. red. eauto.
  - repeat first
      [ sat_step
      | apply sat_getPool_typed
      | sat_try anything; [apply sat_getSchemaTry_safe|apply sat_getSchemaCatch_typed] ].
Qed.

End OperationFacts.

(** X7.  Whatever [getPool], [executeQuery], [executeStoredProcedure]
    and [getSchema] throw is a [MssqlMcpError]: an error of the driver
    or of the parser, a thrown string or any other value never leaves
    them as it came. *)
Theorem operations_throw_typed_errors (env : Env) (fuel : nat) (w w' : World) (t : Thrown) :
  (forall a, getPool env fuel a w = (Threw t, w') -> typed t)
  /\ (forall query raw, executeQuery env fuel query raw w = (Threw t, w') -> typed t)
  /\ (forall procedure parameters raw,
        executeStoredProcedure env fuel procedure parameters raw w = (Threw t, w') -> typed t)
  /\ (forall dbIdentifier, getSchema env fuel dbIdentifier w = (Threw t, w') -> typed t).
Proof.
  split; [|split; [|split]].
  - intros a H. exact (proj2 (sat_getPool_typed env fuel a _ _ _ H) t eq_refl).
  - intros query raw H. exact (proj2 (sat_executeQuery_typed env fuel query raw _ _ _ H) t eq_refl).
  - intros procedure parameters raw H.
    exact (proj2 (sat_executeStoredProcedure_typed env fuel procedure parameters raw _ _ _ H)
             t eq_refl).
  - intros db H. exact (proj2 (sat_getSchema_typed env fuel db _ _ _ H) t eq_refl).
Qed.

(** X8.  The context switch.  A database name passes the name pattern
    exactly when it is not empty and made of letters, digits, [_], [-],
    white space and brackets; and every batch the three operations
    send, on any run, is the text [USE [n]] where [n] is made of
    letters, digits, [_], [-] and white space only: the brackets of
    the name are gone, and no quote, semicolon or other character ever
    stands inside the brackets. *)
Theorem context_switch_is_bracketed (env : Env) (fuel : nat) (w w' : World) :
  (forall dbName,
      Regex.test Regex.dbNamePattern dbName = true
      <-> dbName <> EmptyString /\ Regex.allChars Regex.isDbNameChar dbName = true)
  /\ (forall query raw o,
        executeQuery env fuel query raw w = (o, w') -> Forall safeBatch (newEvents w w'))
  /\ (forall procedure parameters raw o,
        executeStoredProcedure env fuel procedure parameters raw w = (o, w') ->
        Forall safeBatch (newEvents w w'))
  /\ (forall dbIdentifier o,
        getSchema env fuel dbIdentifier w = (o, w') -> Forall safeBatch (newEvents w w')).
Proof.
  assert (forall A (m : M A) o, sat safeBatch typed m -> m w = (o, w') ->
                                Forall safeBatch (newEvents w w')) as Hsat.
  { intros A m o Hm H. destruct (proj1 (Hm _ _ _ H)) as (evs & Happ & Hall).
    now rewrite (newEvents_appended _ _ _ Happ). }
  split; [|split; [|split]].
  - intros dbName. apply DbNameFacts.test_Plus_Class.
  - intros query raw o. apply Hsat, sat_executeQuery_typed.
  - intros procedure parameters raw o. apply Hsat, sat_executeStoredProcedure_typed.
  - intros db o. apply Hsat, sat_getSchema_typed.
Qed.


Lemma operations_throw_typed_errors_witness :
  exists t w', executeQuery flakyEnv 3 "select 1" None liveWorld = (Threw t, w') /\ typed t.
Proof.
  eexists _, _. split; [vm_compute; reflexivity|].
  eapply (proj1 (proj2 (operations_throw_typed_errors flakyEnv 3 liveWorld _ _))
            "select 1" None).
  vm_compute. reflexivity.
Defined.

Lemma context_switch_is_bracketed_witness :
  let w' := snd (executeQuery demoEnv 3 "select 1" (Some "Db1") liveWorld) in
  In (EvRequest 0 (ReqBatch [] "USE [Db1]")) (newEvents liveWorld w')
  /\ Forall safeBatch (newEvents liveWorld w').
Proof.
  split; [vm_compute; tauto|].
  eapply (proj1 (proj2 (context_switch_is_bracketed demoEnv 3 liveWorld _))
            "select 1" (Some "Db1")).
  apply surjective_pairing.
Defined.

(** X9.  A pool that [getPool] returns is the pool the service then
    holds, and it is connected: whether it was there already, was
    awaited from another call's attempt or was connected after
    retries, no call ever gets a pool that is closed, not connected or
    dropped from the service. *)
Theorem getPool_returns_held_pool
    (env : Env) (fuel currentAttempt : nat) (w w' : World) (p : Pool) :
  getPool env fuel currentAttempt w = (Returned p, w') ->
  pool w' = Some p /\ connected p = true.
Proof. intros H. exact (getPool_held env fuel currentAttempt w p w' I H). Qed.

Lemma getPool_returns_held_pool_witness :
  exists w', getPool demoEnv 3 0 freshWorld = (Returned {| poolId := 1; connected := true |}, w')
             /\ pool w' = Some {| poolId := 1; connected := true |}.
Proof.
  eexists. split; [vm_compute; reflexivity|].
  eapply (getPool_returns_held_pool demoEnv 3 0 freshWorld).
  vm_compute. reflexivity.
Defined.

(** ** Retries that end well, and a password that is missing *)

(** The service after a connect that succeeded from the Absent state. *)
Definition afterConnect (w : World) : World :=
  let p := {| poolId := S (nextId w); connected := true |} in
  {| pool := Some p; connectionPromise := Some (Resolved p); isConnecting := false;
     abortController := Some {| signal := nextId w; aborted := false |};
     schemaCache := schemaCache w; connectionRetries := 0;
     trace := trace w ++ [EvConnect (S (nextId w))];
     nextId := S (S (nextId w));
     randomReads := randomReads w; clockReads := clockReads w |}.

(** One turn of [getPool] from the Absent state when the connect succeeds. *)
Lemma getPoolBody_connects env again k w :
  absent w ->
  passwordMissing (sqlConfig env) = false ->
  connectOutcome env (length (trace w)) = Connected true ->
  getPoolBody env again k w
  = (Returned {| poolId := S (nextId w); connected := true |}, afterConnect w).
Proof.
  intros (Hp & Hc & Hi) Hpw Hok.
  destruct w as [pl cp ic ac sc cr tr ni rr ck]. cbn in Hp, Hc, Hi, Hok. subst pl cp ic.
  unfold getPoolBody, awaitOngoing, initPool, initPoolAttempt, connectAttempt.
  unfold bind, tryCatch, get, ret, emit, modify, setIsConnecting, freshId, setAbortController,
    setPool, setConnectionRetries, setConnectionPromise.
  cbn. rewrite Hpw. cbn. rewrite Hok. reflexivity.
Qed.

(** The events of [n] failed attempts, each followed by its wait, the
    first one numbered [k] on instance [inst]. *)
Fixpoint failuresThenWaits (env : Env) (inst reads k n : nat) : list Event :=
  match n with
  | O => []
  | S n' =>
      (failedAttempt inst ++ [EvSleep (retryDelay env k (random env reads))]
         ++ failuresThenWaits env (S (S inst)) (S reads) (S k) n')%list
  end.

Lemma connectAttempts_failuresThenWaits env n : forall inst reads k,
  connectAttempts (failuresThenWaits env inst reads k n) = n.
Proof.
  induction n as [|n IH]; intros inst reads k; [reflexivity|].
  unfold connectAttempts in *. cbn [failuresThenWaits failedAttempt app List.filter isConnect length].
  now rewrite IH.
Qed.

Lemma delaysOf_failuresThenWaits env n : forall inst reads k,
  delaysOf (failuresThenWaits env inst reads k n)
  = map (fun i => retryDelay env (k + i) (random env (reads + i))) (seq 0 n).
Proof.
  induction n as [|n IH]; intros inst reads k; [reflexivity|].
  cbn [failuresThenWaits failedAttempt app delaysOf]. rewrite IH.
  cbn [seq map]. rewrite !Nat.add_0_r. f_equal.
  rewrite <- seq_shift, map_map. apply map_ext. intros i.
  now rewrite !Nat.add_succ_r.
Qed.

Lemma delaysOf_app a b : delaysOf (a ++ b) = (delaysOf a ++ delaysOf b)%list.
Proof.
  induction a as [|ev a IH]; [reflexivity|].
  destruct ev; cbn; rewrite IH; reflexivity.
Qed.

Lemma getPool_recovers env n : forall k w fuel,
  absent w ->
  passwordMissing (sqlConfig env) = false ->
  (forall j c, (j < n)%nat -> connectOutcome env (length (trace w) + 4 * j) <> Connected c) ->
  connectOutcome env (length (trace w) + 4 * n) = Connected true ->
  Z.of_nat (k + n) < maxRetries (sqlConfig env) ->
  (n < fuel)%nat ->
  exists p w',
    getPool env fuel k w = (Returned p, w')
    /\ isConnecting w' = false
    /\ trace w' = (trace w ++ failuresThenWaits env (S (nextId w)) (randomReads w) k n
                     ++ [EvConnect (poolId p)])%list.
Proof.
  induction n as [|n IH]; intros k w fuel Habs Hpw Hfail Hok Hmax Hfuel.
  - destruct fuel as [|fuel]; [lia|]. cbn [getPool].
    rewrite Nat.mul_0_r, Nat.add_0_r in Hok.
    rewrite (getPoolBody_connects env _ k w Habs Hpw Hok).
    eexists _, _. split; [reflexivity|]. split; reflexivity.
  - destruct fuel as [|fuel]; [lia|]. cbn [getPool].
    rewrite getPoolBody_failed_attempt; auto.
    2:{ intros c. specialize (Hfail 0%nat c). rewrite Nat.mul_0_r, Nat.add_0_r in Hfail.
        apply Hfail. lia. }
    replace (Z.of_nat k <? maxRetries (sqlConfig env) - 1) with true
      by (symmetry; apply Z.ltb_lt; lia).
    set (w1 := afterBackoff env k (afterFailedAttempt w)).
    assert (Hlen : forall j, (length (trace w1) + 4 * j = length (trace w) + 4 * S j)%nat).
    { intros j. subst w1. unfold afterBackoff, afterFailedAttempt, failedAttempt. cbn [trace].
      rewrite !length_app. cbn [length]. lia. }
    destruct (IH (S k) w1 fuel) as (p & w' & Hrun & Hic & Htrace); try lia.
    + repeat split.
    + exact Hpw.
    + intros j c Hj. rewrite Hlen. apply Hfail. lia.
    + rewrite Hlen. exact Hok.
    + exists p, w'. split; [exact Hrun|]. split; [exact Hic|].
      rewrite Htrace. subst w1. cbn -[failuresThenWaits].
      cbn [failuresThenWaits]. rewrite <- !app_assoc. reflexivity.
Qed.

(** X11.  Retries are transparent to the caller.  From the Absent state,
    with a password, when the connect fails [k] times and then
    succeeds, and [k] is below the maximum of attempts, [getPool]
    returns the connected pool: it has called [connect] [k + 1] times
    and waited after each failure, attempt [i] followed by the wait
    [min(initialRetryDelay * 2^i + jitter, maxRetryDelay)]; the service
    holds that pool and has released [isConnecting]. *)
Theorem getPool_recovers_after_failures (env : Env) (fuel k : nat) (w : World) :
  let cfg := sqlConfig env in
  Z.of_nat k < maxRetries cfg ->
  (k < fuel)%nat ->
  passwordMissing cfg = false ->
  absent w ->
  (forall j c, (j < k)%nat -> connectOutcome env (length (trace w) + 4 * j) <> Connected c) ->
  connectOutcome env (length (trace w) + 4 * k) = Connected true ->
  exists p w',
    getPool env fuel 0 w = (Returned p, w')
    /\ pool w' = Some p /\ connected p = true
    /\ isConnecting w' = false
    /\ connectAttempts (newEvents w w') = S k
    /\ delaysOf (newEvents w w')
       = map (fun i => retryDelay env i (random env (randomReads w + i))) (seq 0 k).
Proof.
  intros cfg Hmax Hfuel Hpw Habs Hfail Hok.
  destruct (getPool_recovers env k 0 w fuel Habs Hpw Hfail Hok Hmax Hfuel)
    as (p & w' & Hrun & Hic & Htrace).
  destruct (getPool_held env fuel 0 w p w' I Hrun) as [Hheld Hconn].
  exists p, w'. repeat (split; [assumption|]).
  rewrite (newEvents_appended w w' _ Htrace). split.
  - unfold connectAttempts. rewrite List.filter_app, length_app.
    fold (connectAttempts (failuresThenWaits env (S (nextId w)) (randomReads w) 0 k)).
    rewrite connectAttempts_failuresThenWaits. cbn. lia.
  - rewrite delaysOf_app, delaysOf_failuresThenWaits. cbn [delaysOf]. now rewrite app_nil_r.
Qed.

(** A server that refuses the first two connections and accepts the third. *)
Definition recoveringEnv : Env :=
  {| sqlConfig := demoConfig;
     astify := demoAstify;
     connectOutcome := fun pos => if (pos <? 8)%nat
                                  then ConnectFailed (RaisedError "connect ECONNREFUSED" None "at connect")
                                  else Connected true;
     requestOutcome := fun _ _ => Done demoResult;
     metadataOutcome := fun _ => MetadataRows demoSchemaRows;
     random := fun _ => 1 # 2;
     clock := fun n => 1000 * Z.of_nat n |}.

Lemma getPool_recovers_after_failures_witness :
  exists p w',
    getPool recoveringEnv 3 0 freshWorld = (Returned p, w')
    /\ pool w' = Some p /\ connected p = true
    /\ isConnecting w' = false
    /\ connectAttempts (newEvents freshWorld w') = 3%nat
    /\ delaysOf (newEvents freshWorld w')
       = map (fun i => retryDelay recoveringEnv i (random recoveringEnv (0 + i))) (seq 0 2).
Proof.
  apply (getPool_recovers_after_failures recoveringEnv 3 2 freshWorld).
  - reflexivity.
  - lia.
  - reflexivity.
  - repeat split.
  - intros j c Hj. destruct j as [|[|j]]; [discriminate|discriminate|lia].
  - reflexivity.
Defined.

(** ** A password that is missing *)

Definition passwordError : JsError :=
  MssqlMcpError "SQL Server password not provided." VALIDATION_ERROR None
    (Some {[ "missingVariable" := DStr "SQL_PASSWORD" ]}).

(** The service after the wait that follows attempt [k], nothing else
    having changed. *)
Definition afterWait (env : Env) (k : nat) (w : World) : World :=
  {| pool := pool w; connectionPromise := connectionPromise w; isConnecting := isConnecting w;
     abortController := abortController w; schemaCache := schemaCache w;
     connectionRetries := connectionRetries w;
     trace := trace w ++ [EvSleep (retryDelay env k (random env (randomReads w)))];
     nextId := nextId w;
     randomReads := S (randomReads w); clockReads := clockReads w |}.

(** One turn of [getPool] from the Absent state without a password. *)
Lemma getPoolBody_no_password env again k w :
  absent w ->
  passwordMissing (sqlConfig env) = true ->
  getPoolBody env again k w
  = if Z.of_nat k <? maxRetries (sqlConfig env) - 1
    then again (S k) (afterWait env k w)
    else (Threw (TError (retriesExhausted env passwordError)), w).
Proof.
  intros (Hp & Hc & Hi) Hpw.
  destruct w as [pl cp ic ac sc cr tr ni rr ck]. cbn in Hp, Hc, Hi. subst pl cp ic.
  unfold getPoolBody, awaitOngoing, initPool, initPoolAttempt.
  unfold bind, tryCatch, get, ret, emit, modify, setIsConnecting, throwError, throw,
    readRandom, sleep.
  cbn -[fromError retriesExhausted retryDelay].
  rewrite Hpw. cbn -[retriesExhausted retryDelay].
  destruct (Z.of_nat k <? maxRetries (sqlConfig env) - 1); reflexivity.
Qed.

(** The waits of [n] turns, the first one numbered [k]. *)
Definition waits (env : Env) (reads k n : nat) : list Event :=
  map (fun i => EvSleep (retryDelay env (k + i) (random env (reads + i)))) (seq 0 n).

Lemma waits_S env reads k n :
  waits env reads k (S n)
  = EvSleep (retryDelay env k (random env reads)) :: waits env (S reads) (S k) n.
Proof.
  unfold waits. cbn [seq map]. rewrite !Nat.add_0_r. f_equal.
  rewrite <- seq_shift, map_map. apply map_ext. intros i. now rewrite !Nat.add_succ_r.
Qed.

Lemma getPool_no_password env m : forall k w fuel,
  absent w ->
  passwordMissing (sqlConfig env) = true ->
  Z.of_nat k + Z.of_nat (S m) = maxRetries (sqlConfig env) ->
  (S m <= fuel)%nat ->
  exists w',
    getPool env fuel k w = (Threw (TError (retriesExhausted env passwordError)), w')
    /\ absent w'
    /\ trace w' = (trace w ++ waits env (randomReads w) k m)%list.
Proof.
  induction m as [|m IH]; intros k w fuel Habs Hpw Hmax Hfuel.
  - destruct fuel as [|fuel]; [lia|]. cbn [getPool].
    rewrite getPoolBody_no_password by auto.
    replace (Z.of_nat k <? maxRetries (sqlConfig env) - 1) with false
      by (symmetry; apply Z.ltb_ge; lia).
    exists w. split; [reflexivity|]. split; [exact Habs|]. cbn. now rewrite app_nil_r.
  - destruct fuel as [|fuel]; [lia|]. cbn [getPool].
    rewrite getPoolBody_no_password by auto.
    replace (Z.of_nat k <? maxRetries (sqlConfig env) - 1) with true
      by (symmetry; apply Z.ltb_lt; lia).
    destruct (IH (S k) (afterWait env k w) fuel) as (w' & Hrun & Habs' & Htrace);
      auto; try lia.
    exists w'. split; [exact Hrun|]. split; [exact Habs'|].
    rewrite Htrace, waits_S. cbn [afterWait trace randomReads]. now rewrite <- app_assoc.
Qed.

(** X12.  A missing password is handled like a server that is down.
    From the Absent state, with [maxRetries = N >= 1] and no password
    configured, [getPool] never calls [connect], yet waits out the
    whole back-off, [N - 1] waits, and then throws a ConnectionError:
    its message ends with the message of the password check, its
    details name the missing variable and the number of attempts, and
    the service is in the Absent state again. *)
Theorem getPool_missing_password (env : Env) (fuel N : nat) (w : World) :
  let cfg := sqlConfig env in
  maxRetries cfg = Z.of_nat N ->
  (1 <= N <= fuel)%nat ->
  passwordMissing cfg = true ->
  absent w ->
  exists w' d,
    getPool env fuel 0 w
    = (Threw (TError (MssqlMcpError
                        ("DatabaseService: Failed to connect to database after "
                           ++ Js.showZ (Z.of_nat N)
                           ++ " attempts. Last error: SQL Server password not provided.")
                        CONNECTION_ERROR None (Some d))), w')
    /\ d !! "missingVariable" = Some (DStr "SQL_PASSWORD")
    /\ d !! "attempts" = Some (DNum (Z.of_nat N))
    /\ newEvents w w'
       = map (fun i => EvSleep (retryDelay env i (random env (randomReads w + i))))
             (seq 0 (N - 1))
    /\ absent w'.
Proof.
  intros cfg Hmax [HN Hfuel] Hpw Habs.
  destruct N as [|m]; [lia|].
  destruct (getPool_no_password env m 0 w fuel Habs Hpw) as (w' & Hrun & Habs' & Htrace);
    [fold cfg; lia | exact Hfuel |].
  exists w'. eexists. split.
  { rewrite Hrun. unfold retriesExhausted, passwordError. fold cfg. rewrite Hmax. reflexivity. }
  split; [reflexivity|]. split; [reflexivity|]. split; [|exact Habs'].
  rewrite (newEvents_appended w w' _ Htrace). unfold waits.
  replace (S m - 1)%nat with m by lia. reflexivity.
Qed.

(** The demonstration settings without a password. *)
Definition noPasswordEnv : Env :=
  {| sqlConfig :=
       {| server := "localhost"; port := 1433; user := "sa"; password := None;
          database := "master"; requestTimeout := Some 15000; connectionTimeout := Some 15000;
          maxRetries := 3; initialRetryDelay := 1000; maxRetryDelay := 10000;
          schemaCacheTTL := 300000; allowedDatabases := Some ["master"; "Db1"; "Db2"] |};
     astify := demoAstify;
     connectOutcome := fun _ => Connected true;
     requestOutcome := fun _ _ => Done demoResult;
     metadataOutcome := fun _ => MetadataRows demoSchemaRows;
     random := fun _ => 1 # 2;
     clock := fun n => 1000 * Z.of_nat n |}.

Lemma getPool_missing_password_witness :
  exists w' d,
    getPool noPasswordEnv 3 0 freshWorld
    = (Threw (TError (MssqlMcpError
                        ("DatabaseService: Failed to connect to database after "
                           ++ Js.showZ (Z.of_nat 3)
                           ++ " attempts. Last error: SQL Server password not provided.")
                        CONNECTION_ERROR None (Some d))), w')
    /\ d !! "missingVariable" = Some (DStr "SQL_PASSWORD")
    /\ d !! "attempts" = Some (DNum (Z.of_nat 3))
    /\ newEvents freshWorld w'
       = map (fun i => EvSleep (retryDelay noPasswordEnv i
                                  (random noPasswordEnv (randomReads freshWorld + i))))
             (seq 0 (3 - 1))
    /\ absent w'.
Proof.
  apply (getPool_missing_password noPasswordEnv 3 3 freshWorld).
  - reflexivity.
  - lia.
  - reflexivity.
  - repeat split.
Defined.

(** ** Every call of getPool ends, within the attempts allowed *)

(** A pool the driver has given that is not connected, kept with the
    promise and the controller of its attempt. *)
Definition stale (w : World) : Prop :=
  exists p,
    pool w = Some p /\ connected p = false
    /\ connectionPromise w = Some (Resolved p)
    /\ isConnecting w = false
    /\ liveController (abortController w) = true.

(** The states a call of [getPool] goes through between its turns when
    it starts from the Absent state. *)
Definition betweenTurns (w : World) : Prop := absent w \/ stale w.

(** One turn from the Absent state when [connect] resolves with a pool
    that is not connected. *)
Definition afterUnconnected (w : World) : World :=
  let p := {| poolId := S (nextId w); connected := false |} in
  {| pool := Some p; connectionPromise := Some (Resolved p); isConnecting := false;
     abortController := Some {| signal := nextId w; aborted := false |};
     schemaCache := schemaCache w; connectionRetries := 0;
     trace := trace w ++ [EvConnect (S (nextId w))];
     nextId := S (S (nextId w));
     randomReads := randomReads w; clockReads := clockReads w |}.

Definition notConnectedError : JsError :=
  fromError (TString "DatabaseService: Pool not connected after initPool resolved without error.")
            CONNECTION_ERROR None.

Lemma getPoolBody_unconnected env again k w :
  absent w ->
  passwordMissing (sqlConfig env) = false ->
  connectOutcome env (length (trace w)) = Connected false ->
  getPoolBody env again k w
  = if Z.of_nat k <? maxRetries (sqlConfig env) - 1
    then again (S k) (afterWait env k (afterUnconnected w))
    else (Threw (TError (retriesExhausted env notConnectedError)), afterUnconnected w).
Proof.
  intros (Hp & Hc & Hi) Hpw Hok.
  destruct w as [pl cp ic ac sc cr tr ni rr ck]. cbn in Hp, Hc, Hi, Hok. subst pl cp ic.
  unfold getPoolBody, awaitOngoing, initPool, initPoolAttempt, connectAttempt.
  unfold bind, tryCatch, get, ret, emit, modify, setIsConnecting, freshId, setAbortController,
    setPool, setConnectionRetries, setConnectionPromise, throwError, throw, readRandom, sleep.
  cbn -[retriesExhausted retryDelay]. rewrite Hpw. cbn -[retriesExhausted retryDelay].
  rewrite Hok. cbn -[retriesExhausted retryDelay].
  destruct (Z.of_nat k <? maxRetries (sqlConfig env) - 1); reflexivity.
Qed.

Lemma getPoolBody_stale env again k w :
  stale w ->
  getPoolBody env again k w
  = if Z.of_nat k <? maxRetries (sqlConfig env) - 1
    then again (S k) (afterWait env k w)
    else (Threw (TError (retriesExhausted env notConnectedError)), w).
Proof.
  intros (p & Hp & Hconn & Hc & Hi & Hlive).
  destruct w as [pl cp ic ac sc cr tr ni rr ck]. cbn in Hp, Hc, Hi, Hlive. subst pl cp ic.
  destruct p as [pid pc]. cbn in Hconn. subst pc.
  unfold getPoolBody, awaitOngoing, initPool.
  unfold bind, tryCatch, get, ret, emit, modify, setIsConnecting, throwError, throw,
    readRandom, sleep, await.
  cbn -[retriesExhausted retryDelay]. rewrite Hlive. cbn -[retriesExhausted retryDelay].
  destruct (Z.of_nat k <? maxRetries (sqlConfig env) - 1); reflexivity.
Qed.

(** What a turn adds to the history: at most one call of [connect] and
    no wait. *)
Definition oneAttempt (evs : list Event) : Prop :=
  (connectAttempts evs <= 1)%nat /\ delaysOf evs = [].

(** A turn of [getPool] between turns: it returns, or it has failed
    with some error, after which the call waits and takes the next
    turn if attempts are left, and throws otherwise. *)
Lemma getPoolBody_turn env again k w :
  betweenTurns w ->
  exists w0 evs,
    trace w0 = (trace w ++ evs)%list /\ oneAttempt evs
    /\ ((exists p, getPoolBody env again k w = (Returned p, w0))
        \/ (exists e,
               betweenTurns (afterWait env k w0)
               /\ getPoolBody env again k w
                  = if Z.of_nat k <? maxRetries (sqlConfig env) - 1
                    then again (S k) (afterWait env k w0)
                    else (Threw (TError (retriesExhausted env e)), w0))).
Proof.
  intros [Habs|Hstale].
  - destruct (passwordMissing (sqlConfig env)) eqn:Hpw.
    + exists w, []. split; [now rewrite app_nil_r|]. split; [split; [cbn; lia|reflexivity]|].
      right. exists passwordError. split.
      * left. destruct Habs as (? & ? & ?). repeat split; assumption.
      * now apply getPoolBody_no_password.
    + destruct (connectOutcome env (length (trace w))) as [[|]|r|] eqn:Eo.
      * exists (afterConnect w), [EvConnect (S (nextId w))]. split; [reflexivity|].
        split; [split; [cbn; lia|reflexivity]|]. left. eexists.
        now apply getPoolBody_connects.
      * exists (afterUnconnected w), [EvConnect (S (nextId w))]. split; [reflexivity|].
        split; [split; [cbn; lia|reflexivity]|]. right. exists notConnectedError. split.
        -- right. eexists. repeat split.
        -- now apply getPoolBody_unconnected.
      * exists (afterFailedAttempt w), (failedAttempt (S (nextId w))).
        split; [reflexivity|]. split; [split; [cbn; lia|reflexivity]|]. right.
        exists (connectFailure env (connectOutcome env (length (trace w)))). split.
        -- left. repeat split.
        -- rewrite getPoolBody_failed_attempt; auto. rewrite Eo. discriminate.
      * exists (afterFailedAttempt w), (failedAttempt (S (nextId w))).
        split; [reflexivity|]. split; [split; [cbn; lia|reflexivity]|]. right.
        exists (connectFailure env (connectOutcome env (length (trace w)))). split.
        -- left. repeat split.
        -- rewrite getPoolBody_failed_attempt; auto. rewrite Eo. discriminate.
  - exists w, []. split; [now rewrite app_nil_r|]. split; [split; [cbn; lia|reflexivity]|].
    right. exists notConnectedError. split.
    + right. destruct Hstale as (p & ? & ? & ? & ? & ?). exists p. repeat split; assumption.
    + now apply getPoolBody_stale.
Qed.

Lemma connectAttempts_app a b :
  connectAttempts (a ++ b) = (connectAttempts a + connectAttempts b)%nat.
Proof. unfold connectAttempts. now rewrite List.filter_app, length_app. Qed.

(** A call that has ended: it returned, or threw a ConnectionError. *)
Definition ended (o : Outcome Pool) : Prop :=
  (exists p, o = Returned p)
  \/ (exists e, o = Threw (TError e) /\ errType e = Some CONNECTION_ERROR).

Lemma getPool_ends env m : forall k w fuel,
  betweenTurns w ->
  Z.of_nat k + Z.of_nat (S m) = maxRetries (sqlConfig env) ->
  (S m <= fuel)%nat ->
  exists o w' evs,
    getPool env fuel k w = (o, w') /\ ended o
    /\ trace w' = (trace w ++ evs)%list
    /\ (connectAttempts evs <= S m)%nat
    /\ (length (delaysOf evs) <= m)%nat.
Proof.
  induction m as [|m IH]; intros k w fuel Hinv Hmax Hfuel;
    (destruct fuel as [|fuel]; [lia|]); cbn [getPool];
    destruct (getPoolBody_turn env (getPool env fuel) k w Hinv)
      as (w0 & evs & Htrace & [Hc Hd] & [[p Hrun]|(e & Hinv' & Hrun)]);
    try (exists (Returned p), w0, evs; rewrite Hrun, Hd;
         repeat split; [left; eauto|assumption|lia|cbn; lia]).
  - replace (Z.of_nat k <? maxRetries (sqlConfig env) - 1) with false in Hrun
      by (symmetry; apply Z.ltb_ge; lia).
    exists (Threw (TError (retriesExhausted env e))), w0, evs. rewrite Hrun, Hd.
    repeat split; [right; eauto|assumption|lia|cbn; lia].
  - replace (Z.of_nat k <? maxRetries (sqlConfig env) - 1) with true in Hrun
      by (symmetry; apply Z.ltb_lt; lia).
    destruct (IH (S k) (afterWait env k w0) fuel Hinv') as (o & w' & evs' & Hrest & He & Ht & Hc' & Hd');
      try lia.
    exists o, w', (evs ++ EvSleep (retryDelay env k (random env (randomReads w0))) :: evs')%list.
    rewrite Hrun, Hrest. split; [reflexivity|]. split; [exact He|]. split.
    { rewrite Ht. cbn [afterWait trace]. rewrite Htrace, <- !app_assoc. reflexivity. }
    rewrite connectAttempts_app, delaysOf_app, length_app, Hd.
    change (connectAttempts (EvSleep ?q :: evs')) with (connectAttempts evs').
    cbn [delaysOf length]. lia.
Qed.

(** X13.  Every call of [getPool] ends, within the attempts allowed.
    From the Absent state, with [maxRetries = N >= 1], whatever the
    driver answers and whether or not a password is configured, a call
    of [getPool] returns a pool or throws a ConnectionError; it is never
    left waiting and needs no more than [N] turns.  By then it has
    called [connect] at most [N] times and waited at most [N - 1]
    times. *)
Theorem getPool_always_ends (env : Env) (fuel N : nat) (w : World) :
  maxRetries (sqlConfig env) = Z.of_nat N ->
  (1 <= N <= fuel)%nat ->
  absent w ->
  exists o w',
    getPool env fuel 0 w = (o, w')
    /\ ((exists p, o = Returned p)
        \/ (exists e, o = Threw (TError e) /\ errType e = Some CONNECTION_ERROR))
    /\ (connectAttempts (newEvents w w') <= N)%nat
    /\ (length (delaysOf (newEvents w w')) <= N - 1)%nat.
Proof.
  intros Hmax [HN Hfuel] Habs. destruct N as [|m]; [lia|].
  destruct (getPool_ends env m 0 w fuel (or_introl Habs)) as (o & w' & evs & Hrun & He & Ht & Hc & Hd);
    try lia.
  exists o, w'. split; [exact Hrun|]. split; [exact He|].
  rewrite (newEvents_appended w w' evs Ht). split; lia.
Qed.

(** A driver whose pools are never connected. *)
Definition unconnectedEnv : Env :=
  {| sqlConfig := demoConfig;
     astify := demoAstify;
     connectOutcome := fun _ => Connected false;
     requestOutcome := fun _ _ => Done demoResult;
     metadataOutcome := fun _ => MetadataRows demoSchemaRows;
     random := fun _ => 1 # 2;
     clock := fun n => 1000 * Z.of_nat n |}.

Lemma getPool_always_ends_witness :
  exists o w',
    getPool unconnectedEnv 3 0 freshWorld = (o, w')
    /\ ((exists p, o = Returned p)
        \/ (exists e, o = Threw (TError e) /\ errType e = Some CONNECTION_ERROR))
    /\ (connectAttempts (newEvents freshWorld w') <= 3)%nat
    /\ (length (delaysOf (newEvents freshWorld w')) <= 3 - 1)%nat.
Proof.
  apply (getPool_always_ends unconnectedEnv 3 3 freshWorld).
  - reflexivity.
  - lia.
  - repeat split.
Defined.

(** ** Who writes the schema cache *)

Section CacheWriters.

Variable env : Env.
Let cfg := sqlConfig env.

Lemma preserves_view {A} (m : M A) : preserves cacheView m -> preserves schemaCache m.
Proof. intros H w o w' Hrun. exact (f_equal fst (H w o w' Hrun)). Qed.

Lemma preserves_cache_closePool : preserves schemaCache closePool.
Proof. apply preserves_view, preserves_closePool. Qed.

Lemma preserves_cache_getPool fuel a : preserves schemaCache (getPool env fuel a).
Proof. apply preserves_view, preserves_getPool. Qed.

Lemma preserves_cache_switchDatabase p inputs msg db :
  preserves schemaCache (switchDatabase env p inputs msg db).
Proof. apply preserves_view, preserves_switchDatabase. Qed.

Lemma preserves_cache_request p r : preserves schemaCache (request env p r).
Proof. unfold request. repeat preserves_step. Qed.

Lemma preserves_cache_reestablishPool fuel failure :
  preserves schemaCache (reestablishPool env fuel failure).
Proof.
  unfold reestablishPool.
  repeat first [ apply preserves_cache_closePool | apply preserves_cache_getPool
               | preserves_step ].
Qed.

Ltac cache_step :=
  first [ apply preserves_cache_reestablishPool | apply preserves_cache_getPool
        | apply preserves_cache_switchDatabase | apply preserves_cache_request
        | preserves_step ].

Lemma preserves_cache_executeQuery fuel query raw :
  preserves schemaCache (executeQuery env fuel query raw).
Proof.
  unfold executeQuery, executeQueryTry, executeQueryCatch. repeat cache_step.
Qed.

Lemma preserves_cache_executeStoredProcedure fuel procedure parameters raw :
  preserves schemaCache (executeStoredProcedure env fuel procedure parameters raw).
Proof.
  unfold executeStoredProcedure, executeStoredProcedureTry, executeStoredProcedureCatch.
  repeat cache_step.
Qed.

Lemma preserves_cache_getSchemaCatch fuel K t :
  preserves schemaCache (getSchemaCatch env fuel K t).
Proof. unfold getSchemaCatch. repeat cache_step. Qed.

Lemma preserves_cache_metadataQuery p : preserves schemaCache (metadataQuery env p).
Proof. unfold metadataQuery. repeat preserves_step. Qed.

(** What a run of [m] on key [K] does to the cache: nothing, or, when
    it returns [tables], at most the entry of [K], which then holds
    [tables]. *)
Definition writesOwnEntry (K : string) (w : World) (run : Outcome (list TableSchema) * World)
  : Prop :=
  match fst run with
  | Returned tables =>
      (schemaCache (snd run) = schemaCache w
       /\ exists entry, schemaCache w !! K = Some entry /\ data entry = tables)
      \/ (exists entry, schemaCache (snd run) = <[ K := entry ]> (schemaCache w)
                        /\ data entry = tables)
  | _ => schemaCache (snd run) = schemaCache w
  end.

Lemma getSchemaTry_cache p K w : writesOwnEntry K w (getSchemaTry env p K w).
Proof.
  unfold writesOwnEntry, getSchemaTry, bind.
  destruct (switchDatabase env p [] invalidSchemaDatabaseName K w) as [[[]|t| |] w1] eqn:E1;
    pose proof (preserves_cache_switchDatabase _ _ _ _ _ _ _ E1) as H1; cbn [fst snd]; auto.
  destruct (metadataQuery env p w1) as [[recordset|t| |] w2] eqn:E2;
    pose proof (preserves_cache_metadataQuery _ _ _ _ E2) as H2; cbn [fst snd];
    try congruence.
  right. cbn -[assembleTables].
  exists {| timestamp := clock env (clockReads w2); data := assembleTables recordset |}.
  split; [|reflexivity]. now rewrite H2, H1.
Qed.

Lemma fetchSchema_cache fuel K w : writesOwnEntry K w (fetchSchema env fuel K w).
Proof.
  unfold fetchSchema, bind.
  destruct (getPool env fuel 0 w) as [[p|t| |] w1] eqn:E1;
    pose proof (preserves_cache_getPool _ _ _ _ _ E1) as H1;
    try (unfold writesOwnEntry; cbn [fst snd]; exact H1).
  unfold tryCatch. pose proof (getSchemaTry_cache p K w1) as Htry.
  destruct (getSchemaTry env p K w1) as [[tables|t| |] w2] eqn:E2;
    unfold writesOwnEntry in *; cbn [fst snd] in *; try congruence.
  - destruct Htry as [[H2 (entry & He & Hd)]|(entry & H2 & Hd)].
    + left. split; [congruence|]. exists entry. split; [congruence|exact Hd].
    + right. exists entry. split; [congruence|exact Hd].
  - destruct (getSchemaCatch env fuel K t w2) as [o w3] eqn:E3.
    pose proof (preserves_cache_getSchemaCatch _ _ _ _ _ _ E3) as H3.
    pose proof (neverReturns_getSchemaCatch _ _ _ _ _ _ _ E3) as Hn.
    cbn [fst snd]. destruct o; [now destruct (Hn a)|congruence..].
Qed.

Lemma getSchema_cache fuel K w : writesOwnEntry K w (getSchema env fuel K w).
Proof.
  unfold getSchema. fold cfg. destruct (whitelistRejects cfg K); [reflexivity|].
  unfold bind at 1, get. destruct (schemaCache w !! K) as [entry|] eqn:E.
  - unfold bind, dateNow.
    destruct (_ <? _).
    + left. split; [reflexivity|]. exists entry. split; [exact E|reflexivity].
    + exact (fetchSchema_cache fuel K _).
  - exact (fetchSchema_cache fuel K w).
Qed.

Lemma getSchema_returned_passed fuel K w tables w' :
  getSchema env fuel K w = (Returned tables, w') -> whitelistRejects cfg K = false.
Proof.
  unfold getSchema. fold cfg. destruct (whitelistRejects cfg K); [discriminate|reflexivity].
Qed.

End CacheWriters.

(** X14.  Who writes the schema cache.  [getPool], [executeQuery] and
    [executeStoredProcedure] never change it, whatever happens in them,
    the self-heal included.  A [getSchema] for [K] never touches the
    entry of another database; when it does not return, it changes no
    entry at all; and no call ever removes an entry. *)
Theorem schemaCache_written_by_getSchema_only (env : Env) (fuel : nat) (w w' : World) :
  (forall a o, getPool env fuel a w = (o, w') -> schemaCache w' = schemaCache w)
  /\ (forall query raw o,
        executeQuery env fuel query raw w = (o, w') -> schemaCache w' = schemaCache w)
  /\ (forall procedure parameters raw o,
        executeStoredProcedure env fuel procedure parameters raw w = (o, w') ->
        schemaCache w' = schemaCache w)
  /\ (forall K o,
        getSchema env fuel K w = (o, w') ->
        (forall K', K' <> K -> schemaCache w' !! K' = schemaCache w !! K')
        /\ ((forall tables, o <> Returned tables) -> schemaCache w' = schemaCache w)
        /\ (forall K', is_Some (schemaCache w !! K') -> is_Some (schemaCache w' !! K'))).
Proof.
  split; [|split; [|split]].
  - intros a o. apply preserves_cache_getPool.
  - intros query raw o. apply preserves_cache_executeQuery.
  - intros procedure parameters raw o. apply preserves_cache_executeStoredProcedure.
  - intros K o Hrun. pose proof (getSchema_cache env fuel K w) as H.
    rewrite Hrun in H. unfold writesOwnEntry in H. cbn [fst snd] in H.
    destruct o as [tables|t| |]; try (rewrite H; split; [|split]; auto).
    destruct H as [[H _]|(entry & H & _)]; rewrite H.
    + split; [|split]; auto.
    + split; [|split].
      * intros K' HK. apply lookup_insert_ne. congruence.
      * intros Hn. now destruct (Hn tables).
      * intros K' HK'. destruct (decide (K' = K)) as [->|Hne].
        -- rewrite lookup_insert_eq. eauto.
        -- rewrite lookup_insert_ne by congruence. exact HK'.
Qed.

Lemma schemaCache_written_by_getSchema_only_witness :
  let w' := snd (getSchema demoEnv 1 "Db1" cachedWorld) in
  schemaCache w' !! "master" = schemaCache cachedWorld !! "master"
  /\ is_Some (schemaCache w' !! "master").
Proof.
  destruct (proj2 (proj2 (proj2 (schemaCache_written_by_getSchema_only demoEnv 1 cachedWorld
                                   (snd (getSchema demoEnv 1 "Db1" cachedWorld)))))
              "Db1" _ (surjective_pairing _)) as (Hother & _ & Hkept).
  split.
  - apply Hother. discriminate.
  - apply Hkept. vm_compute. eauto.
Defined.

(** X15.  The cache gives back what [getSchema] returned.  When a call
    for [K] returns [tables], the cache then holds an entry for [K]
    with exactly these tables; and a second call for [K], made while
    the clock is less than the TTL past the entry's time stamp, returns
    the same [tables], sends nothing and leaves the cache as it is. *)
Theorem getSchema_repeat_within_ttl
    (env : Env) (fuel fuel' : nat) (K : string) (w w1 : World) (tables : list TableSchema) :
  getSchema env fuel K w = (Returned tables, w1) ->
  exists entry,
    schemaCache w1 !! K = Some entry
    /\ data entry = tables
    /\ (clock env (clockReads w1) - timestamp entry < schemaCacheTTL (sqlConfig env) ->
        exists w2,
          getSchema env fuel' K w1 = (Returned tables, w2)
          /\ newEvents w1 w2 = []
          /\ schemaCache w2 = schemaCache w1).
Proof.
  intros Hrun. pose proof (getSchema_cache env fuel K w) as H.
  rewrite Hrun in H. unfold writesOwnEntry in H. cbn [fst snd] in H.
  assert (Hentry : exists entry, schemaCache w1 !! K = Some entry /\ data entry = tables).
  { destruct H as [[H (entry & He & Hd)]|(entry & H & Hd)]; exists entry; rewrite H.
    - auto.
    - split; [apply lookup_insert_eq|exact Hd]. }
  destruct Hentry as (entry & He & Hd). exists entry. split; [exact He|]. split; [exact Hd|].
  intros Hfresh. eexists. split.
  - rewrite (getSchema_hit env fuel' K w1 entry
               (getSchema_returned_passed env fuel K w tables w1 Hrun) He Hfresh).
    now rewrite Hd.
  - split; [|reflexivity]. unfold newEvents. cbn. now rewrite skipn_all.
Qed.

Lemma getSchema_repeat_within_ttl_witness :
  exists w2,
    getSchema demoEnv 1 "master" cachedWorld = (Returned (assembleTables demoSchemaRows), w2)
    /\ newEvents cachedWorld w2 = [].
Proof.
  destruct (getSchema_repeat_within_ttl demoEnv 1 1 "master" liveWorld cachedWorld
              (assembleTables demoSchemaRows)) as (entry & He & Hd & Hrepeat).
  { vm_compute. reflexivity. }
  assert (Hentry : entry = {| timestamp := 0; data := assembleTables demoSchemaRows |}).
  { assert (H : schemaCache cachedWorld !! "master"
                = Some {| timestamp := 0; data := assembleTables demoSchemaRows |})
      by (vm_compute; reflexivity).
    congruence. }
  subst entry.
  destruct Hrepeat as (w2 & H1 & H2 & _); [vm_compute; reflexivity|].
  exists w2. split; assumption.
Defined.

(** ** The tool handlers and the schema resource *)

(** What a handler gives to [JSON.stringify]: the result of the
    service, or the [error], [errorType] and [details] of the error. *)
Inductive Reply (A : Type) : Type :=
| ReplyResult (result : A)
| ReplyError (error : string) (errorType : option ErrorType) (details : option ErrorDetails).
Arguments ReplyResult {A} result.
Arguments ReplyError {A} error errorType details.

(** The additional details of the two tool handlers: [fixed] and
    [database: rawDatabaseArg]. *)
Definition withDatabaseArg (fixed : ErrorDetails) (rawDatabaseArg : option string)
  : ErrorDetails :=
  match rawDatabaseArg with
  | Some db => <[ "database" := DStr db ]> fixed
  | None => fixed
  end.

(** The details as [JSON.stringify] writes them.  With no database
    argument, [database: rawDatabaseArg] is a property whose value is
    [undefined]: it replaces a [database] detail the error came with,
    and the text leaves it out. *)
Definition writtenDetails (rawDatabaseArg : option string) (d : option ErrorDetails)
  : option ErrorDetails :=
  match rawDatabaseArg with
  | Some _ => d
  | None => delete "database" <$> d
  end.

Definition errorReply {A} (rawDatabaseArg : option string) (mcpError : JsError) : Reply A :=
  ReplyError (errMessage mcpError) (errType mcpError)
             (writtenDetails rawDatabaseArg (errDetails mcpError)).

(** A parameter of the resource template: absent, a string or an array. *)
Inductive TemplateParam : Type :=
| ParamUndefined
| ParamString (s : string)
| ParamArray (l : list string).

Section Handlers.

Variable env : Env.
Variable fuel : nat.
Let cfg := sqlConfig env.

(** The handler of the tool [execute_query]. *)
Definition execute_query (query : string) (rawDatabaseArg : option string)
  : M (Reply QueryResult) :=
  tryCatch
    (result <- executeQuery env fuel query rawDatabaseArg ;;
     ret (ReplyResult result))
    (fun error =>
       let mcpError :=
         fromError error QUERY_ERROR
           (Some (withDatabaseArg {[ "tool" := DStr "execute_query"; "query" := DStr query ]}
                                  rawDatabaseArg)) in
       ret (errorReply rawDatabaseArg mcpError)).

(** The handler of the tool [execute_StoredProcedure]; [parameters]
    defaults to the empty array. *)
Definition execute_StoredProcedure (procedure : string)
    (parameters : option (list ProcParameter)) (rawDatabaseArg : option string)
  : M (Reply StoredProcedureResult) :=
  let parameters := default [] parameters in
  tryCatch
    (result <- executeStoredProcedure env fuel procedure parameters rawDatabaseArg ;;
     ret (ReplyResult result))
    (fun error =>
       let mcpError :=
         fromError error STORED_PROCEDURE_ERROR
           (Some (withDatabaseArg {[ "tool" := DStr "execute_StoredProcedure";
                                     "procedure" := DStr procedure ]}
                                  rawDatabaseArg)) in
       ret (errorReply rawDatabaseArg mcpError)).

(** [Array.isArray(dbParam) ? dbParam[0] || database : (dbParam || database)] *)
Definition dbIdentifierOf (dbParam : TemplateParam) : string :=
  match dbParam with
  | ParamArray l => Js.orElse (default EmptyString (head l)) (database cfg)
  | ParamString s => Js.orElse s (database cfg)
  | ParamUndefined => database cfg
  end.

(** The handler of the resource [schema://{database}]. *)
Definition schemaResource (dbParam : TemplateParam) : M (Reply (list TableSchema)) :=
  let dbIdentifier := dbIdentifierOf dbParam in
  tryCatch
    (tables <- getSchema env fuel dbIdentifier ;;
     ret (ReplyResult tables))
    (fun error =>
       let mcpError :=
         fromError error SCHEMA_ERROR
           (Some {[ "resource" := DStr "schema"; "database" := DStr dbIdentifier ]}) in
       ret (errorReply (Some dbIdentifier) mcpError)).

End Handlers.

(** What a handler makes of a run [run] of the service: it adds no
    effect; a result is handed on; and whatever the service throws is
    answered, never thrown on, with the message and the error type of
    the service's error as they are and the handler's [added] details
    put over the error's own, a [database] detail being struck out
    when [strike] says so. *)
Definition answers {A} (run : Outcome A * World) (reply : Outcome (Reply A) * World)
    (added : ErrorDetails) (strike : bool) : Prop :=
  snd reply = snd run
  /\ match fst run with
     | Returned result => fst reply = Returned (ReplyResult result)
     | Threw t =>
         exists m ty o d0 d,
           t = TError (MssqlMcpError m ty o d0)
           /\ fst reply = Returned (ReplyError m (Some ty) (Some d))
           /\ forall k,
                d !! k
                = if strike && String.eqb k "database" then None
                  else match added !! k with
                       | Some v => Some v
                       | None => default ∅ d0 !! k
                       end
     | Stuck => fst reply = Stuck
     | OutOfFuel => fst reply = OutOfFuel
     end.

Lemma answers_tryCatch {A} (m : M A) (w : World) (defaultType : ErrorType)
    (added : ErrorDetails) (raw : option string) :
  sat (fun _ => True) typed m ->
  answers (m w)
    (tryCatch (result <- m ;; ret (ReplyResult result))
              (fun error => ret (errorReply raw (fromError error defaultType (Some added)))) w)
    added (bool_decide (raw = None)).
Proof.
  intros Hsat. unfold answers, tryCatch, bind, ret.
  destruct (m w) as [[a|t| |] w'] eqn:Em; cbn [fst snd]; auto.
  split; [reflexivity|].
  destruct (proj2 (Hsat _ _ _ Em) t eq_refl) as (msg & ty & o & d0 & ->).
  exists msg, ty, o, d0.
  unfold errorReply, fromError, writtenDetails. cbn [errMessage errType errDetails].
  destruct raw as [db|]; cbn [fmap option_fmap option_map]; eexists;
    (split; [reflexivity|]); (split; [reflexivity|]); intros k.
  - rewrite bool_decide_eq_false_2 by discriminate. cbn [andb].
    unfold spread. rewrite lookup_union.
    destruct (added !! k), (default ∅ d0 !! k); reflexivity.
  - rewrite bool_decide_eq_true_2 by reflexivity. cbn [andb].
    destruct (String.eqb_spec k "database") as [->|Hne].
    + apply lookup_delete_eq.
    + rewrite lookup_delete_ne by congruence.
      unfold spread. rewrite lookup_union.
      destruct (added !! k), (default ∅ d0 !! k); reflexivity.
Qed.

Lemma sat_any_event {A} (E : Event -> Prop) (T : Thrown -> Prop) (m : M A) :
  sat E T m -> sat (fun _ => True) T m.
Proof. intros H. eapply sat_weaken; [| |exact H]; auto. Qed.

(** X16.  What the client gets.  The handlers of [execute_query] and
    [execute_StoredProcedure] and the schema resource add no effect to
    the service's call and never throw: a result is handed on as it is,
    and an error of the service is answered with the service's own
    message and error type, so the default types of the handlers are
    never used.  The details of the answer are those of the error
    with the handler's put over them: the tool or resource, the query
    in full (in place of the truncated one) or the procedure, and the
    [database] argument, whose absence strikes out a [database] detail
    of the error. *)
Theorem handlers_answer (env : Env) (fuel : nat) (w : World) :
  (forall query rawDatabaseArg,
      answers (executeQuery env fuel query rawDatabaseArg w)
              (execute_query env fuel query rawDatabaseArg w)
              (withDatabaseArg {[ "tool" := DStr "execute_query"; "query" := DStr query ]}
                               rawDatabaseArg)
              (bool_decide (rawDatabaseArg = None)))
  /\ (forall procedure parameters rawDatabaseArg,
        answers (executeStoredProcedure env fuel procedure (default [] parameters)
                   rawDatabaseArg w)
                (execute_StoredProcedure env fuel procedure parameters rawDatabaseArg w)
                (withDatabaseArg {[ "tool" := DStr "execute_StoredProcedure";
                                    "procedure" := DStr procedure ]}
                                 rawDatabaseArg)
                (bool_decide (rawDatabaseArg = None)))
  /\ (forall dbParam,
        answers (getSchema env fuel (dbIdentifierOf env dbParam) w)
                (schemaResource env fuel dbParam w)
                {[ "resource" := DStr "schema";
                   "database" := DStr (dbIdentifierOf env dbParam) ]}
                false).
Proof.
  split; [|split].
  - intros query raw. apply answers_tryCatch.
    eapply sat_any_event, sat_executeQuery_typed.
  - intros procedure parameters raw. apply answers_tryCatch.
    eapply sat_any_event, sat_executeStoredProcedure_typed.
  - intros dbParam.
    apply (answers_tryCatch _ w SCHEMA_ERROR _ (Some (dbIdentifierOf env dbParam))).
    eapply sat_any_event, sat_getSchema_typed.
Qed.

(** A database that is not on the whitelist, and one that is. *)
Lemma handlers_answer_witness :
  (exists m d,
      fst (execute_query demoEnv 3 "select 1" (Some "Other") liveWorld)
      = Returned (ReplyError m (Some PERMISSION_ERROR) (Some d))
      /\ d !! "database" = Some (DStr "Other")
      /\ d !! "query" = Some (DStr "select 1"))
  /\ fst (execute_query demoEnv 3 "select 1" (Some "Db1") liveWorld)
     = Returned (ReplyResult (QueryResultSuccess ["Id"; "Name"] [] 0)).
Proof.
  split.
  - destruct (proj1 (handlers_answer demoEnv 3 liveWorld) "select 1" (Some "Other"))
      as [_ H].
    assert (Hrun : exists m o d0 w',
               executeQuery demoEnv 3 "select 1" (Some "Other") liveWorld
               = (Threw (TError (MssqlMcpError m PERMISSION_ERROR o d0)), w')).
    { eexists _, _, _, _. vm_compute. reflexivity. }
    destruct Hrun as (m & o & d0 & w' & Hrun). rewrite Hrun in H. cbn [fst] in H.
    destruct H as (m' & ty & o' & d0' & d & Ht & Hreply & Hd).
    injection Ht as <- <- <- <-.
    exists m, d. split; [exact Hreply|]. split; rewrite Hd; reflexivity.
  - destruct (proj1 (handlers_answer demoEnv 3 liveWorld) "select 1" (Some "Db1"))
      as [_ H].
    assert (Hrun : exists w',
               executeQuery demoEnv 3 "select 1" (Some "Db1") liveWorld
               = (Returned (QueryResultSuccess ["Id"; "Name"] [] 0), w')).
    { eexists. vm_compute. reflexivity. }
    destruct Hrun as (w' & Hrun). rewrite Hrun in H. exact H.
Defined.

(** ** Start and shutdown of the server *)

(** How [main] ends: the server listens, or the process has exited
    with a code. *)
Inductive Startup : Type :=
| Listening
| Exited (code : Z).

Section Main.

Variable env : Env.
Variable fuel : nat.

(** [cleanup], with the service constructed. *)
Definition cleanup : M bool :=
  closePool ;;
  ret true.

(** The handlers of SIGINT and SIGTERM: the exit code. *)
Definition onSignal : M Z :=
  cleanupSuccess <- cleanup ;;
  ret (if cleanupSuccess : bool then 0 else 1).

(** [main] from the first [try] on; [transportFailure] is what
    [server.connect(transport)] raises, if anything. *)
Definition main (transportFailure : option Raised) : M Startup :=
  connected <-
    tryCatch
      (pool <- getPool env fuel 0 ;;
       if connected pool then
         request env pool (ReqQuery "SELECT 1 AS initial_connection_test") ;;
         ret true
       else
         cleanup ;;
         ret false)
      (fun _ =>
         cleanup ;;
         ret false) ;;
  if connected : bool then
    match transportFailure with
    | None => ret Listening
    | Some _ =>
        cleanup ;;
        ret (Exited 1)
    end
  else ret (Exited 1).

End Main.

Lemma cleanup_run w :
  cleanup w = (Returned true, snd (cleanup w))
  /\ pool (snd (cleanup w)) = None /\ abortController (snd (cleanup w)) = None
  /\ exists evs, trace (snd (cleanup w)) = (trace w ++ evs)%list.
Proof.
  unfold cleanup, bind, ret.
  destruct w as [pl cp ic ac sc cr tr ni rr ck].
  destruct ac as [ctl|], pl as [p|]; cbn; repeat split;
    first [ now exists [] ; rewrite app_nil_r | eexists; reflexivity ].
Qed.

(** [main] by the cases of its collaborators. *)
Lemma main_run env fuel transportFailure w :
  main env fuel transportFailure w
  = match getPool env fuel 0 w with
    | (Returned p, wp) =>
        let probe := ReqQuery "SELECT 1 AS initial_connection_test" in
        let sent := snd (emit (EvRequest (poolId p) probe) wp) in
        match requestOutcome env (length (trace wp)) probe, transportFailure with
        | Done _, None => (Returned Listening, sent)
        | _, _ => (Returned (Exited 1), snd (cleanup sent))
        end
    | (Threw _, wp) => (Returned (Exited 1), snd (cleanup wp))
    | (Stuck, wp) => (Stuck, wp)
    | (OutOfFuel, wp) => (OutOfFuel, wp)
    end.
Proof.
  unfold main, bind at 1, tryCatch, bind at 1.
  destruct (getPool env fuel 0 w) as [[p|t| |] wp] eqn:Epool; try reflexivity.
  - destruct (getPool_held env fuel 0 w p wp I Epool) as [_ ->].
    unfold request, bind, get, emit, modify, ret, throw. cbn [fst snd].
    destruct (requestOutcome env (length (trace wp)) _) as [result|e];
      [destruct transportFailure|]; cbn [fst snd];
      try reflexivity;
      match goal with
      | |- context [cleanup ?x] => destruct (cleanup_run x) as [-> _]; reflexivity
      end.
  - unfold bind. destruct (cleanup_run wp) as [-> _]. reflexivity.
Qed.

(** X17.  Start and shutdown.  [main] never throws.  It comes to
    listen only when [getPool] returned a pool, that pool is held and
    connected, the verification query was sent on it and answered, and
    the transport raised nothing; the branch for a pool that is not
    connected is never taken, for whenever [getPool] returns, the
    verification query is the next thing sent.  In every other case
    the process exits with code 1, and by then the service holds
    neither a pool nor an abort controller.  A SIGINT or SIGTERM
    always ends in exit code 0, the pool released. *)
Theorem main_startup (env : Env) (fuel : nat) (transportFailure : option Raised) (w : World) :
  let run := main env fuel transportFailure w in
  (forall t, fst run <> Threw t)
  /\ (forall p wp,
        getPool env fuel 0 w = (Returned p, wp) ->
        exists evs,
          trace (snd run)
          = (trace wp
               ++ EvRequest (poolId p) (ReqQuery "SELECT 1 AS initial_connection_test")
               :: evs)%list)
  /\ (fst run = Returned Listening ->
      transportFailure = None
      /\ exists p wp result,
           getPool env fuel 0 w = (Returned p, wp)
           /\ requestOutcome env (length (trace wp))
                (ReqQuery "SELECT 1 AS initial_connection_test") = Done result
           /\ pool (snd run) = Some p /\ connected p = true)
  /\ (forall code,
        fst run = Returned (Exited code) ->
        code = 1 /\ pool (snd run) = None /\ abortController (snd run) = None)
  /\ (exists w', onSignal w = (Returned 0, w') /\ pool w' = None /\ abortController w' = None).
Proof.
  intros run. subst run.
  assert (Hsig : exists w', onSignal w = (Returned 0, w')
                            /\ pool w' = None /\ abortController w' = None).
  { unfold onSignal, bind. destruct (cleanup_run w) as (-> & Hp & Ha & _).
    eexists. repeat split; assumption. }
  rewrite main_run.
  destruct (getPool env fuel 0 w) as [[p|t| |] wp] eqn:Epool; cbn zeta.
  - destruct (getPool_held env fuel 0 w p wp I Epool) as [Hheld Hconn].
    set (probe := ReqQuery "SELECT 1 AS initial_connection_test").
    set (sent := snd (emit (EvRequest (poolId p) probe) wp)).
    destruct (cleanup_run sent) as (_ & Hp & Ha & evs & Hevs).
    assert (Hsent : trace sent = (trace wp ++ [EvRequest (poolId p) probe])%list)
      by reflexivity.
    destruct (requestOutcome env (length (trace wp)) probe) as [result|e] eqn:Ereq;
      [destruct transportFailure as [r|]|]; cbn [fst snd];
      (split; [discriminate|]);
      (split; [intros p0 wp0 [= <- <-]|]).
    + exists evs. rewrite Hevs, Hsent, <- app_assoc. reflexivity.
    + split; [discriminate|]. split; [|exact Hsig]. intros code [= <-]. auto.
    + exists []. exact Hsent.
    + split; [|split; [discriminate|exact Hsig]].
      intros _. split; [reflexivity|]. exists p, wp, result. auto.
    + exists evs. rewrite Hevs, Hsent, <- app_assoc. reflexivity.
    + split; [discriminate|]. split; [|exact Hsig]. intros code [= <-]. auto.
  - destruct (cleanup_run wp) as (_ & Hp & Ha & _). cbn [fst snd].
    split; [discriminate|]. split; [discriminate|]. split; [discriminate|].
    split; [|exact Hsig]. intros code [= <-]. auto.
  - cbn [fst snd]. repeat (split; [discriminate|]). exact Hsig.
  - cbn [fst snd]. repeat (split; [discriminate|]). exact Hsig.
Qed.

(** The demonstration server starts. *)
Lemma main_startup_witness :
  fst (main demoEnv 3 None freshWorld) = Returned Listening
  /\ exists p, pool (snd (main demoEnv 3 None freshWorld)) = Some p /\ connected p = true.
Proof.
  assert (H : fst (main demoEnv 3 None freshWorld) = Returned Listening)
    by (vm_compute; reflexivity).
  split; [exact H|].
  destruct (proj1 (proj2 (proj2 (main_startup demoEnv 3 None freshWorld))) H)
    as (_ & p & wp & result & _ & _ & Hp & Hc).
  exists p. split; assumption.
Defined.

(** ** The session table of the earlier server *)

Module Legacy.

(** [SessionConnection]: the pool, by its identity, and [lastUsed]. *)
Record SessionConnection : Type := { pool : nat; lastUsed : Z }.

(** [sessionPools]: the entries of the [Map] in insertion order. *)
Definition Sessions : Type := list (string * SessionConnection).

Definition DEFAULT_SESSION_ID : string := "default-mssql-session".
Definition CONNECTION_TIMEOUT : Z := 300000.


(** [sessionPools.get(sessionId)] *)
Fixpoint get (sessionId : string) (sessionPools : Sessions) : option SessionConnection :=
  match sessionPools with
  | [] => None
  | (k, connection) :: rest =>
      if String.eqb k sessionId then Some connection else get sessionId rest
  end.

(** The loop of [cleanup] over the entries: the pools it calls [close] on. *)
Fixpoint closeSessions (sessionPools : Sessions) : list nat :=
  match sessionPools with
  | [] => []
  | (sessionId, sessionConnection) :: rest =>
      if String.eqb sessionId DEFAULT_SESSION_ID then closeSessions rest
      else pool sessionConnection :: closeSessions rest
  end.

(** [cleanup]: the table it leaves and the pools it has closed. *)
Definition cleanup (sessionPools : Sessions) : Sessions * list nat :=
  match sessionPools with
  | [] => ([], [])
  | _ =>
      let closed := closeSessions sessionPools in
      let defaultSession := get DEFAULT_SESSION_ID sessionPools in
      (match defaultSession with
       | Some connection => [(DEFAULT_SESSION_ID, connection)]
       | None => []
       end, closed)
  end.

End Legacy.

Section LegacySessions.

Import Legacy.







Lemma get_In sessionId sessionPools connection :
  get sessionId sessionPools = Some connection -> In (sessionId, connection) sessionPools.
Proof.
  induction sessionPools as [|[k c] rest IH]; [discriminate|]. cbn.
  destruct (String.eqb_spec k sessionId) as [->|Hne]; [intros [= ->]; now left|auto].
Qed.

Lemma get_None sessionId sessionPools :
  get sessionId sessionPools = None -> forall c, ~ In (sessionId, c) sessionPools.
Proof.
  induction sessionPools as [|[k c'] rest IH]; [intros _ c []|]. cbn.
  destruct (String.eqb_spec k sessionId) as [->|Hne]; [discriminate|].
  intros H c [[= -> _]|Hin]; [congruence|]. exact (IH H c Hin).
Qed.


End LegacySessions.
